(** * debos: the command runner ([commands.go])

    A shallow embedding of package [debos]' command execution engine:
    the output capture ([commandWrapper]), the emulation helper
    ([qemuHelper]), the resolv.conf guard ([saveResolvConf],
    [restoreResolvConf]) and the runner ([Command.Run]).

    Go strings and byte slices are both byte sequences; they are modelled
    by [string], whose characters are the 8-bit [ascii].  The operating
    system is an interface ([Host]): every theorem about control flow
    holds for every implementation of it, and an in-memory file system
    ([Mem]) instantiates it for the concrete scenarios. *)

From Equations Require Import Equations.
From Stdlib Require Import ZArith Lia Ascii String.
From stdpp Require Import base option list strings gmap.

Open Scope string_scope.
Open Scope list_scope.
Open Scope Z_scope.

(** ** The parts of the Go runtime and standard library the code uses *)

Module Go.

(** ['\n'] *)
Definition LF : ascii := "010"%char.
Definition nl : string := String LF "".

(** A Go [error] value.  The code only prints errors, returns them, and
    asks [os.IsNotExist] about them. *)
Record error := mkError { Error : string; notExist : bool }.

(** [os.IsNotExist(err)]; [err] may be [nil]. *)
Definition os_IsNotExist (err : option error) : bool :=
  match err with
  | Some e => notExist e
  | None => false
  end.

(** [io.EOF] *)
Definition io_EOF : error := mkError "EOF" false.

(** *** [os.FileMode]: a 32-bit mask, the type bits at the top *)

Definition FileMode := Z.

Definition ModeDir : FileMode := Z.shiftl 1 31.
Definition ModeSymlink : FileMode := Z.shiftl 1 27.
Definition ModeDevice : FileMode := Z.shiftl 1 26.
Definition ModeNamedPipe : FileMode := Z.shiftl 1 25.
Definition ModeSocket : FileMode := Z.shiftl 1 24.
Definition ModeCharDevice : FileMode := Z.shiftl 1 21.
Definition ModeIrregular : FileMode := Z.shiftl 1 19.

Definition ModeType : FileMode :=
  Z.lor ModeDir (Z.lor ModeSymlink (Z.lor ModeNamedPipe (Z.lor ModeSocket
    (Z.lor ModeDevice (Z.lor ModeCharDevice ModeIrregular))))).

(** [m.IsRegular()]: [m&ModeType == 0] *)
Definition IsRegular (m : FileMode) : bool := Z.land m ModeType =? 0.

(** *** [bytes.Buffer.ReadString]

    Reads up to and including the first [delim]; the result is the data
    read, what is left in the buffer, and [io.EOF] when the buffer ran out
    before a delimiter was seen (the data read so far is still returned
    and the buffer is left empty). *)
Fixpoint ReadString (delim : ascii) (buf : string) : string * string * option error :=
  match buf with
  | EmptyString => ("", "", Some io_EOF)
  | String c rest =>
      if Ascii.eqb c delim then (String c "", rest, None)
      else let '(s, r, err) := ReadString delim rest in (String c s, r, err)
  end.

(** *** [log.Printf]

    The logger writes the formatted message and appends a newline when
    the message does not end in one.  Time stamps and logger prefixes are
    left out. *)
Fixpoint ends_in_newline (s : string) : bool :=
  match s with
  | EmptyString => false
  | String c EmptyString => Ascii.eqb c LF
  | String _ rest => ends_in_newline rest
  end.

Definition log_line (msg : string) : string :=
  if ends_in_newline msg then msg else msg +:+ nl.

(** *** [path.Join], [path.Clean]

    [Clean] is purely lexical: it drops empty and [.] components, lets a
    [..] remove the component before it (at the root a [..] disappears, in
    a relative path leading [..] are kept), and yields [.] for an empty
    result.  [Join] joins the non-empty elements with a slash and cleans
    the result; joining nothing but empty strings gives the empty string. *)
Fixpoint split_slash (cur : string) (s : string) : list string :=
  match s with
  | EmptyString => [cur]
  | String c rest =>
      if Ascii.eqb c "/"%char then cur :: split_slash "" rest
      else split_slash (cur +:+ String c "") rest
  end.

(** [stack] holds the components kept so far, the last one first. *)
Definition clean_step (rooted : bool) (stack : list string) (comp : string) : list string :=
  if bool_decide (comp = "") || bool_decide (comp = ".") then stack
  else if bool_decide (comp = "..") then
    match stack with
    | top :: below =>
        if bool_decide (top = "..") then comp :: stack else below
    | [] => if rooted then [] else [comp]
    end
  else comp :: stack.

Fixpoint join_slash (comps : list string) : string :=
  match comps with
  | [] => ""
  | [c] => c
  | c :: rest => c +:+ "/" +:+ join_slash rest
  end.

Definition is_rooted (p : string) : bool :=
  match p with
  | String c _ => Ascii.eqb c "/"%char
  | EmptyString => false
  end.

Definition path_Clean (p : string) : string :=
  if bool_decide (p = "") then "."
  else
    let rooted := is_rooted p in
    let body := join_slash (rev (fold_left (clean_step rooted) (split_slash "" p) [])) in
    if rooted then "/" +:+ body
    else if bool_decide (body = "") then "." else body.

Definition path_Join (a b : string) : string :=
  if bool_decide (a = "") then
    if bool_decide (b = "") then "" else path_Clean b
  else if bool_decide (b = "") then path_Clean a
  else path_Clean (a +:+ "/" +:+ b).

End Go.

Import Go.

(** ** The host: operating system, collaborators, build constants

    [os], [io/ioutil] and [os/exec] calls take the state of the world and
    give a result and the next state.  [CopyFile] and [ServiceHelper] are
    functions of package [debos] that live in other files; [Run] discards
    whatever [Deny] and [Allow] return.  [exec_Run] stands for
    [exec.Command(argv[0], argv[1:]...)] followed by [Cmd.Run] with the given
    environment ([None] is Go's [nil]: inherit the parent's): its result is
    the chunks the process wrote to its standard output and standard error,
    in order, and the error of [Cmd.Run].  [sha256_Sum256] is a parameter
    because only equality of digests matters. *)

Class Host (W : Type) := {
  GOARCH : string;
  sha256_Sum256 : string -> string;
  os_Lstat : string -> W -> (FileMode + error) * W;
  os_Rename : string -> string -> W -> option error * W;
  os_Remove : string -> W -> option error * W;
  os_Environ : W -> list string;
  ioutil_ReadFile : string -> W -> (string + error) * W;
  ioutil_WriteFile : string -> string -> FileMode -> W -> option error * W;
  exec_Run : list string -> option (list string) -> W -> (list string * option error) * W;
  CopyFile : string -> string -> FileMode -> W -> option error * W;
  ServiceHelper_Deny : string -> W -> W;
  ServiceHelper_Allow : string -> W -> W
}.

(** What a run does to the outside, in order: every call into the host
    with what the host answered, and every line given to the logger. *)
Inductive event :=
| CallLstat (name : string) (r : FileMode + error)
| CallRename (oldpath newpath : string) (r : option error)
| CallRemove (name : string) (r : option error)
| CallReadFile (filename : string) (r : string + error)
| CallWriteFile (filename data : string) (perm : FileMode) (r : option error)
| CallCopyFile (src dst : string) (mode : FileMode) (r : option error)
| CallDeny (chroot : string)
| CallAllow (chroot : string)
| CallExec (argv : list string) (env : option (list string))
    (output : list string) (r : option error)
| Log (line : string).

(** A call either returns or panics. *)
Inductive outcome (A : Type) :=
| Done (a : A)
| Panic (msg : string).
Arguments Done {A} a.
Arguments Panic {A} msg.

(** ** Package [debos] *)

(** [ChrootEnterMethod] is an [int]; the constants come from [iota]. *)
Definition ChrootEnterMethod := Z.
Definition CHROOT_METHOD_NONE : ChrootEnterMethod := 0.
Definition CHROOT_METHOD_NSPAWN : ChrootEnterMethod := 1.
Definition CHROOT_METHOD_CHROOT : ChrootEnterMethod := 2.

Record Command := mkCommand {
  Architecture : string;
  Dir : string;
  Chroot : string;
  ChrootMethod : ChrootEnterMethod;
  bindMounts : list string;
  extraEnv : list string
}.

(** [buffer] is a [*bytes.Buffer]: an address in the machine's heap. *)
Record commandWrapper := mkCommandWrapper {
  label : string;
  buffer : nat
}.

Record qemuHelper := mkQemuHelper {
  qemusrc : string;
  qemutarget : string
}.

#[global] Instance error_eq_dec : EqDecision error.
Proof. solve_decision. Defined.

#[global] Instance event_eq_dec : EqDecision event.
Proof. solve_decision. Defined.

Definition AddEnv (cmd : Command) (env : string) : Command :=
  mkCommand (Architecture cmd) (Dir cmd) (Chroot cmd) (ChrootMethod cmd)
    (bindMounts cmd) (extraEnv cmd ++ [env]).

Definition AddEnvKey (cmd : Command) (key value : string) : Command :=
  mkCommand (Architecture cmd) (Dir cmd) (Chroot cmd) (ChrootMethod cmd)
    (bindMounts cmd) (extraEnv cmd ++ [key +:+ "=" +:+ value]).

Definition AddBindMount (cmd : Command) (source target : string) : Command :=
  let mount :=
    if bool_decide (target <> "") then source +:+ ":" +:+ target else source in
  mkCommand (Architecture cmd) (Dir cmd) (Chroot cmd) (ChrootMethod cmd)
    (bindMounts cmd ++ [mount]) (extraEnv cmd).

(** *** The loop of [commandWrapper.out]

    [out_loop label atEOF buf] is the lines the loop logs and what it
    leaves in the buffer.  Each round reads one line off the buffer; the
    round that meets the end of the buffer is the last. *)
Definition inspect {A : Type} (a : A) : {b : A | a = b} := exist _ a eq_refl.

Equations? out_loop (label : string) (atEOF : bool) (buf : string) : list string * string
  by wf (String.length buf) lt :=
out_loop label atEOF buf with inspect (ReadString LF buf) := {
  | exist _ (s, rest, None) _ =>
      let '(lines, kept) := out_loop label atEOF rest in
      (log_line (label +:+ " | " +:+ s) :: lines, kept)
  | exist _ (s, rest, Some err) _ =>
      if bool_decide (0 < String.length s)%nat then
        if atEOF && bool_decide (err = io_EOF) then
          ([log_line (label +:+ " | " +:+ s +:+ nl)], rest)
        else ([], rest +:+ s)
      else ([], rest) }.
Proof.
  clear out_loop.
  assert (G : forall b s r, ReadString LF b = (s, r, None) ->
                            (String.length r < String.length b)%nat).
  { induction b as [|c b IH]; simpl; intros s0 r0 E; [discriminate|].
    destruct (Ascii.eqb c LF).
    - inversion E; subst; lia.
    - destruct (ReadString LF b) as [[s1 r1] e1]. inversion E; subst.
      specialize (IH _ _ eq_refl). lia. }
  eapply G; eassumption.
Qed.

(** ** The machine: the world, the heap of buffers, the trace of events *)

Record machine (W : Type) := mkMachine {
  world : W;
  heap : list string;
  trace : list event
}.
Arguments mkMachine {W} world heap trace.
Arguments world {W} m.
Arguments heap {W} m.
Arguments trace {W} m.

Declare Scope go_scope.
Delimit Scope go_scope with go.

Section Model.
Context {W : Type} `{Host W}.

Definition M (A : Type) : Type := machine W -> outcome A * machine W.

Definition ret {A : Type} (a : A) : M A := fun m => (Done a, m).

Definition bind {A B : Type} (c : M A) (k : A -> M B) : M B :=
  fun m =>
    match c m with
    | (Done a, m1) => k a m1
    | (Panic msg, m1) => (Panic msg, m1)
    end.

Definition panic {A : Type} (msg : string) : M A := fun m => (Panic msg, m).

Definition emit (e : event) : M unit :=
  fun m => (Done tt, mkMachine (world m) (heap m) (trace m ++ [e])).

(** A call into the host, recorded in the trace with its answer. *)
Definition call {A : Type} (e : A -> event) (f : W -> A * W) : M A :=
  fun m =>
    let '(a, w) := f (world m) in
    (Done a, mkMachine w (heap m) (trace m ++ [e a])).

(** [defer d; body]: [d] runs when the function is left, whether [body]
    returns or panics; a panic of [d] itself replaces the outcome. *)
Definition defer {A : Type} (d : M unit) (body : M A) : M A :=
  fun m =>
    let '(r, m1) := body m in
    match d m1 with
    | (Done _, m2) => (r, m2)
    | (Panic msg, m2) => (Panic msg, m2)
    end.

Notation "'let*' x ':=' c 'in' k" := (bind c (fun x => k))
  (at level 10, x pattern, c at level 100, k at level 200) : go_scope.
Notation "c ;; k" := (bind c (fun _ => k))
  (at level 100, right associativity) : go_scope.
Local Open Scope go_scope.

Definition log_Printf (msg : string) : M unit := emit (Log (log_line msg)).

Definition log_Panicf {A : Type} (msg : string) : M A :=
  emit (Log (log_line msg));; panic msg.

Definition Lstat (name : string) : M (FileMode + error) :=
  call (CallLstat name) (os_Lstat name).
Definition Rename (oldpath newpath : string) : M (option error) :=
  call (CallRename oldpath newpath) (os_Rename oldpath newpath).
Definition Remove (name : string) : M (option error) :=
  call (CallRemove name) (os_Remove name).
Definition ReadFile (filename : string) : M (string + error) :=
  call (CallReadFile filename) (ioutil_ReadFile filename).
Definition WriteFile (filename data : string) (perm : FileMode) : M (option error) :=
  call (CallWriteFile filename data perm) (ioutil_WriteFile filename data perm).
Definition Environ : M (list string) :=
  fun m => (Done (os_Environ (world m)), m).

(** The error half of a [(value, error)] result. *)
Definition err_of {A : Type} (r : A + error) : option error :=
  match r with
  | inl _ => None
  | inr e => Some e
  end.

(** *** [bytes.Buffer] in the heap *)

Definition nil_dereference : string :=
  "runtime error: invalid memory address or nil pointer dereference".

Definition new_Buffer : M nat :=
  fun m => (Done (length (heap m)), mkMachine (world m) (heap m ++ [""]) (trace m)).

Definition load (a : nat) : M string :=
  fun m =>
    match heap m !! a with
    | Some b => (Done b, m)
    | None => (Panic nil_dereference, m)
    end.

Definition store (a : nat) (b : string) : M unit :=
  fun m => (Done tt, mkMachine (world m) (<[a := b]> (heap m)) (trace m)).

Definition logs (lines : list string) : M unit :=
  fun m => (Done tt, mkMachine (world m) (heap m) (trace m ++ map Log lines)).

(** *** [commandWrapper] *)

Definition newCommandWrapper (label : string) : M commandWrapper :=
  let* b := new_Buffer in
  ret (mkCommandWrapper label b).

Definition out (w : commandWrapper) (atEOF : bool) : M unit :=
  let* buf := load (buffer w) in
  let '(lines, kept) := out_loop (label w) atEOF buf in
  store (buffer w) kept;;
  logs lines.

Definition Write (w : commandWrapper) (p : string) : M (nat * option error) :=
  let* buf := load (buffer w) in
  store (buffer w) (buf +:+ p);;
  out w false;;
  ret (String.length p, None).

Definition flush (w : commandWrapper) : M unit := out w true.

(** *** The resolv.conf guard *)

Definition hostconf : string := "/etc/resolv.conf".
Definition chrootedconf (cmd : Command) : string := path_Join (Chroot cmd) hostconf.
Definition savedconf (cmd : Command) : string := chrootedconf cmd +:+ ".debos".

Definition generated_marker : string := "# Automatically generated by Debos" +:+ nl.

Definition saveResolvConf (cmd : Command) : M (option string * option error) :=
  if bool_decide (ChrootMethod cmd = CHROOT_METHOD_NONE) then ret (None, None)
  else
    let* st := Lstat (chrootedconf cmd) in
    let* err := (if negb (os_IsNotExist (err_of st))
                 then Rename (chrootedconf cmd) (savedconf cmd)
                 else ret None) in
    match err with
    | Some e => ret (None, Some e)
    | None =>
        let* rd := ReadFile hostconf in
        match rd with
        | inr e => ret (None, Some e)
        | inl data =>
            let out := generated_marker +:+ data in
            let sum := sha256_Sum256 out in
            let* err := WriteFile (chrootedconf cmd) out 420 in
            match err with
            | Some e => ret (None, Some e)
            | None => ret (Some sum, None)
            end
        end
    end.

Definition not_regular_warning : string :=
  "Warning: /etc/resolv.conf inside the chroot is not a regular file".

Definition restoreResolvConf (cmd : Command) (sum : option string) : M (option error) :=
  match sum with
  | None => ret None
  | Some sum =>
      if bool_decide (ChrootMethod cmd = CHROOT_METHOD_NONE) then ret None
      else
        defer (Remove (savedconf cmd);; ret tt)
          (let* st := Lstat (chrootedconf cmd) in
           match st with
           | inr e =>
               if notExist e then ret None
               else panic nil_dereference
           | inl mode =>
               if IsRegular mode then
                 let* rd := ReadFile (chrootedconf cmd) in
                 match rd with
                 | inr e => ret (Some e)
                 | inl data =>
                     let currentsum := sha256_Sum256 data in
                     if bool_decide (currentsum = sum) then
                       let* err := Remove (chrootedconf cmd) in
                       match err with
                       | Some e => ret (Some e)
                       | None =>
                           let* st' := Lstat (savedconf cmd) in
                           if negb (os_IsNotExist (err_of st')) then
                             let* err := Rename (savedconf cmd) (chrootedconf cmd) in
                             match err with
                             | Some e => ret (Some e)
                             | None => ret None
                             end
                           else ret None
                       end
                     else ret None
                 end
               else if negb (Z.land mode ModeSymlink =? 0) then ret None
               else log_Printf not_regular_warning;; ret None
           end)
  end.

(** *** The emulation helper *)

Definition newQemuHelper (c : Command) : M qemuHelper :=
  let q := mkQemuHelper "" "" in
  if bool_decide (Chroot c = "") || bool_decide (Architecture c = "") then ret q
  else
    let arch := Architecture c in
    let* q :=
         (if bool_decide (arch = "armhf") || bool_decide (arch = "armel")
             || bool_decide (arch = "arm") then
            if bool_decide (GOARCH <> "arm64") && bool_decide (GOARCH <> "arm")
            then ret (mkQemuHelper "/usr/bin/qemu-arm-static" (qemutarget q))
            else ret q
          else if bool_decide (arch = "arm64") then
            if bool_decide (GOARCH <> "arm64")
            then ret (mkQemuHelper "/usr/bin/qemu-aarch64-static" (qemutarget q))
            else ret q
          else if bool_decide (arch = "mips") then
            ret (mkQemuHelper "/usr/bin/qemu-mips-static" (qemutarget q))
          else if bool_decide (arch = "mipsel") then
            if bool_decide (GOARCH <> "mips64le") && bool_decide (GOARCH <> "mipsle")
            then ret (mkQemuHelper "/usr/bin/qemu-mipsel-static" (qemutarget q))
            else ret q
          else if bool_decide (arch = "mips64el") then
            if bool_decide (GOARCH <> "mips64le")
            then ret (mkQemuHelper "/usr/bin/qemu-mips64el-static" (qemutarget q))
            else ret q
          else if bool_decide (arch = "riscv64") then
            if bool_decide (GOARCH <> "riscv64")
            then ret (mkQemuHelper "/usr/bin/qemu-riscv64-static" (qemutarget q))
            else ret q
          else if bool_decide (arch = "i386") then
            if bool_decide (GOARCH <> "amd64") && bool_decide (GOARCH <> "386")
            then ret (mkQemuHelper "/usr/bin/qemu-i386-static" (qemutarget q))
            else ret q
          else if bool_decide (arch = "amd64") then
            if bool_decide (GOARCH <> "amd64")
            then ret (mkQemuHelper "/usr/bin/qemu-x86_64-static" (qemutarget q))
            else ret q
          else log_Panicf ("Don't know qemu for Architecture " +:+ arch)) in
    if bool_decide (qemusrc q <> "")
    then ret (mkQemuHelper (qemusrc q) (path_Join (Chroot c) (qemusrc q)))
    else ret q.

Definition Setup (q : qemuHelper) : M (option error) :=
  if bool_decide (qemusrc q = "") then ret None
  else call (CallCopyFile (qemusrc q) (qemutarget q) 493)
            (CopyFile (qemusrc q) (qemutarget q) 493).

Definition Cleanup (q : qemuHelper) : M unit :=
  if bool_decide (qemusrc q <> "") then Remove (qemutarget q);; ret tt
  else ret tt.

(** *** [ServiceHelper], as [Run] uses it *)

Definition Deny (chroot : string) : M unit :=
  call (fun _ => CallDeny chroot) (fun w => (tt, ServiceHelper_Deny chroot w)).

Definition Allow (chroot : string) : M unit :=
  call (fun _ => CallAllow chroot) (fun w => (tt, ServiceHelper_Allow chroot w)).

(** *** [exec.Cmd.Run] with both output streams on the wrapper *)

Fixpoint feed (w : commandWrapper) (chunks : list string) : M unit :=
  match chunks with
  | [] => ret tt
  | p :: rest => Write w p;; feed w rest
  end.

Definition exe_Run (argv : list string) (env : option (list string))
    (w : commandWrapper) : M (option error) :=
  let* (chunks, err) :=
    call (fun r => CallExec argv env (fst r) (snd r)) (exec_Run argv env) in
  feed w chunks;;
  ret err.

(** *** [Command.Run] *)

(** The [switch] that assembles [options]. *)
Definition Run_options (cmd : Command) (cmdline : list string) : list string :=
  let options : list string := [] in
  if bool_decide (ChrootMethod cmd = CHROOT_METHOD_NONE) then cmdline
  else if bool_decide (ChrootMethod cmd = CHROOT_METHOD_CHROOT) then
    let options := options ++ ["chroot"] in
    let options := options ++ [Chroot cmd] in
    options ++ cmdline
  else if bool_decide (ChrootMethod cmd = CHROOT_METHOD_NSPAWN) then
    let options := options ++ ["systemd-nspawn"; "-q"] in
    let options := options ++ ["--resolv-conf=off"] in
    let options := options ++ ["--timezone=off"] in
    let options := options ++ ["--register=no"] in
    let options := options ++ ["--keep-unit"] in
    let options := options ++ ["--console=pipe"] in
    let options :=
      fold_left (fun options e => options ++ ["--setenv"; e]) (extraEnv cmd) options in
    let options :=
      fold_left (fun options b => options ++ ["--bind"; b]) (bindMounts cmd) options in
    let options := options ++ ["-D"; Chroot cmd] in
    options ++ cmdline
  else options.

(** [exe.Env]: left [nil] unless the guard holds. *)
Definition Run_env (cmd : Command) : M (option (list string)) :=
  if bool_decide (0 < length (extraEnv cmd))%nat
     && bool_decide (ChrootMethod cmd <> CHROOT_METHOD_NSPAWN)
  then let* environ := Environ in ret (Some (environ ++ extraEnv cmd))
  else ret None.

(** [exec.Command(options[0], options[1:]...)] on an empty [options]: the
    compiled program takes the slice [options[1:]] first, and it is that
    bound the runtime reports. *)
Definition slice_bounds_out_of_range : string :=
  "runtime error: slice bounds out of range [1:0]".

(** From saving resolv.conf to the last [return]. *)
Definition Run_body (cmd : Command) (options : list string)
    (env : option (list string)) (w : commandWrapper) : M (option error) :=
  let* (resolvsum, err) := saveResolvConf cmd in
  match err with
  | Some e => ret (Some e)
  | None =>
      let* err := exe_Run options env w in
      match err with
      | Some e => ret (Some e)
      | None =>
          let* err := restoreResolvConf cmd resolvsum in
          match err with
          | Some e => ret (Some e)
          | None => ret None
          end
      end
  end.

Definition Run (cmd : Command) (label : string) (cmdline : list string) : M (option error) :=
  let* q := newQemuHelper cmd in
  Setup q;;
  defer (Cleanup q)
    (let options := Run_options cmd cmdline in
     match options with
     | [] => panic slice_bounds_out_of_range
     | _ :: _ =>
         let* w := newCommandWrapper label in
         defer (flush w)
           (let* env := Run_env cmd in
            if bool_decide (ChrootMethod cmd <> CHROOT_METHOD_NONE) then
              Deny (Chroot cmd);;
              defer (Allow (Chroot cmd)) (Run_body cmd options env w)
            else Run_body cmd options env w)
     end).

End Model.

Arguments M W A : clear implicits.

(** ** An in-memory host

    Files are a finite map from cleaned paths to nodes; a process is a
    function on the files.  The digest of this host is the content
    itself: like SHA-256 is taken to be, it tells any two contents apart.
    The service gate keeps its state outside the files seen here. *)

Module Mem.

Record node := mkNode {
  mode : FileMode;
  data : string
}.

Definition process : Type :=
  list string -> option (list string) -> gmap string node ->
  (list string * option error) * gmap string node.

Record fsworld := mkWorld {
  files : gmap string node;
  environ : list string;
  program : process
}.

Definition set_files (w : fsworld) (fs : gmap string node) : fsworld :=
  mkWorld fs (environ w) (program w).

Definition ENOENT (name : string) : error :=
  mkError (name +:+ ": no such file or directory") true.

Definition EINVAL (name : string) : error :=
  mkError (name +:+ ": invalid argument") false.

Definition lstat (name : string) (w : fsworld) : (FileMode + error) * fsworld :=
  match files w !! name with
  | Some n => (inl (mode n), w)
  | None => (inr (ENOENT name), w)
  end.

Definition rename (oldpath newpath : string) (w : fsworld) : option error * fsworld :=
  match files w !! oldpath with
  | Some n => (None, set_files w (<[newpath := n]> (delete oldpath (files w))))
  | None => (Some (ENOENT oldpath), w)
  end.

Definition remove (name : string) (w : fsworld) : option error * fsworld :=
  match files w !! name with
  | Some _ => (None, set_files w (delete name (files w)))
  | None => (Some (ENOENT name), w)
  end.

Definition read_file (name : string) (w : fsworld) : (string + error) * fsworld :=
  match files w !! name with
  | Some n =>
      if IsRegular (mode n) then (inl (data n), w) else (inr (EINVAL name), w)
  | None => (inr (ENOENT name), w)
  end.

Definition write_file (name content : string) (perm : FileMode) (w : fsworld)
    : option error * fsworld :=
  match files w !! name with
  | Some n =>
      if IsRegular (mode n)
      then (None, set_files w (<[name := mkNode (mode n) content]> (files w)))
      else (Some (EINVAL name), w)
  | None => (None, set_files w (<[name := mkNode perm content]> (files w)))
  end.

Definition copy_file (src dst : string) (perm : FileMode) (w : fsworld)
    : option error * fsworld :=
  match read_file src w with
  | (inl content, _) => (None, set_files w (<[dst := mkNode perm content]> (files w)))
  | (inr e, _) => (Some e, w)
  end.

Definition run_program (argv : list string) (env : option (list string)) (w : fsworld)
    : (list string * option error) * fsworld :=
  let '(r, fs) := program w argv env (files w) in
  (r, set_files w fs).

Definition host (goarch : string) : Host fsworld := {|
  GOARCH := goarch;
  sha256_Sum256 := fun content => content;
  os_Lstat := lstat;
  os_Rename := rename;
  os_Remove := remove;
  os_Environ := environ;
  ioutil_ReadFile := read_file;
  ioutil_WriteFile := write_file;
  exec_Run := run_program;
  CopyFile := copy_file;
  ServiceHelper_Deny := fun _ w => w;
  ServiceHelper_Allow := fun _ w => w
|}.

(** A machine that has not run anything yet. *)
Definition boot (w : fsworld) : machine fsworld := mkMachine w [] [].

(** A process that writes [output] and exits with [status], touching no file. *)
Definition exits (output : list string) (status : option error) : process :=
  fun _ _ fs => ((output, status), fs).

End Mem.

(** ** What the specification says, in its own words *)

(** The compatibility table of the emulation helper: target architecture,
    the host architectures that run it without emulation, the static
    interpreter otherwise. *)
Definition compatibility_table : list (string * (list string * string)) :=
  [ ("armhf", (["arm64"; "arm"], "/usr/bin/qemu-arm-static"));
    ("armel", (["arm64"; "arm"], "/usr/bin/qemu-arm-static"));
    ("arm", (["arm64"; "arm"], "/usr/bin/qemu-arm-static"));
    ("arm64", (["arm64"], "/usr/bin/qemu-aarch64-static"));
    ("mips", ([], "/usr/bin/qemu-mips-static"));
    ("mipsel", (["mips64le"; "mipsle"], "/usr/bin/qemu-mipsel-static"));
    ("mips64el", (["mips64le"], "/usr/bin/qemu-mips64el-static"));
    ("riscv64", (["riscv64"], "/usr/bin/qemu-riscv64-static"));
    ("i386", (["amd64"; "386"], "/usr/bin/qemu-i386-static"));
    ("amd64", (["amd64"], "/usr/bin/qemu-x86_64-static")) ].

Definition supported_architectures : list string := compatibility_table.*1.

(** The helper needs emulation when it names an interpreter. *)
Definition needs_emulation (q : qemuHelper) : bool := negb (bool_decide (qemusrc q = "")).

(** The table's verdict for a supported target on a host. *)
Definition table_needs_emulation (natives : list string) (host : string) : bool :=
  negb (bool_decide (host ∈ natives)).

(** The fixed flags of the namespace-container tool. *)
Definition nspawn_flags : list string :=
  ["-q"; "--resolv-conf=off"; "--timezone=off"; "--register=no"; "--keep-unit";
   "--console=pipe"].

(** Output framing: the newline-terminated segments of a stream, each
    without its newline, and the newline-less rest.  [cur] is the segment
    being read. *)
Fixpoint segments (cur : string) (stream : string) : list string * string :=
  match stream with
  | EmptyString => ([], cur)
  | String c rest =>
      if Ascii.eqb c LF then
        let '(complete, partial) := segments "" rest in (cur :: complete, partial)
      else segments (cur +:+ String c "") rest
  end.

(** A labeled log line. *)
Definition labeled (label segment : string) : string :=
  label +:+ " | " +:+ segment +:+ nl.

(** The lines logged by a run, in order. *)
Definition logged (evs : list event) : list string :=
  omap (fun e => match e with Log line => Some line | _ => None end) evs.

(** The processes spawned by a run: argument vector and environment. *)
Definition spawned (evs : list event) : list (list string * option (list string)) :=
  omap (fun e => match e with CallExec argv env _ _ => Some (argv, env) | _ => None end) evs.

(** The merged stream: the chunks as the capture received them, end to end. *)
Definition merged (chunks : list string) : string := foldr String.append "" chunks.

(** The lines the capture owes for a stream once the end is signalled. *)
Definition framed (label : string) (stream : string) : list string :=
  let '(complete, partial) := segments "" stream in
  map (labeled label) (complete ++ (if bool_decide (partial = "") then [] else [partial])).

(** A string without a newline: all of it is one partial segment. *)
Definition newline_free (s : string) : Prop := segments "" s = ([], s).

(** ** The resolv.conf guard, as a protocol

    The results and calls the two steps may produce.  [set_aside] is the
    renaming of an existing file to the side-car path; the file counts as
    existing unless [Lstat] says it does not exist. *)

Section Guard.
Context {W : Type} `{Host W}.

Definition set_aside (cmd : Command) (st : FileMode + error) (r : option error)
    : list event :=
  if negb (os_IsNotExist (err_of st))
  then [CallRename (chrootedconf cmd) (savedconf cmd) r]
  else [].

Inductive save_run (cmd : Command) : option string * option error -> list event -> Prop :=
| save_noop :
    ChrootMethod cmd = CHROOT_METHOD_NONE ->
    save_run cmd (None, None) []
| save_done (st : FileMode + error) (data : string) :
    ChrootMethod cmd <> CHROOT_METHOD_NONE ->
    save_run cmd (Some (sha256_Sum256 (generated_marker +:+ data)), None)
      (CallLstat (chrootedconf cmd) st :: set_aside cmd st None ++
       [CallReadFile hostconf (inl data);
        CallWriteFile (chrootedconf cmd) (generated_marker +:+ data) 420 None])
| save_rename_failed (st : FileMode + error) (e : error) :
    ChrootMethod cmd <> CHROOT_METHOD_NONE ->
    os_IsNotExist (err_of st) = false ->
    save_run cmd (None, Some e)
      [CallLstat (chrootedconf cmd) st;
       CallRename (chrootedconf cmd) (savedconf cmd) (Some e)]
| save_read_failed (st : FileMode + error) (e : error) :
    ChrootMethod cmd <> CHROOT_METHOD_NONE ->
    save_run cmd (None, Some e)
      (CallLstat (chrootedconf cmd) st :: set_aside cmd st None ++
       [CallReadFile hostconf (inr e)])
| save_write_failed (st : FileMode + error) (data : string) (e : error) :
    ChrootMethod cmd <> CHROOT_METHOD_NONE ->
    save_run cmd (None, Some e)
      (CallLstat (chrootedconf cmd) st :: set_aside cmd st None ++
       [CallReadFile hostconf (inl data);
        CallWriteFile (chrootedconf cmd) (generated_marker +:+ data) 420 (Some e)]).

(** The restore step is armed when the mode is not none and a checksum
    was remembered.  Once armed, the removal of the side-car is the last
    call on every path. *)
Inductive restore_run (cmd : Command) (sum : option string)
    : outcome (option error) -> list event -> Prop :=
| restore_noop :
    ChrootMethod cmd = CHROOT_METHOD_NONE \/ sum = None ->
    restore_run cmd sum (Done None) []
| restore_missing (e : error) (r : option error) :
    ChrootMethod cmd <> CHROOT_METHOD_NONE -> is_Some sum ->
    notExist e = true ->
    restore_run cmd sum (Done None)
      [CallLstat (chrootedconf cmd) (inr e); CallRemove (savedconf cmd) r]
| restore_lstat_failed (e : error) (r : option error) :
    ChrootMethod cmd <> CHROOT_METHOD_NONE -> is_Some sum ->
    notExist e = false ->
    restore_run cmd sum (Panic nil_dereference)
      [CallLstat (chrootedconf cmd) (inr e); CallRemove (savedconf cmd) r]
| restore_unreadable (mode : FileMode) (e : error) (r : option error) :
    ChrootMethod cmd <> CHROOT_METHOD_NONE -> is_Some sum ->
    IsRegular mode = true ->
    restore_run cmd sum (Done (Some e))
      [CallLstat (chrootedconf cmd) (inl mode);
       CallReadFile (chrootedconf cmd) (inr e);
       CallRemove (savedconf cmd) r]
| restore_rewritten (mode : FileMode) (data : string) (r : option error) :
    ChrootMethod cmd <> CHROOT_METHOD_NONE ->
    IsRegular mode = true ->
    sum <> Some (sha256_Sum256 data) -> is_Some sum ->
    restore_run cmd sum (Done None)
      [CallLstat (chrootedconf cmd) (inl mode);
       CallReadFile (chrootedconf cmd) (inl data);
       CallRemove (savedconf cmd) r]
| restore_delete_failed (mode : FileMode) (data : string) (e : error) (r : option error) :
    ChrootMethod cmd <> CHROOT_METHOD_NONE ->
    IsRegular mode = true ->
    sum = Some (sha256_Sum256 data) ->
    restore_run cmd sum (Done (Some e))
      [CallLstat (chrootedconf cmd) (inl mode);
       CallReadFile (chrootedconf cmd) (inl data);
       CallRemove (chrootedconf cmd) (Some e);
       CallRemove (savedconf cmd) r]
| restore_untouched_no_sidecar (mode : FileMode) (data : string) (e : error)
    (r : option error) :
    ChrootMethod cmd <> CHROOT_METHOD_NONE ->
    IsRegular mode = true ->
    sum = Some (sha256_Sum256 data) ->
    notExist e = true ->
    restore_run cmd sum (Done None)
      [CallLstat (chrootedconf cmd) (inl mode);
       CallReadFile (chrootedconf cmd) (inl data);
       CallRemove (chrootedconf cmd) None;
       CallLstat (savedconf cmd) (inr e);
       CallRemove (savedconf cmd) r]
| restore_untouched (mode : FileMode) (data : string) (st : FileMode + error)
    (back r : option error) :
    ChrootMethod cmd <> CHROOT_METHOD_NONE ->
    IsRegular mode = true ->
    sum = Some (sha256_Sum256 data) ->
    os_IsNotExist (err_of st) = false ->
    restore_run cmd sum (Done back)
      [CallLstat (chrootedconf cmd) (inl mode);
       CallReadFile (chrootedconf cmd) (inl data);
       CallRemove (chrootedconf cmd) None;
       CallLstat (savedconf cmd) st;
       CallRename (savedconf cmd) (chrootedconf cmd) back;
       CallRemove (savedconf cmd) r]
| restore_symlink (mode : FileMode) (r : option error) :
    ChrootMethod cmd <> CHROOT_METHOD_NONE -> is_Some sum ->
    IsRegular mode = false ->
    Z.land mode ModeSymlink <> 0 ->
    restore_run cmd sum (Done None)
      [CallLstat (chrootedconf cmd) (inl mode); CallRemove (savedconf cmd) r]
| restore_irregular (mode : FileMode) (r : option error) :
    ChrootMethod cmd <> CHROOT_METHOD_NONE -> is_Some sum ->
    IsRegular mode = false ->
    Z.land mode ModeSymlink = 0 ->
    restore_run cmd sum (Done None)
      [CallLstat (chrootedconf cmd) (inl mode);
       Log (log_line not_regular_warning);
       CallRemove (savedconf cmd) r].

End Guard.

(** ** Reasoning about runs

    [emits P c]: whatever [c] does, the events it adds to the trace all
    satisfy [P], and it frees no buffer. *)
Definition emits {W A : Type} (P : event -> bool) (c : M W A) : Prop :=
  forall m : machine W,
    exists evs, trace (c m).2 = trace m ++ evs /\ Forall (fun e => P e = true) evs /\
                (length (heap m) <= length (heap (c m).2))%nat.
Arguments emits W {A} P c.

Definition is_exec (e : event) : bool :=
  match e with
  | CallExec _ _ _ _ => true
  | _ => false
  end.

Definition is_log (e : event) : bool :=
  match e with
  | Log _ => true
  | _ => false
  end.

Definition not_exec (e : event) : bool := negb (is_exec e).

(** The calls of the teardown: the service gate is re-enabled when it was
    disabled, and the interpreter removed when one was needed. *)
Definition allow_events (cmd : Command) : list event :=
  if bool_decide (ChrootMethod cmd <> CHROOT_METHOD_NONE) then [CallAllow (Chroot cmd)] else [].

Definition cleanup_events (q : qemuHelper) (r : option error) : list event :=
  if bool_decide (qemusrc q <> "") then [CallRemove (qemutarget q) r] else [].

Definition any_event (e : event) : bool := true.

(** The environment given to the process, from the host's own. *)
Definition exe_Env (cmd : Command) (environ : list string) : option (list string) :=
  if bool_decide (0 < length (extraEnv cmd))%nat
     && bool_decide (ChrootMethod cmd <> CHROOT_METHOD_NSPAWN)
  then Some (environ ++ extraEnv cmd)
  else None.

(** ** The phases of a run *)

Section Phases.
Context {W : Type} `{Host W}.

(** The machine when [Run_body] starts: interpreter set up, buffer
    allocated, service gate closed. *)
Definition armed (cmd : Command) (q : qemuHelper) (m0 : machine W) : machine W :=
  let m1 := (Setup q m0).2 in
  let m2 := mkMachine (world m1) (heap m1 ++ [""]) (trace m1) in
  if bool_decide (ChrootMethod cmd <> CHROOT_METHOD_NONE)
  then mkMachine (ServiceHelper_Deny (Chroot cmd) (world m2)) (heap m2)
         (trace m2 ++ [CallDeny (Chroot cmd)])
  else m2.

(** The world after the teardown. *)
Definition torn_down (cmd : Command) (q : qemuHelper) (w : W) : W :=
  let w1 := if bool_decide (ChrootMethod cmd <> CHROOT_METHOD_NONE)
            then ServiceHelper_Allow (Chroot cmd) w else w in
  if bool_decide (qemusrc q <> "") then (os_Remove (qemutarget q) w1).2 else w1.

(** The environment of the process, read when the interpreter is set up. *)
Definition armed_env (cmd : Command) (q : qemuHelper) (m0 : machine W)
    : option (list string) :=
  exe_Env cmd (os_Environ (world (Setup q m0).2)).

End Phases.

(** The last byte of a string. *)
Fixpoint last_char (s : string) : option ascii :=
  match s with
  | EmptyString => None
  | String c EmptyString => Some c
  | String _ rest => last_char rest
  end.

(** A path component that [path.Clean] keeps as it is. *)
Definition plain (name : string) : Prop :=
  name <> "" /\ name <> "." /\ name <> ".." /\ split_slash "" name = [name].

(** ** Scenarios on the in-memory host *)

Module Scenario.

Definition host_resolv : Mem.node := Mem.mkNode 420 ("nameserver 192.0.2.1" +:+ nl).
Definition target_resolv : Mem.node := Mem.mkNode 420 ("nameserver 198.51.100.1" +:+ nl).
Definition overlay : string := generated_marker +:+ Mem.data host_resolv.

Definition exit_status_1 : error := mkError "exit status 1" false.

(** The host has a resolv.conf and no static interpreter; the target has
    its own resolv.conf. *)
Definition files : gmap string Mem.node :=
  <["/etc/resolv.conf" := host_resolv]>
    (<["/build/root/etc/resolv.conf" := target_resolv]> ∅).

(** The same, with the static ARM interpreter installed on the host. *)
Definition files_with_qemu : gmap string Mem.node :=
  <["/usr/bin/qemu-arm-static" := Mem.mkNode 493 "ELF"]> files.

(** The host has no resolv.conf: the save step cannot read it. *)
Definition files_without_host_resolv : gmap string Mem.node :=
  <["/build/root/etc/resolv.conf" := target_resolv]> ∅.

(** After a command that deleted the overlay: only the side-car is left. *)
Definition files_resolv_deleted : gmap string Mem.node :=
  <["/etc/resolv.conf" := host_resolv]>
    (<["/build/root/etc/resolv.conf.debos" := target_resolv]> ∅).

Definition output : list string := ["a" +:+ nl +:+ "b"].

Definition world_of (fs : gmap string Mem.node) (status : option error) : Mem.fsworld :=
  Mem.mkWorld fs ["PATH=/bin"] (Mem.exits output status).

Definition armhf_container : Command :=
  mkCommand "armhf" "" "/build/root" CHROOT_METHOD_NSPAWN ["/pkg/app.deb"] [].

Definition classic (env : list string) : Command :=
  mkCommand "" "" "/build/root" CHROOT_METHOD_CHROOT ["/pkg/app.deb"] env.

Definition sparc_container : Command :=
  mkCommand "sparc" "" "/build/root" CHROOT_METHOD_NSPAWN [] [].

(** A run on an amd64 host, from a machine that has done nothing yet. *)
Definition run (cmd : Command) (cmdline : list string) (w : Mem.fsworld)
    : outcome (option error) * machine Mem.fsworld :=
  @Run _ (Mem.host "amd64") cmd "build" cmdline (Mem.boot w).

Definition restore (cmd : Command) (sum : option string) (w : Mem.fsworld)
    : outcome (option error) * machine Mem.fsworld :=
  @restoreResolvConf _ (Mem.host "amd64") cmd sum (Mem.boot w).

End Scenario.

(** ** The machine after the process *)

Section Steps.
Context {W : Type} `{Host W}.

(** The machine when [exe.Run] returns, started on [ms] with an empty
    buffer: the process has changed the world, the complete lines of its
    output are logged and the unterminated rest is left in the buffer. *)
Definition ran (argv : list string) (env : option (list string)) (w : commandWrapper)
    (ms : machine W) : machine W :=
  let ex := exec_Run argv env (world ms) in
  mkMachine ex.2
    (<[buffer w := (segments "" (merged ex.1.1)).2]> (heap ms))
    (trace ms
       ++ CallExec argv env ex.1.1 ex.1.2
       :: map Log (map (labeled (label w)) (segments "" (merged ex.1.1)).1)).

End Steps.

(** What the restore step takes for the overlay it wrote: a regular file
    whose content is the remembered one. *)
Definition is_overlay (sum : string) (found : option Mem.node) : bool :=
  match found with
  | Some n => IsRegular (Mem.mode n) && bool_decide (Mem.data n = sum)
  | None => false
  end.

(** ** Building a command

    A call of one of the three builder methods of [Command], and a
    command after a sequence of such calls. *)
Inductive builder_call :=
| DoAddEnv (env : string)
| DoAddEnvKey (key value : string)
| DoAddBindMount (source target : string).

Definition apply_call (cmd : Command) (b : builder_call) : Command :=
  match b with
  | DoAddEnv env => AddEnv cmd env
  | DoAddEnvKey key value => AddEnvKey cmd key value
  | DoAddBindMount source target => AddBindMount cmd source target
  end.

Definition build (cmd : Command) (calls : list builder_call) : Command :=
  fold_left apply_call calls cmd.

(** The assignment a call asks for, if it is one. *)
Definition assignment_of (b : builder_call) : list string :=
  match b with
  | DoAddEnv env => [env]
  | DoAddEnvKey key value => [key +:+ "=" +:+ value]
  | DoAddBindMount _ _ => []
  end.

(** The mount a call asks for, if it is one: [source], or [source:target]
    when a target is named. *)
Definition mount_of (b : builder_call) : list string :=
  match b with
  | DoAddBindMount source "" => [source]
  | DoAddBindMount source target => [source +:+ ":" +:+ target]
  | _ => []
  end.

(** * The layer above the runner: contexts and the install-dpkg action *)

(** ** More of the Go standard library *)

(** [strings.HasPrefix] and [strings.TrimPrefix]: plain byte prefixes. *)
Fixpoint strings_HasPrefix (s prefix : string) : bool :=
  match prefix with
  | EmptyString => true
  | String p prefix' =>
      match s with
      | EmptyString => false
      | String c s' => Ascii.eqb c p && strings_HasPrefix s' prefix'
      end
  end.

(** [s[n:]]. *)
Fixpoint string_drop (n : nat) (s : string) : string :=
  match n, s with
  | O, _ => s
  | S n', String _ s' => string_drop n' s'
  | S _, EmptyString => EmptyString
  end.

Definition strings_TrimPrefix (s prefix : string) : string :=
  if strings_HasPrefix s prefix then string_drop (String.length prefix) s else s.

(** [FileMode.IsDir]. *)
Definition IsDir (m : FileMode) : bool := negb (Z.land m ModeDir =? 0).

(** [fmt.Errorf] with the message formatted: a fresh error, not an
    [os.ErrNotExist]. *)
Definition fmt_Errorf (msg : string) : error := mkError msg false.

(** ** [DebosContext], as far as the code here reads it *)

Record Partition := mkPartition {
  DevicePath : string
}.

Module DebosContext.

(** [EnvironVars] is a Go map, [None] when nil. *)
Record t := mk {
  Architecture : string;
  Rootdir : string;
  RecipeDir : string;
  Origins : gmap string string;
  EnvironVars : option (gmap string string);
  Image : string;
  ImagePartitions : list Partition
}.

End DebosContext.

(** ** The apt wrapper

    [wrapper.AptCommand] lives in another package.  Here a handle is what
    this code makes of it: the context and label it was created with and
    the [AddBindMount] calls made on it, in order.  Its [Update],
    [Install] and [Clean] are calls into the host. *)
Record AptCommand := mkAptCommand {
  apt_context : DebosContext.t;
  apt_label : string;
  apt_binds : list (string * string)
}.

Definition Apt_AddBindMount (c : AptCommand) (source target : string) : AptCommand :=
  mkAptCommand (apt_context c) (apt_label c) (apt_binds c ++ [(source, target)]).

Class ActionHost (W : Type) := {
  RealPath : string -> W -> (string + error) * W;
  os_Stat : string -> W -> (FileMode + error) * W;
  filepath_Glob : string -> W -> (list string + error) * W;
  apt_Update : AptCommand -> W -> option error * W;
  apt_Install : AptCommand -> list string -> bool -> bool -> W -> option error * W;
  apt_Clean : AptCommand -> W -> option error * W
}.

(** What this layer does to the outside, each call with its answer. *)
Inductive action_event :=
| CallNewAptCommand (context : DebosContext.t) (label : string)
| CallRealPath (path : string) (r : string + error)
| CallStat (name : string) (r : FileMode + error)
| CallGlob (pattern : string) (r : list string + error)
| CallUpdate (c : AptCommand) (r : option error)
| CallInstall (c : AptCommand) (packages : list string) (recommends unauthenticated : bool)
    (r : option error)
| CallClean (c : AptCommand) (r : option error)
| LogPrintf (line : string).

Declare Scope act_scope.

(** ** Computations of this layer: a world, a returned value or a returned
    error, and the events of the computation itself *)

Section Act.
Context {W : Type} `{ActionHost W}.

Definition Act (A : Type) : Type := W -> (A + error) * W * list action_event.

Definition aret {A : Type} (a : A) : Act A := fun w => (inl a, w, []).

(** [return err]. *)
Definition afail {A : Type} (e : error) : Act A := fun w => (inr e, w, []).

Definition abind {A B : Type} (c : Act A) (k : A -> Act B) : Act B :=
  fun w =>
    match c w with
    | (inl a, w1, t1) => let '(r, w2, t2) := k a w1 in (r, w2, t1 ++ t2)
    | (inr e, w1, t1) => (inr e, w1, t1)
    end.

Definition acall {A : Type} (e : A -> action_event) (f : W -> A * W) : Act A :=
  fun w => let '(a, w1) := f w in (inl a, w1, [e a]).

Definition alog (msg : string) : Act unit :=
  fun w => (inl tt, w, [LogPrintf (log_line msg)]).

(** [if err != nil { return err }]. *)
Definition check (r : option error) : Act unit :=
  match r with
  | Some e => afail e
  | None => aret tt
  end.

End Act.

Arguments Act W A : clear implicits.

(** ** [NewChrootCommandForContext]

    Go ranges over a map in an order of its own choosing: [order] is the
    sequence in which [range] yields the entries of [EnvironVars]. *)

Section ForContext.
Context {W : Type} `{ActionHost W}.

Notation "'let*' x ':=' c 'in' k" := (abind c (fun x => k))
  (at level 10, x pattern, c at level 100, k at level 200) : act_scope.
Notation "c ;; k" := (abind c (fun _ => k))
  (at level 100, right associativity) : act_scope.
Local Open Scope act_scope.

Definition realpath_failure (name : string) (err : error) : string :=
  "Failed to get realpath for " +:+ name +:+ ", " +:+ Error err.

(** The loop over [context.ImagePartitions]. *)
Fixpoint bind_partitions (c : Command) (partitions : list Partition) : Act W Command :=
  match partitions with
  | [] => aret c
  | p :: rest =>
      let* r := acall (CallRealPath (DevicePath p)) (RealPath (DevicePath p)) in
      match r with
      | inr err =>
          alog (realpath_failure (DevicePath p) err);;
          bind_partitions c rest
      | inl path => bind_partitions (AddBindMount c path "") rest
      end
  end.

Definition NewChrootCommandForContext (order : list (string * string))
    (context : DebosContext.t) : Act W Command :=
  let c := mkCommand (DebosContext.Architecture context) "" (DebosContext.Rootdir context)
             CHROOT_METHOD_NSPAWN [] [] in
  let c :=
    match DebosContext.EnvironVars context with
    | Some _ => fold_left (fun c kv => AddEnv c (kv.1 +:+ "=" +:+ kv.2)) order c
    | None => c
    end in
  if bool_decide (DebosContext.Image context <> "") then
    let* r := acall (CallRealPath (DebosContext.Image context))
                (RealPath (DebosContext.Image context)) in
    let* c := match r with
              | inl path => aret (AddBindMount c path "")
              | inr err =>
                  alog (realpath_failure (DebosContext.Image context) err);;
                  aret c
              end in
    let* c := bind_partitions c (DebosContext.ImagePartitions context) in
    aret (AddBindMount c "/dev/disk" "")
  else aret c.

End ForContext.

(** ** Package [actions]: the install-dpkg action *)

Module Actions.

Record InstallDpkgAction := mkInstallDpkgAction {
  Recommends : bool;
  Unauthenticated : bool;
  Update : bool;
  Origin : string;
  Packages : list string
}.

Definition NewInstallDpkgAction : InstallDpkgAction :=
  mkInstallDpkgAction false false true "" [].

Section Run.
Context {W : Type} `{ActionHost W}.

Notation "'let*' x ':=' c 'in' k" := (abind c (fun x => k))
  (at level 10, x pattern, c at level 100, k at level 200) : act_scope.
Notation "c ;; k" := (abind c (fun _ => k))
  (at level 100, right associativity) : act_scope.
Local Open Scope act_scope.

Definition NewAptCommand (context : DebosContext.t) (label : string) : Act W AptCommand :=
  fun w => (inl (mkAptCommand context label []), w, [CallNewAptCommand context label]).

(** The named origin, or the recipe directory when none is named. *)
Definition Run_origin (apt : InstallDpkgAction) (context : DebosContext.t) : Act W string :=
  if bool_decide (0 < String.length (Origin apt))%nat then
    match DebosContext.Origins context !! Origin apt with
    | Some origin => aret origin
    | None => afail (fmt_Errorf ("origin " +:+ Origin apt +:+ " not found"))
    end
  else aret (DebosContext.RecipeDir context).

(** The loop over [apt.Packages]: each pattern joined to the origin and
    globbed, the matches appended to [packages]. *)
Fixpoint glob_packages (origin : string) (patterns : list string) (packages : list string)
    : Act W (list string) :=
  match patterns with
  | [] => aret packages
  | pkg :: rest =>
      let source := path_Join origin pkg in
      let* r := acall (CallGlob source) (filepath_Glob source) in
      match r with
      | inr err => afail err
      | inl matches =>
          if bool_decide (length matches = 0%nat)
          then afail (fmt_Errorf ("file(s) not found after globbing: " +:+ pkg))
          else glob_packages origin rest (packages ++ matches)
      end
  end.

(** The list of packages: the origin itself when it is a file, the
    matches of the patterns when it is a directory. *)
Definition Run_packages (apt : InstallDpkgAction) (origin : string) : Act W (list string) :=
  let* st := acall (CallStat origin) (os_Stat origin) in
  match st with
  | inr err => afail err
  | inl file =>
      if IsDir file then
        if bool_decide (length (Packages apt) = 0%nat)
        then afail (fmt_Errorf "no packages defined")
        else glob_packages origin (Packages apt) []
      else aret [origin]
  end.

(** [for j := idx + 1; j < len(packages); j++ { if packages[j] == pkg .. }] *)
Definition duplicate_after (packages : list string) (idx : nat) (pkg : string) : bool :=
  existsb (fun j => bool_decide (packages !! j = Some pkg))
    (seq (S idx) (length packages - S idx)).

(** The loop over the indices of [packages], which it updates in place.
    [range] only yields indices of the slice, so the lookup always finds
    its element. *)
Fixpoint mount_packages (context : DebosContext.t) (indices : list nat)
    (packages : list string) (aptCommand : AptCommand) : Act W (list string * AptCommand) :=
  match indices with
  | [] => aret (packages, aptCommand)
  | idx :: rest =>
      match packages !! idx with
      | None => mount_packages context rest packages aptCommand
      | Some pkg =>
          if duplicate_after packages idx pkg
          then afail (fmt_Errorf ("duplicate package found: " +:+ pkg))
          else
            alog ("Installing " +:+ pkg);;
            let '(pkg, aptCommand) :=
              if strings_HasPrefix pkg (DebosContext.Rootdir context)
              then (strings_TrimPrefix pkg (DebosContext.Rootdir context), aptCommand)
              else (pkg, Apt_AddBindMount aptCommand pkg "") in
            mount_packages context rest (<[idx := pkg]> packages) aptCommand
      end
  end.

(** The three apt steps. *)
Definition Run_apt (apt : InstallDpkgAction) (aptCommand : AptCommand)
    (packages : list string) : Act W unit :=
  (if Update apt
   then let* err := acall (CallUpdate aptCommand) (apt_Update aptCommand) in check err
   else aret tt);;
  let* err := acall (CallInstall aptCommand packages (Recommends apt) (Unauthenticated apt))
                (apt_Install aptCommand packages (Recommends apt) (Unauthenticated apt)) in
  check err;;
  let* err := acall (CallClean aptCommand) (apt_Clean aptCommand) in
  check err.

(** [InstallDpkgAction.Run]: [inl tt] is the nil error. *)
Definition Run (apt : InstallDpkgAction) (context : DebosContext.t) : Act W unit :=
  let* aptCommand := NewAptCommand context "install-dpkg" in
  let* origin := Run_origin apt context in
  let* packages := Run_packages apt origin in
  let* (packages, aptCommand) :=
    mount_packages context (seq 0 (length packages)) packages aptCommand in
  Run_apt apt aptCommand packages.

End Run.

End Actions.

(** ** What the install-dpkg action computes, on lists *)

(** The path handed to apt: the root directory cut off the front. *)
Definition relative (rootdir pkg : string) : string := strings_TrimPrefix pkg rootdir.

(** The packages that are not under the root directory. *)
Definition outside (rootdir : string) (packages : list string) : list string :=
  filter (fun pkg => strings_HasPrefix pkg rootdir = false) packages.

Definition installing (pkg : string) : action_event :=
  LogPrintf (log_line ("Installing " +:+ pkg)).

Definition duplicate_error (pkg : string) : error :=
  fmt_Errorf ("duplicate package found: " +:+ pkg).

(** The handle after the mounts of [packages] were added to [c]. *)
Definition mounted (c : AptCommand) (packages : list string) : AptCommand :=
  mkAptCommand (apt_context c) (apt_label c)
    (apt_binds c ++ map (fun pkg => (pkg, "")) packages).

(** The apt calls among the events. *)
Definition is_apt_call (e : action_event) : bool :=
  match e with
  | CallUpdate _ _ | CallInstall _ _ _ _ _ | CallClean _ _ => true
  | _ => false
  end.

(** The apt steps of a run, each awaiting its answer. *)
Definition apt_steps (apt : Actions.InstallDpkgAction) (c : AptCommand)
    (packages : list string) : list (option error -> action_event) :=
  (if Actions.Update apt then [CallUpdate c] else [])
  ++ [CallInstall c packages (Actions.Recommends apt) (Actions.Unauthenticated apt);
      CallClean c].

(** The origin of a run: the recipe directory unless the action names
    one, which must then be a known origin. *)
Definition origin_of (apt : Actions.InstallDpkgAction) (context : DebosContext.t)
    : option string :=
  if bool_decide (Actions.Origin apt = "") then Some (DebosContext.RecipeDir context)
  else DebosContext.Origins context !! Actions.Origin apt.

(** ** Reading the events of [NewChrootCommandForContext] *)

(** The paths [RealPath] was asked for, in order. *)
Definition asked (t : list action_event) : list string :=
  omap (fun e => match e with CallRealPath name _ => Some name | _ => None end) t.

(** The paths [RealPath] answered with, in order. *)
Definition resolved (t : list action_event) : list string :=
  omap (fun e => match e with CallRealPath _ (inl path) => Some path | _ => None end) t.

(** The lines logged, in order. *)
Definition printed (t : list action_event) : list string :=
  omap (fun e => match e with LogPrintf line => Some line | _ => None end) t.

(** The lines owed for the failures of [RealPath], in order. *)
Definition failures (t : list action_event) : list string :=
  omap (fun e => match e with
                 | CallRealPath name (inr err) => Some (log_line (realpath_failure name err))
                 | _ => None
                 end) t.

(** The assignment made of an entry of [EnvironVars]. *)
Definition assignment (kv : string * string) : string := kv.1 +:+ "=" +:+ kv.2.

(** ** More scenarios *)

Module Cases.

(** A process that puts its own resolv.conf into the target. *)
Definition own_resolv : Mem.node := Mem.mkNode 420 ("nameserver 203.0.113.7" +:+ nl).

Definition rewrites_resolv_conf : Mem.process :=
  fun _ _ fs => (([], None), <["/build/root/etc/resolv.conf" := own_resolv]> fs).

Definition world_rewriting : Mem.fsworld :=
  Mem.mkWorld Scenario.files ["PATH=/bin"] rewrites_resolv_conf.

(** A command without a chroot, and one whose chroot is the host's root. *)
Definition bare : Command := mkCommand "" "" "" CHROOT_METHOD_NONE [] [].

Definition host_root : Command := mkCommand "" "" "/" CHROOT_METHOD_CHROOT [] [].

(** A host for the layer above: what is on the disk, what the patterns
    match, what the paths resolve to.  Its apt never fails. *)
Record shelf := mkShelf {
  modes : gmap string FileMode;
  matches : gmap string (list string);
  links : gmap string string
}.

Definition shelf_host : ActionHost shelf := {|
  RealPath := fun name w =>
    match links w !! name with
    | Some path => (inl path, w)
    | None => (inr (Mem.ENOENT name), w)
    end;
  os_Stat := fun name w =>
    match modes w !! name with
    | Some m => (inl m, w)
    | None => (inr (Mem.ENOENT name), w)
    end;
  filepath_Glob := fun pattern w => (inl (default [] (matches w !! pattern)), w);
  apt_Update := fun _ w => (None, w);
  apt_Install := fun _ _ _ _ w => (None, w);
  apt_Clean := fun _ w => (None, w)
|}.

Definition a_deb : string := "/recipe/pkgs/a.deb".
Definition b_deb : string := "/recipe/pkgs/b.deb".

(** A recipe directory with two packages. *)
Definition recipe : shelf :=
  mkShelf (<["/recipe" := Z.lor ModeDir 493]> ∅)
    (<["/recipe/pkgs/*.deb" := [a_deb; b_deb]]> (<["/recipe/pkgs/a.deb" := [a_deb]]> ∅))
    ∅.

Definition context (rootdir : string) : DebosContext.t :=
  DebosContext.mk "" rootdir "/recipe" ∅ (Some (<["LANG" := "C"]> ∅)) "" [].

Definition action (patterns : list string) : Actions.InstallDpkgAction :=
  Actions.mkInstallDpkgAction false false true "" patterns.

Definition collect (patterns : list string)
    : (list string + error) * shelf * list action_event :=
  @Actions.Run_packages _ shelf_host (action patterns) "/recipe" recipe.

Definition install (rootdir : string) (patterns : list string)
    : (unit + error) * shelf * list action_event :=
  @Actions.Run _ shelf_host (action patterns) (context rootdir) recipe.

End Cases.

(** ** The resolv.conf guard, on the world

    The runs of the two steps with the host's part in them: every answer
    in the trace is the answer the host gave in the world of that moment,
    and the world left behind is the one the host's calls produced, one
    after the other. *)

Section GuardOnWorld.
Context {W : Type} `{Host W}.

(** Setting the target's file aside takes [w] to [w']: the host's rename
    when the file counts as existing, nothing otherwise. *)
Definition sets_aside (cmd : Command) (st : FileMode + error) (r : option error)
    (w w' : W) : Prop :=
  if negb (os_IsNotExist (err_of st))
  then os_Rename (chrootedconf cmd) (savedconf cmd) w = (r, w')
  else r = None /\ w' = w.

Inductive save_on (cmd : Command) (w : W)
    : option string * option error -> list event -> W -> Prop :=
| save_on_noop :
    ChrootMethod cmd = CHROOT_METHOD_NONE ->
    save_on cmd w (None, None) [] w
| save_on_done (st : FileMode + error) (data : string) (w1 w2 w3 w4 : W) :
    ChrootMethod cmd <> CHROOT_METHOD_NONE ->
    os_Lstat (chrootedconf cmd) w = (st, w1) ->
    sets_aside cmd st None w1 w2 ->
    ioutil_ReadFile hostconf w2 = (inl data, w3) ->
    ioutil_WriteFile (chrootedconf cmd) (generated_marker +:+ data) 420 w3 = (None, w4) ->
    save_on cmd w (Some (sha256_Sum256 (generated_marker +:+ data)), None)
      (CallLstat (chrootedconf cmd) st :: set_aside cmd st None ++
       [CallReadFile hostconf (inl data);
        CallWriteFile (chrootedconf cmd) (generated_marker +:+ data) 420 None])
      w4
| save_on_rename_failed (st : FileMode + error) (e : error) (w1 w2 : W) :
    ChrootMethod cmd <> CHROOT_METHOD_NONE ->
    os_Lstat (chrootedconf cmd) w = (st, w1) ->
    os_IsNotExist (err_of st) = false ->
    os_Rename (chrootedconf cmd) (savedconf cmd) w1 = (Some e, w2) ->
    save_on cmd w (None, Some e)
      [CallLstat (chrootedconf cmd) st;
       CallRename (chrootedconf cmd) (savedconf cmd) (Some e)]
      w2
| save_on_read_failed (st : FileMode + error) (e : error) (w1 w2 w3 : W) :
    ChrootMethod cmd <> CHROOT_METHOD_NONE ->
    os_Lstat (chrootedconf cmd) w = (st, w1) ->
    sets_aside cmd st None w1 w2 ->
    ioutil_ReadFile hostconf w2 = (inr e, w3) ->
    save_on cmd w (None, Some e)
      (CallLstat (chrootedconf cmd) st :: set_aside cmd st None ++
       [CallReadFile hostconf (inr e)])
      w3
| save_on_write_failed (st : FileMode + error) (data : string) (e : error)
    (w1 w2 w3 w4 : W) :
    ChrootMethod cmd <> CHROOT_METHOD_NONE ->
    os_Lstat (chrootedconf cmd) w = (st, w1) ->
    sets_aside cmd st None w1 w2 ->
    ioutil_ReadFile hostconf w2 = (inl data, w3) ->
    ioutil_WriteFile (chrootedconf cmd) (generated_marker +:+ data) 420 w3 = (Some e, w4) ->
    save_on cmd w (None, Some e)
      (CallLstat (chrootedconf cmd) st :: set_aside cmd st None ++
       [CallReadFile hostconf (inl data);
        CallWriteFile (chrootedconf cmd) (generated_marker +:+ data) 420 (Some e)])
      w4.

(** What the restore step does about the file in the chroot, before the
    side-car is removed. *)
Inductive restore_file_on (cmd : Command) (sum : string) (w : W)
    : outcome (option error) -> list event -> W -> Prop :=
| file_missing (e : error) (w1 : W) :
    os_Lstat (chrootedconf cmd) w = (inr e, w1) ->
    notExist e = true ->
    restore_file_on cmd sum w (Done None) [CallLstat (chrootedconf cmd) (inr e)] w1
| file_lstat_failed (e : error) (w1 : W) :
    os_Lstat (chrootedconf cmd) w = (inr e, w1) ->
    notExist e = false ->
    restore_file_on cmd sum w (Panic nil_dereference)
      [CallLstat (chrootedconf cmd) (inr e)] w1
| file_unreadable (mode : FileMode) (e : error) (w1 w2 : W) :
    os_Lstat (chrootedconf cmd) w = (inl mode, w1) ->
    IsRegular mode = true ->
    ioutil_ReadFile (chrootedconf cmd) w1 = (inr e, w2) ->
    restore_file_on cmd sum w (Done (Some e))
      [CallLstat (chrootedconf cmd) (inl mode);
       CallReadFile (chrootedconf cmd) (inr e)] w2
| file_rewritten (mode : FileMode) (data : string) (w1 w2 : W) :
    os_Lstat (chrootedconf cmd) w = (inl mode, w1) ->
    IsRegular mode = true ->
    ioutil_ReadFile (chrootedconf cmd) w1 = (inl data, w2) ->
    sha256_Sum256 data <> sum ->
    restore_file_on cmd sum w (Done None)
      [CallLstat (chrootedconf cmd) (inl mode);
       CallReadFile (chrootedconf cmd) (inl data)] w2
| file_delete_failed (mode : FileMode) (data : string) (e : error) (w1 w2 w3 : W) :
    os_Lstat (chrootedconf cmd) w = (inl mode, w1) ->
    IsRegular mode = true ->
    ioutil_ReadFile (chrootedconf cmd) w1 = (inl data, w2) ->
    sha256_Sum256 data = sum ->
    os_Remove (chrootedconf cmd) w2 = (Some e, w3) ->
    restore_file_on cmd sum w (Done (Some e))
      [CallLstat (chrootedconf cmd) (inl mode);
       CallReadFile (chrootedconf cmd) (inl data);
       CallRemove (chrootedconf cmd) (Some e)] w3
| file_deleted_no_sidecar (mode : FileMode) (data : string) (e : error)
    (w1 w2 w3 w4 : W) :
    os_Lstat (chrootedconf cmd) w = (inl mode, w1) ->
    IsRegular mode = true ->
    ioutil_ReadFile (chrootedconf cmd) w1 = (inl data, w2) ->
    sha256_Sum256 data = sum ->
    os_Remove (chrootedconf cmd) w2 = (None, w3) ->
    os_Lstat (savedconf cmd) w3 = (inr e, w4) ->
    notExist e = true ->
    restore_file_on cmd sum w (Done None)
      [CallLstat (chrootedconf cmd) (inl mode);
       CallReadFile (chrootedconf cmd) (inl data);
       CallRemove (chrootedconf cmd) None;
       CallLstat (savedconf cmd) (inr e)] w4
| file_restored (mode : FileMode) (data : string) (st : FileMode + error)
    (back : option error) (w1 w2 w3 w4 w5 : W) :
    os_Lstat (chrootedconf cmd) w = (inl mode, w1) ->
    IsRegular mode = true ->
    ioutil_ReadFile (chrootedconf cmd) w1 = (inl data, w2) ->
    sha256_Sum256 data = sum ->
    os_Remove (chrootedconf cmd) w2 = (None, w3) ->
    os_Lstat (savedconf cmd) w3 = (st, w4) ->
    os_IsNotExist (err_of st) = false ->
    os_Rename (savedconf cmd) (chrootedconf cmd) w4 = (back, w5) ->
    restore_file_on cmd sum w (Done back)
      [CallLstat (chrootedconf cmd) (inl mode);
       CallReadFile (chrootedconf cmd) (inl data);
       CallRemove (chrootedconf cmd) None;
       CallLstat (savedconf cmd) st;
       CallRename (savedconf cmd) (chrootedconf cmd) back] w5
| file_symlink (mode : FileMode) (w1 : W) :
    os_Lstat (chrootedconf cmd) w = (inl mode, w1) ->
    IsRegular mode = false ->
    Z.land mode ModeSymlink <> 0 ->
    restore_file_on cmd sum w (Done None) [CallLstat (chrootedconf cmd) (inl mode)] w1
| file_irregular (mode : FileMode) (w1 : W) :
    os_Lstat (chrootedconf cmd) w = (inl mode, w1) ->
    IsRegular mode = false ->
    Z.land mode ModeSymlink = 0 ->
    restore_file_on cmd sum w (Done None)
      [CallLstat (chrootedconf cmd) (inl mode); Log (log_line not_regular_warning)] w1.

(** The restore step: nothing when it is not armed; otherwise what is
    done about the file, and then the host's removal of the side-car. *)
Inductive restore_on (cmd : Command) (sum : option string) (w : W)
    : outcome (option error) -> list event -> W -> Prop :=
| restore_on_noop :
    ChrootMethod cmd = CHROOT_METHOD_NONE \/ sum = None ->
    restore_on cmd sum w (Done None) [] w
| restore_on_armed (sum0 : string) (r : outcome (option error)) (evs : list event)
    (removed : option error) (w1 w2 : W) :
    ChrootMethod cmd <> CHROOT_METHOD_NONE ->
    sum = Some sum0 ->
    restore_file_on cmd sum0 w r evs w1 ->
    os_Remove (savedconf cmd) w1 = (removed, w2) ->
    restore_on cmd sum w r (evs ++ [CallRemove (savedconf cmd) removed]) w2.

End GuardOnWorld.

(** * Proofs *)

(** ** Strings *)

Lemma string_app_cons (x : ascii) (a b : string) : String x a +:+ b = String x (a +:+ b).
Proof. reflexivity. Qed.

Lemma string_app_nil_l (a : string) : "" +:+ a = a.
Proof. reflexivity. Qed.

Lemma string_app_assoc (a b c : string) : (a +:+ b) +:+ c = a +:+ (b +:+ c).
Proof.
  induction a as [|x a IH]; [reflexivity|].
  rewrite !string_app_cons. now rewrite IH.
Qed.

Lemma string_app_nil_r (a : string) : a +:+ "" = a.
Proof.
  induction a as [|x a IH]; [reflexivity|].
  rewrite string_app_cons. now rewrite IH.
Qed.

Lemma string_length_app (a b : string) :
  String.length (a +:+ b) = (String.length a + String.length b)%nat.
Proof.
  induction a as [|x a IH]; [reflexivity|].
  rewrite string_app_cons. simpl. now rewrite IH.
Qed.

Lemma ends_in_newline_nl (x : string) : ends_in_newline (x +:+ nl) = true.
Proof.
  induction x as [|c x IH]; [reflexivity|].
  change (String c x +:+ nl) with (String c (x +:+ nl)).
  destruct (x +:+ nl) eqn:E; [destruct x; discriminate | exact IH].
Qed.

Lemma log_line_nl (x : string) : log_line (x +:+ nl) = x +:+ nl.
Proof. unfold log_line. now rewrite ends_in_newline_nl. Qed.

Lemma log_line_labeled (label seg : string) :
  log_line (label +:+ " | " +:+ seg +:+ nl) = labeled label seg.
Proof.
  unfold labeled. rewrite <- !string_app_assoc. apply log_line_nl.
Qed.

(** ** Reading lines off the buffer *)

Lemma ReadString_line (buf s rest : string) :
  ReadString LF buf = (s, rest, None) ->
  exists line, s = line +:+ nl /\
    (String.length rest < String.length buf)%nat /\
    forall cur, segments cur buf =
                let '(complete, partial) := segments "" rest in
                ((cur +:+ line) :: complete, partial).
Proof.
  revert s rest. induction buf as [|c buf IH]; simpl; intros s rest E; [discriminate|].
  destruct (Ascii.eqb c LF) eqn:Ec.
  - inversion E; subst. exists "". apply Ascii.eqb_eq in Ec. subst c.
    repeat split; [simpl; lia|]. intros cur. now rewrite string_app_nil_r.
  - destruct (ReadString LF buf) as [[s1 r1] e1]. inversion E; subst.
    destruct (IH _ _ eq_refl) as (line & -> & Hlen & Hseg).
    exists (String c line). repeat split; [simpl; lia|].
    intros cur. rewrite Hseg. destruct (segments "" rest) as [complete partial].
    now rewrite string_app_assoc.
Qed.

Lemma ReadString_eof (buf s rest : string) (e : error) :
  ReadString LF buf = (s, rest, Some e) ->
  e = io_EOF /\ rest = "" /\ s = buf /\ forall cur, segments cur buf = ([], cur +:+ buf).
Proof.
  revert s rest. induction buf as [|c buf IH]; simpl; intros s rest E.
  - inversion E; subst. repeat split. intros cur. now rewrite string_app_nil_r.
  - destruct (Ascii.eqb c LF) eqn:Ec; [discriminate|].
    destruct (ReadString LF buf) as [[s1 r1] e1]. inversion E; subst.
    destruct (IH _ _ eq_refl) as (-> & -> & -> & Hseg).
    repeat split. intros cur. rewrite Hseg. now rewrite string_app_assoc.
Qed.

Lemma out_loop_eq (label : string) (atEOF : bool) (buf : string) :
  out_loop label atEOF buf =
  match ReadString LF buf with
  | (s, rest, None) =>
      let '(lines, kept) := out_loop label atEOF rest in
      (log_line (label +:+ " | " +:+ s) :: lines, kept)
  | (s, rest, Some err) =>
      if bool_decide (0 < String.length s)%nat then
        if atEOF && bool_decide (err = io_EOF) then
          ([log_line (label +:+ " | " +:+ s +:+ nl)], rest)
        else ([], rest +:+ s)
      else ([], rest)
  end.
Proof.
  funelim (out_loop label atEOF buf).
  - rewrite e. reflexivity.
  - rewrite e. reflexivity.
Qed.

(** The loop logs the complete segments and keeps the partial one; at the
    end of the stream it logs the partial one too and keeps nothing. *)
Lemma out_loop_segments (label : string) (atEOF : bool) (buf : string) :
  out_loop label atEOF buf =
  let '(complete, partial) := segments "" buf in
  if atEOF then
    (map (labeled label)
       (complete ++ (if bool_decide (partial = "") then [] else [partial])), "")
  else (map (labeled label) complete, partial).
Proof.
  remember (String.length buf) as n eqn:Hn. revert buf Hn.
  induction n as [n IH] using lt_wf_ind. intros buf ->.
  rewrite out_loop_eq. destruct (ReadString LF buf) as [[s rest] [e|]] eqn:E.
  - apply ReadString_eof in E as (-> & -> & -> & Hseg).
    rewrite (Hseg ""), string_app_nil_l.
    destruct buf as [|c buf].
    + destruct atEOF; reflexivity.
    + rewrite bool_decide_true by (simpl; lia).
      rewrite (bool_decide_true (io_EOF = io_EOF)) by reflexivity.
      destruct atEOF; simpl; [|reflexivity].
      now rewrite log_line_labeled.
  - apply ReadString_line in E as (line & -> & Hlen & Hseg).
    rewrite (Hseg ""), string_app_nil_l.
    rewrite (IH _ Hlen rest eq_refl).
    destruct (segments "" rest) as [complete partial].
    rewrite log_line_labeled. destruct atEOF; reflexivity.
Qed.

Lemma segments_app (cur a b : string) :
  segments cur (a +:+ b) =
  let '(ca, pa) := segments cur a in
  let '(cb, pb) := segments pa b in
  (ca ++ cb, pb).
Proof.
  revert cur. induction a as [|c a IH]; intros cur.
  - rewrite string_app_nil_l. simpl. now destruct (segments cur b).
  - rewrite string_app_cons. simpl. destruct (Ascii.eqb c LF).
    + rewrite IH. destruct (segments "" a) as [ca pa].
      now destruct (segments pa b).
    + apply IH.
Qed.

Lemma segments_newline_free (cur s : string) :
  newline_free cur -> segments cur s = segments "" (cur +:+ s).
Proof.
  intros Hc. rewrite (segments_app "" cur s), Hc. now destruct (segments cur s).
Qed.

Lemma partial_newline_free (s cur : string) :
  newline_free cur -> newline_free (segments cur s).2.
Proof.
  revert cur. induction s as [|c s IH]; intros cur Hc; simpl; [exact Hc|].
  destruct (Ascii.eqb c LF) eqn:Ec.
  - specialize (IH "" eq_refl). now destruct (segments "" s).
  - apply IH. unfold newline_free. rewrite (segments_app "" cur), Hc. simpl.
    now rewrite Ec.
Qed.

(** ** The machine *)

Section Proofs.
Context {W : Type} `{Host W}.
Local Open Scope go_scope.

Notation "'let*' x ':=' c 'in' k" := (bind c (fun x => k))
  (at level 10, x pattern, c at level 100, k at level 200) : go_scope.
Notation "c ;; k" := (bind c (fun _ => k))
  (at level 100, right associativity) : go_scope.

Lemma machine_eta (m : machine W) : mkMachine (world m) (heap m) (trace m) = m.
Proof. now destruct m. Qed.

Lemma out_spec (w : commandWrapper) (atEOF : bool) (m : machine W) (buf : string) :
  heap m !! buffer w = Some buf ->
  out w atEOF m =
  (Done tt,
   mkMachine (world m)
     (<[buffer w := (out_loop (label w) atEOF buf).2]> (heap m))
     (trace m ++ map Log (out_loop (label w) atEOF buf).1)).
Proof.
  intros Hb. unfold out, bind, load. rewrite Hb.
  destruct (out_loop (label w) atEOF buf) as [lines kept]. reflexivity.
Qed.

Lemma Write_spec (w : commandWrapper) (p : string) (m : machine W) (buf : string) :
  heap m !! buffer w = Some buf ->
  Write w p m =
  (Done (String.length p, None),
   mkMachine (world m)
     (<[buffer w := (out_loop (label w) false (buf +:+ p)).2]> (heap m))
     (trace m ++ map Log (out_loop (label w) false (buf +:+ p)).1)).
Proof.
  intros Hb. unfold Write, bind, load. rewrite Hb. unfold store at 1. simpl.
  erewrite out_spec; simpl.
  2:{ apply list_lookup_insert_eq. now apply lookup_lt_Some in Hb. }
  unfold ret. now rewrite list_insert_insert_eq.
Qed.

Lemma feed_spec (w : commandWrapper) (chunks : list string) (m : machine W) (buf : string) :
  heap m !! buffer w = Some buf ->
  newline_free buf ->
  feed w chunks m =
  (Done tt,
   mkMachine (world m)
     (<[buffer w := (segments "" (buf +:+ merged chunks)).2]> (heap m))
     (trace m ++ map Log (map (labeled (label w)) (segments "" (buf +:+ merged chunks)).1))).
Proof.
  revert m buf. induction chunks as [|p chunks IH]; intros m buf Hb Hfree.
  - simpl. rewrite string_app_nil_r, Hfree. simpl.
    rewrite list_insert_id by exact Hb. rewrite app_nil_r.
    unfold ret. now rewrite machine_eta.
  - simpl. unfold bind at 1. rewrite (Write_spec _ _ _ _ Hb).
    rewrite out_loop_segments.
    pose proof (partial_newline_free (buf +:+ p) "" eq_refl) as Hfree'.
    destruct (segments "" (buf +:+ p)) as [c1 p1] eqn:E1. simpl in Hfree'. simpl.
    erewrite IH; [|simpl; apply list_lookup_insert_eq; now apply lookup_lt_Some in Hb|exact Hfree'].
    simpl. rewrite list_insert_insert_eq.
    rewrite <- string_app_assoc, (segments_app "" (buf +:+ p)), E1.
    rewrite <- (segments_newline_free p1) by exact Hfree'.
    destruct (segments p1 (merged chunks)) as [c2 p2]. simpl.
    now rewrite !map_app, app_assoc.
Qed.

Lemma newCommandWrapper_spec (label : string) (m : machine W) :
  newCommandWrapper label m =
  (Done (mkCommandWrapper label (length (heap m))),
   mkMachine (world m) (heap m ++ [""]) (trace m)).
Proof. reflexivity. Qed.

Lemma fresh_buffer_lookup (h : list string) : (h ++ [""]) !! length h = Some "".
Proof. now rewrite list_lookup_middle. Qed.

(** C9.  The output capture logs one labeled line per newline-terminated
    segment of the merged stream, keeps the newline-less rest in its
    buffer across writes, and logs that rest, with a newline added, only
    when the end of the stream is signalled ([flush]), after which the
    buffer is empty.  For the input ["a\nb"] followed by the signal it logs
    exactly the two lines ["a"] and ["b"], in that order. *)
Theorem capture_frames_output (label : string) (m : machine W) :
  (forall chunks : list string,
     exists w m1 m2,
       (let* w := newCommandWrapper label in feed w chunks;; ret w) m = (Done w, m1) /\
       trace m1 =
         trace m ++ map Log (map (labeled label) (segments "" (merged chunks)).1) /\
       heap m1 !! buffer w = Some (segments "" (merged chunks)).2 /\
       flush w m1 = (Done tt, m2) /\
       trace m2 =
         trace m1 ++
         map Log (if bool_decide ((segments "" (merged chunks)).2 = "") then []
                  else [labeled label (segments "" (merged chunks)).2]) /\
       heap m2 !! buffer w = Some "" /\
       trace m2 = trace m ++ map Log (framed label (merged chunks))) /\
  (exists w m1 m2,
     (let* w := newCommandWrapper label in feed w ["a" +:+ nl +:+ "b"];; ret w) m
       = (Done w, m1) /\
     flush w m1 = (Done tt, m2) /\
     trace m2 = trace m ++ [Log (label +:+ " | a" +:+ nl); Log (label +:+ " | b" +:+ nl)]).
Proof.
  assert (G : forall chunks : list string,
     exists w m1 m2,
       (let* w := newCommandWrapper label in feed w chunks;; ret w) m = (Done w, m1) /\
       trace m1 =
         trace m ++ map Log (map (labeled label) (segments "" (merged chunks)).1) /\
       heap m1 !! buffer w = Some (segments "" (merged chunks)).2 /\
       flush w m1 = (Done tt, m2) /\
       trace m2 =
         trace m1 ++
         map Log (if bool_decide ((segments "" (merged chunks)).2 = "") then []
                  else [labeled label (segments "" (merged chunks)).2]) /\
       heap m2 !! buffer w = Some "" /\
       trace m2 = trace m ++ map Log (framed label (merged chunks))).
  { intros chunks. unfold bind at 1. rewrite newCommandWrapper_spec.
    set (w := mkCommandWrapper label (length (heap m))).
    unfold bind.
    rewrite (feed_spec w chunks _ "")
      by first [apply fresh_buffer_lookup | reflexivity].
    rewrite string_app_nil_l. simpl.
    set (sg := segments "" (merged chunks)).
    assert (Hlen : (length (heap m) < length (heap m ++ [""]))%nat)
      by (rewrite length_app; simpl; lia).
    eexists w, _, _. split; [reflexivity|]. simpl.
    split; [reflexivity|].
    split; [now apply list_lookup_insert_eq|].
    unfold flush. erewrite out_spec by (simpl; now apply list_lookup_insert_eq).
    split; [reflexivity|]. simpl.
    rewrite out_loop_segments.
    pose proof (partial_newline_free (merged chunks) "" eq_refl) as Hfree.
    fold sg in Hfree. rewrite Hfree. simpl.
    split; [now destruct (bool_decide (sg.2 = ""))|].
    split; [apply list_lookup_insert_eq; now rewrite length_insert|].
    unfold framed. fold sg. destruct sg as [complete partial]. simpl.
    rewrite <- app_assoc, <- map_app. now rewrite !map_app. }
  split; [exact G|].
  destruct (G ["a" +:+ nl +:+ "b"]) as (w & m1 & m2 & E1 & _ & _ & E2 & _ & _ & E3).
  exists w, m1, m2. split; [exact E1|]. split; [exact E2|].
  rewrite E3. reflexivity.
Qed.

(** ** Events of composed computations *)

Lemma emits_mono {A : Type} (P Q : event -> bool) (c : M W A) :
  (forall e, P e = true -> Q e = true) -> emits W P c -> emits W Q c.
Proof.
  intros HPQ Hc m. destruct (Hc m) as (evs & Et & HP & Hh).
  exists evs. repeat split; try assumption.
  eapply Forall_impl; [exact HP|]. exact HPQ.
Qed.

Lemma emits_ret {A : Type} (P : event -> bool) (a : A) : emits W P (ret a).
Proof. intros m. exists []. simpl. rewrite app_nil_r. auto. Qed.

Lemma emits_panic {A : Type} (P : event -> bool) (msg : string) :
  emits W P (panic (A := A) msg).
Proof. intros m. exists []. simpl. rewrite app_nil_r. auto. Qed.

Lemma emits_emit (P : event -> bool) (e : event) :
  P e = true -> emits W P (emit e).
Proof. intros He m. exists [e]. simpl. auto. Qed.

Lemma emits_call {A : Type} (P : event -> bool) (e : A -> event) (f : W -> A * W) :
  (forall a, P (e a) = true) -> emits W P (call e f).
Proof.
  intros He m. unfold call. destruct (f (world m)) as [a w].
  exists [e a]. simpl. auto.
Qed.

Lemma emits_bind {A B : Type} (P : event -> bool) (c : M W A) (k : A -> M W B) :
  emits W P c -> (forall a, emits W P (k a)) -> emits W P (bind c k).
Proof.
  intros Hc Hk m. unfold bind. destruct (Hc m) as (e1 & E1 & P1 & L1).
  destruct (c m) as [[a|msg] m1]; simpl in *.
  - destruct (Hk a m1) as (e2 & E2 & P2 & L2).
    exists (e1 ++ e2). rewrite E2, E1, app_assoc.
    repeat split; [now apply Forall_app | lia].
  - exists e1. auto.
Qed.

Lemma emits_defer {A : Type} (P : event -> bool) (d : M W unit) (body : M W A) :
  emits W P d -> emits W P body -> emits W P (defer d body).
Proof.
  intros Hd Hb m. unfold defer. destruct (Hb m) as (e1 & E1 & P1 & L1).
  destruct (body m) as [r m1]; simpl in *.
  destruct (Hd m1) as (e2 & E2 & P2 & L2).
  exists (e1 ++ e2).
  destruct (d m1) as [[[]|msg] m2]; simpl in *;
    rewrite E2, E1, app_assoc; (repeat split; [now apply Forall_app | lia]).
Qed.

Lemma emits_load (P : event -> bool) (a : nat) : emits W P (load a).
Proof.
  intros m. exists []. unfold load. rewrite app_nil_r.
  destruct (heap m !! a); simpl; auto.
Qed.

Lemma emits_store (P : event -> bool) (a : nat) (b : string) :
  emits W P (store a b).
Proof.
  intros m. exists []. simpl. rewrite app_nil_r, length_insert. auto.
Qed.

Lemma emits_logs (P : event -> bool) (lines : list string) :
  (forall line, P (Log line) = true) -> emits W P (logs lines).
Proof.
  intros HP m. exists (map Log lines). simpl. repeat split; [|lia].
  apply Forall_forall. intros e He. apply list_elem_of_fmap in He as (l & -> & _).
  apply HP.
Qed.

Lemma emits_new_Buffer (P : event -> bool) : emits W P new_Buffer.
Proof.
  intros m. exists []. simpl. rewrite app_nil_r, length_app. repeat split; [auto | lia].
Qed.

Lemma emits_Environ (P : event -> bool) : emits W P Environ.
Proof. intros m. exists []. simpl. rewrite app_nil_r. auto. Qed.

(** One step of the analysis of a computation's events. *)
Ltac emits_step :=
  match goal with
  | |- emits _ _ (bind _ _) => apply emits_bind; [|intros ?]
  | |- emits _ _ (defer _ _) => apply emits_defer
  | |- emits _ _ (ret _) => apply emits_ret
  | |- emits _ _ (panic _) => apply emits_panic
  | |- emits _ _ (emit _) => apply emits_emit; reflexivity
  | |- emits _ _ (call _ _) => apply emits_call; intros ?; reflexivity
  | |- emits _ _ (load _) => apply emits_load
  | |- emits _ _ (store _ _) => apply emits_store
  | |- emits _ _ (logs _) => apply emits_logs; intros ?; reflexivity
  | |- emits _ _ new_Buffer => apply emits_new_Buffer
  | |- emits _ _ Environ => apply emits_Environ
  | |- emits _ _ (if ?b then _ else _) => destruct b
  | |- emits _ _ (match ?x with _ => _ end) => destruct x
  | |- emits _ _ (let '(_, _) := ?x in _) => destruct x
  end.

(** ** Events of each function *)

Lemma emits_out (w : commandWrapper) (atEOF : bool) : emits W is_log (out w atEOF).
Proof. unfold out. repeat emits_step. Qed.

Lemma emits_Write (w : commandWrapper) (p : string) : emits W is_log (Write w p).
Proof. unfold Write. repeat emits_step. apply emits_out. Qed.

Lemma emits_feed (w : commandWrapper) (chunks : list string) : emits W is_log (feed w chunks).
Proof.
  induction chunks as [|p chunks IH]; simpl; [apply emits_ret|].
  emits_step; [apply emits_Write | exact IH].
Qed.

Lemma emits_saveResolvConf (cmd : Command) : emits W not_exec (saveResolvConf cmd).
Proof. unfold saveResolvConf, Lstat, Rename, ReadFile, WriteFile. repeat emits_step. Qed.

Lemma emits_restoreResolvConf (cmd : Command) (sum : option string) :
  emits W not_exec (restoreResolvConf cmd sum).
Proof.
  unfold restoreResolvConf, Lstat, Rename, Remove, ReadFile, log_Printf.
  repeat emits_step.
Qed.

Lemma emits_Setup (q : qemuHelper) : emits W not_exec (Setup q).
Proof. unfold Setup. repeat emits_step. Qed.

Lemma emits_Cleanup (q : qemuHelper) : emits W not_exec (Cleanup q).
Proof. unfold Cleanup, Remove. repeat emits_step. Qed.

Lemma emits_newQemuHelper (c : Command) : emits W is_log (newQemuHelper c).
Proof. unfold newQemuHelper, log_Panicf. repeat emits_step. Qed.

Lemma is_log_not_exec (e : event) : is_log e = true -> not_exec e = true.
Proof. now destruct e. Qed.

(** ** The emulation helper *)

Lemma newQemuHelper_unset (c : Command) (m : machine W) :
  Chroot c = "" \/ Architecture c = "" ->
  newQemuHelper c m = (Done (mkQemuHelper "" ""), m).
Proof.
  intros Hu. unfold newQemuHelper.
  destruct Hu as [-> | ->]; [reflexivity|].
  now rewrite orb_true_r.
Qed.

(** With chroot and architecture set, the helper is a row of the table. *)
Lemma newQemuHelper_row (c : Command) (m : machine W) (natives : list string) (bin : string) :
  Chroot c <> "" -> Architecture c <> "" ->
  (Architecture c, (natives, bin)) ∈ compatibility_table ->
  newQemuHelper c m =
  (Done (if table_needs_emulation natives GOARCH
         then mkQemuHelper bin (path_Join (Chroot c) bin)
         else mkQemuHelper "" ""), m).
Proof.
  intros Hc Ha Hrow. unfold newQemuHelper.
  rewrite (bool_decide_false _ Hc), (bool_decide_false _ Ha). simpl orb. cbv iota.
  unfold compatibility_table in Hrow.
  repeat (apply elem_of_cons in Hrow as [Hrow | Hrow];
          [inversion Hrow as [[Earch En Eb]]; rewrite Earch; clear Hrow Earch; subst natives bin|]);
    try (now apply elem_of_nil in Hrow);
    unfold table_needs_emulation, bind;
    repeat (case_bool_decide; try discriminate; try congruence);
    simpl; try reflexivity; exfalso;
    repeat match goal with
           | Hin : _ ∈ _ :: _ |- _ => apply elem_of_cons in Hin as [Hin | Hin]
           | Hin : _ ∈ [] |- _ => now apply elem_of_nil in Hin
           | Hout : _ ∉ _ :: _ |- _ => apply not_elem_of_cons in Hout as [? Hout]
           end; congruence.
Qed.

Lemma newQemuHelper_unknown (c : Command) (m : machine W) :
  Chroot c <> "" -> Architecture c <> "" ->
  Architecture c ∉ supported_architectures ->
  newQemuHelper c m =
  (Panic ("Don't know qemu for Architecture " +:+ Architecture c),
   mkMachine (world m) (heap m)
     (trace m ++ [Log (log_line ("Don't know qemu for Architecture " +:+ Architecture c))])).
Proof.
  intros Hc Ha Hrow. unfold newQemuHelper.
  rewrite (bool_decide_false _ Hc), (bool_decide_false _ Ha). simpl orb. cbv iota.
  unfold supported_architectures, compatibility_table in Hrow. simpl in Hrow.
  repeat (apply not_elem_of_cons in Hrow as [? Hrow]).
  cbv zeta.
  repeat match goal with
         | Hne : Architecture c <> _ |- _ => rewrite (bool_decide_false _ Hne); clear Hne
         end.
  reflexivity.
Qed.

Lemma table_interpreters_named :
  Forall (fun row : string * (list string * string) => row.2.2 <> "") compatibility_table.
Proof. unfold compatibility_table. repeat constructor; discriminate. Qed.

(** Either the helper is built without touching the machine, or the
    architecture is unknown and the construction panics. *)
Lemma newQemuHelper_cases (c : Command) (m : machine W) :
  (exists q, newQemuHelper c m = (Done q, m)) \/
  (Chroot c <> "" /\ Architecture c <> "" /\
   (Architecture c ∉ supported_architectures) /\
   newQemuHelper c m =
   (Panic ("Don't know qemu for Architecture " +:+ Architecture c),
    mkMachine (world m) (heap m)
      (trace m ++ [Log (log_line ("Don't know qemu for Architecture " +:+ Architecture c))]))).
Proof.
  destruct (decide (Chroot c = "")) as [Hc|Hc].
  { left. eexists. apply newQemuHelper_unset. now left. }
  destruct (decide (Architecture c = "")) as [Ha|Ha].
  { left. eexists. apply newQemuHelper_unset. now right. }
  destruct (decide (Architecture c ∈ supported_architectures)) as [Hin|Hout].
  - left. unfold supported_architectures in Hin.
    apply list_elem_of_fmap in Hin as ([arch [natives bin]] & Earch & Hin).
    simpl in Earch. subst arch. eexists.
    apply (newQemuHelper_row c m natives bin); assumption.
  - right. repeat split; try assumption. now apply newQemuHelper_unknown.
Qed.

(** C1.  With the chroot path and the architecture set: for every row of
    the compatibility table and every host architecture the helper is
    built without any effect, needs emulation exactly when the table
    says so (the host is not among the row's native hosts), and then names
    the row's interpreter; for an architecture outside the table the
    construction logs and panics, and [Run] panics with it before calling
    the host at all. *)
Theorem emulation_decision_matches_table (c : Command) (m : machine W) :
  Chroot c <> "" -> Architecture c <> "" ->
  (forall natives bin,
     (Architecture c, (natives, bin)) ∈ compatibility_table ->
     exists q,
       newQemuHelper c m = (Done q, m) /\
       needs_emulation q = table_needs_emulation natives GOARCH /\
       qemusrc q = (if table_needs_emulation natives GOARCH then bin else "") /\
       qemutarget q =
         (if table_needs_emulation natives GOARCH then path_Join (Chroot c) bin else "")) /\
  (Architecture c ∉ supported_architectures ->
   exists msg line,
     newQemuHelper c m =
       (Panic msg, mkMachine (world m) (heap m) (trace m ++ [Log line])) /\
     forall label cmdline,
       Run c label cmdline m =
         (Panic msg, mkMachine (world m) (heap m) (trace m ++ [Log line]))).
Proof.
  intros Hc Ha. split.
  - intros natives bin Hrow. eexists.
    split; [apply (newQemuHelper_row c m natives bin); assumption|].
    pose proof table_interpreters_named as Hnamed.
    rewrite Forall_forall in Hnamed. specialize (Hnamed _ Hrow). simpl in Hnamed.
    unfold needs_emulation.
    destruct (table_needs_emulation natives GOARCH); simpl; [|auto].
    now rewrite bool_decide_false.
  - intros Hout. eexists _, _. split; [now apply newQemuHelper_unknown|].
    intros label cmdline. unfold Run, bind at 1.
    now rewrite newQemuHelper_unknown.
Qed.

(** When the chroot path or the architecture is unset the helper is empty,
    whatever the architecture. *)
Lemma emulation_unset_is_noop (c : Command) (m : machine W) :
  Chroot c = "" \/ Architecture c = "" ->
  newQemuHelper c m = (Done (mkQemuHelper "" ""), m) /\
  Setup (mkQemuHelper "" "") m = (Done None, m) /\
  Cleanup (mkQemuHelper "" "") m = (Done tt, m).
Proof. intros Hu. split; [now apply newQemuHelper_unset|]. split; reflexivity. Qed.

(** ** Assembling the argument vector *)

Lemma fold_left_flags (flag : string) (xs acc : list string) :
  fold_left (fun options x => options ++ [flag; x]) xs acc =
  acc ++ flat_map (fun x => [flag; x]) xs.
Proof.
  revert acc. induction xs as [|x xs IH]; intros acc; simpl.
  - now rewrite app_nil_r.
  - rewrite IH, <- app_assoc. reflexivity.
Qed.


(** ** Setting up and cleaning up the interpreter *)

Lemma Setup_spec (q : qemuHelper) (m : machine W) :
  Setup q m =
  if bool_decide (qemusrc q = "") then (Done None, m)
  else
    (Done (CopyFile (qemusrc q) (qemutarget q) 493 (world m)).1,
     mkMachine (CopyFile (qemusrc q) (qemutarget q) 493 (world m)).2 (heap m)
       (trace m ++ [CallCopyFile (qemusrc q) (qemutarget q) 493
                      (CopyFile (qemusrc q) (qemutarget q) 493 (world m)).1])).
Proof.
  unfold Setup. case_bool_decide; [reflexivity|].
  unfold call. now destruct (CopyFile _ _ _ _).
Qed.

Lemma Cleanup_spec (q : qemuHelper) (m : machine W) :
  Cleanup q m =
  (Done tt,
   if bool_decide (qemusrc q <> "") then
     mkMachine (os_Remove (qemutarget q) (world m)).2 (heap m)
       (trace m ++ [CallRemove (qemutarget q) (os_Remove (qemutarget q) (world m)).1])
   else m).
Proof.
  unfold Cleanup. case_bool_decide; [|reflexivity].
  unfold bind, Remove, call. now destruct (os_Remove _ _).
Qed.

Lemma Setup_returns (q : qemuHelper) (m : machine W) :
  exists r m', Setup q m = (Done r, m').
Proof. rewrite Setup_spec. case_bool_decide; eauto. Qed.

(** C10.  In mode none an empty command line makes [Run] panic: either
    the emulation helper does not know the architecture, or the empty
    argument vector is taken apart on line 245, where the runtime reports
    the slice bound [1:0].  [Run] does not return an error, or at all. *)
Theorem Run_empty_command_line_panics
    (arch dir chroot label : string) (binds env : list string) (m : machine W) :
  exists msg m',
    Run (mkCommand arch dir chroot CHROOT_METHOD_NONE binds env) label [] m
      = (Panic msg, m') /\
    (msg = slice_bounds_out_of_range \/ msg = "Don't know qemu for Architecture " +:+ arch).
Proof.
  set (cmd := mkCommand arch dir chroot CHROOT_METHOD_NONE binds env).
  unfold Run, bind at 1.
  destruct (newQemuHelper_cases cmd m) as [[q Hq] | (_ & _ & _ & Hq)]; rewrite Hq.
  - unfold bind at 1. destruct (Setup_returns q m) as (r & m1 & ->).
    unfold defer. simpl. unfold panic. rewrite Cleanup_spec.
    eexists _, _. split; [reflexivity|]. now left.
  - eexists _, _. split; [reflexivity|]. now right.
Qed.

(** ** The resolv.conf guard *)

(** Closes a goal [saveResolvConf .. = .. /\ trace .. = .. /\ heap .. /\ ..]
    once the host's answers are known. *)
Ltac close_run :=
  eexists _, _, _; split; [reflexivity|]; simpl;
  split; [rewrite <- ?app_assoc; simpl; first [reflexivity | symmetry; apply app_nil_r]|];
  split; [reflexivity|].

(** Every run of the save step follows [save_run]. *)
Lemma saveResolvConf_protocol (cmd : Command) (m : machine W) :
  exists res evs m',
    saveResolvConf cmd m = (Done res, m') /\
    trace m' = trace m ++ evs /\
    heap m' = heap m /\
    save_run cmd res evs /\
    (ChrootMethod cmd <> CHROOT_METHOD_NONE \/ m' = m).
Proof.
  unfold saveResolvConf. case_bool_decide as Hmode.
  { exists (None, None), [], m. rewrite app_nil_r.
    repeat split; [now constructor | now right]. }
  unfold bind, Lstat, Rename, ReadFile, WriteFile, call.
  destruct (os_Lstat (chrootedconf cmd) (world m)) as [st w1]. simpl.
  pose proof (save_done cmd st) as Hdone.
  pose proof (save_read_failed cmd st) as Hread.
  pose proof (save_write_failed cmd st) as Hwrite.
  unfold set_aside in Hdone, Hread, Hwrite.
  destruct (negb (os_IsNotExist (err_of st))) eqn:Hex; simpl.
  - destruct (os_Rename (chrootedconf cmd) (savedconf cmd) w1) as [[e|] w2]; simpl.
    { close_run. split; [|now left].
      apply save_rename_failed; [exact Hmode|]. now apply negb_true_iff in Hex. }
    destruct (ioutil_ReadFile hostconf w2) as [[data|e] w3]; simpl.
    + destruct (ioutil_WriteFile _ _ _ w3) as [[e|] w4]; simpl;
        close_run; (split; [|now left]); [now apply Hwrite | now apply Hdone].
    + close_run. split; [|now left]. now apply Hread.
  - destruct (ioutil_ReadFile hostconf w1) as [[data|e] w3]; simpl.
    + destruct (ioutil_WriteFile _ _ _ w3) as [[e|] w4]; simpl;
        close_run; (split; [|now left]); [now apply Hwrite | now apply Hdone].
    + close_run. split; [|now left]. now apply Hread.
Qed.

(** The same run with the host's part in it: the answers in the trace
    are the host's own, and the world afterwards is what its calls made
    of the world before. *)
Lemma saveResolvConf_on_world (cmd : Command) (m : machine W) :
  exists res evs m',
    saveResolvConf cmd m = (Done res, m') /\
    trace m' = trace m ++ evs /\
    save_on cmd (world m) res evs (world m').
Proof.
  unfold saveResolvConf. case_bool_decide as Hmode.
  { exists (None, None), [], m. rewrite app_nil_r. repeat split. now constructor. }
  unfold bind, Lstat, Rename, ReadFile, WriteFile, call.
  destruct (os_Lstat (chrootedconf cmd) (world m)) as [st w1] eqn:EL. simpl.
  assert (Haside : forall r w2,
            (if negb (os_IsNotExist (err_of st))
             then os_Rename (chrootedconf cmd) (savedconf cmd) w1 = (r, w2)
             else r = None /\ w2 = w1) -> sets_aside cmd st r w1 w2)
    by (intros r w2 Hr; exact Hr).
  destruct (negb (os_IsNotExist (err_of st))) eqn:Hex; simpl.
  - destruct (os_Rename (chrootedconf cmd) (savedconf cmd) w1) as [[e|] w2] eqn:ER; simpl.
    { eexists _, _, _. split; [reflexivity|]. simpl.
      split; [rewrite <- app_assoc; reflexivity|].
      eapply save_on_rename_failed; eauto. now apply negb_true_iff in Hex. }
    destruct (ioutil_ReadFile hostconf w2) as [[data|e] w3] eqn:ERd; simpl.
    + destruct (ioutil_WriteFile (chrootedconf cmd) (generated_marker +:+ data) 420 w3)
        as [[e|] w4] eqn:EW; simpl.
      * exists (None, Some e),
          (CallLstat (chrootedconf cmd) st :: set_aside cmd st None ++
           [CallReadFile hostconf (inl data);
            CallWriteFile (chrootedconf cmd) (generated_marker +:+ data) 420 (Some e)]).
        eexists. split; [reflexivity|]. simpl.
        split; [unfold set_aside; rewrite Hex, <- !app_assoc; reflexivity|].
        eapply save_on_write_failed; eauto.
      * exists (Some (sha256_Sum256 (generated_marker +:+ data)), None),
          (CallLstat (chrootedconf cmd) st :: set_aside cmd st None ++
           [CallReadFile hostconf (inl data);
            CallWriteFile (chrootedconf cmd) (generated_marker +:+ data) 420 None]).
        eexists. split; [reflexivity|]. simpl.
        split; [unfold set_aside; rewrite Hex, <- !app_assoc; reflexivity|].
        eapply save_on_done; eauto.
    + exists (None, Some e),
        (CallLstat (chrootedconf cmd) st :: set_aside cmd st None ++
         [CallReadFile hostconf (inr e)]).
      eexists. split; [reflexivity|]. simpl.
      split; [unfold set_aside; rewrite Hex, <- !app_assoc; reflexivity|].
      eapply save_on_read_failed; eauto.
  - destruct (ioutil_ReadFile hostconf w1) as [[data|e] w3] eqn:ERd; simpl.
    + destruct (ioutil_WriteFile (chrootedconf cmd) (generated_marker +:+ data) 420 w3)
        as [[e|] w4] eqn:EW; simpl.
      * exists (None, Some e),
          (CallLstat (chrootedconf cmd) st :: set_aside cmd st None ++
           [CallReadFile hostconf (inl data);
            CallWriteFile (chrootedconf cmd) (generated_marker +:+ data) 420 (Some e)]).
        eexists. split; [reflexivity|]. simpl.
        split; [unfold set_aside; rewrite Hex, <- !app_assoc; reflexivity|].
        eapply save_on_write_failed; eauto.
      * exists (Some (sha256_Sum256 (generated_marker +:+ data)), None),
          (CallLstat (chrootedconf cmd) st :: set_aside cmd st None ++
           [CallReadFile hostconf (inl data);
            CallWriteFile (chrootedconf cmd) (generated_marker +:+ data) 420 None]).
        eexists. split; [reflexivity|]. simpl.
        split; [unfold set_aside; rewrite Hex, <- !app_assoc; reflexivity|].
        eapply save_on_done; eauto.
    + exists (None, Some e),
        (CallLstat (chrootedconf cmd) st :: set_aside cmd st None ++
         [CallReadFile hostconf (inr e)]).
      eexists. split; [reflexivity|]. simpl.
      split; [unfold set_aside; rewrite Hex, <- !app_assoc; reflexivity|].
      eapply save_on_read_failed; eauto.
Qed.

(** C5.  The save step.  In mode none it does nothing: no checksum, no
    call, the world as it was.  Otherwise it asks the host about
    [<chroot>/etc/resolv.conf], has an existing file renamed to
    [<chroot>/etc/resolv.conf.debos], has the host's [/etc/resolv.conf]
    read, puts the generated-marker line in front, has the result written
    to [<chroot>/etc/resolv.conf] and returns the SHA-256 checksum of what
    it wrote; when the rename, the read or the write fails it returns that
    error, stops there and returns no checksum.  The answers are the
    host's, each in the world the calls before it left, and the world
    afterwards is the one the last call left. *)
Theorem save_step_protocol (cmd : Command) (m : machine W) :
  exists res evs m',
    saveResolvConf cmd m = (Done res, m') /\
    trace m' = trace m ++ evs /\
    heap m' = heap m /\
    save_run cmd res evs /\
    (ChrootMethod cmd <> CHROOT_METHOD_NONE \/ m' = m) /\
    save_on cmd (world m) res evs (world m').
Proof.
  destruct (saveResolvConf_protocol cmd m) as (res & evs & m' & ES & Et & Eh & Hrun & Hm).
  destruct (saveResolvConf_on_world cmd m) as (res' & evs' & m2 & ES' & Et' & Hon).
  rewrite ES in ES'. injection ES' as <- <-.
  rewrite Et in Et'. apply app_inv_head in Et'. subst evs'.
  exists res, evs, m'. repeat split; assumption.
Qed.

(** Case analysis on the next answer of the host. *)
Ltac host_answers :=
  repeat (simpl;
          match goal with
          | |- context [os_Lstat ?p ?w] => destruct (os_Lstat p w) as [? ?]
          | |- context [os_Rename ?p ?p' ?w] => destruct (os_Rename p p' w) as [? ?]
          | |- context [os_Remove ?p ?w] => destruct (os_Remove p w) as [? ?]
          | |- context [ioutil_ReadFile ?p ?w] => destruct (ioutil_ReadFile p w) as [? ?]
          | |- context [match ?x with Some _ => _ | None => _ end] => is_var x; destruct x
          | |- context [match ?x with inl _ => _ | inr _ => _ end] => is_var x; destruct x
          | |- context [if ?b then _ else _] => destruct b eqn:?
          end).

Ltac close_restore :=
  eexists _, _, _; split; [reflexivity|]; simpl;
  split; [rewrite <- ?app_assoc; simpl; first [reflexivity | symmetry; apply app_nil_r]|];
  split; [reflexivity|].

(** Every run of the restore step follows [restore_run]. *)
Lemma restoreResolvConf_protocol (cmd : Command) (sum : option string) (m : machine W) :
  exists r evs m',
    restoreResolvConf cmd sum m = (r, m') /\
    trace m' = trace m ++ evs /\
    heap m' = heap m /\
    restore_run cmd sum r evs.
Proof.
  unfold restoreResolvConf. destruct sum as [sum|].
  2:{ exists (Done None), [], m. rewrite app_nil_r. repeat split. constructor. now right. }
  case_bool_decide as Hmode.
  { exists (Done None), [], m. rewrite app_nil_r. repeat split. constructor. now left. }
  unfold defer, bind, Lstat, Rename, Remove, ReadFile, log_Printf, emit, call, ret, panic.
  host_answers; close_restore.
  all: try match goal with
           | Hb : bool_decide _ = true |- _ => apply bool_decide_eq_true in Hb
           | Hb : bool_decide _ = false |- _ => apply bool_decide_eq_false in Hb
           end.
  all: repeat match goal with
              | Hn : negb _ = true |- _ => apply negb_true_iff in Hn
              | Hn : negb _ = false |- _ => apply negb_false_iff in Hn
              | Hz : (_ =? _) = true |- _ => apply Z.eqb_eq in Hz
              | Hz : (_ =? _) = false |- _ => apply Z.eqb_neq in Hz
              end.
  all: try solve [econstructor;
              first [assumption | reflexivity | congruence | eexists; reflexivity]].
  match goal with
  | Hgone : os_IsNotExist (err_of ?st) = true |- _ =>
      destruct st as [mode'|e']; [discriminate Hgone|]; simpl in Hgone
  end.
  apply restore_untouched_no_sidecar; first [assumption | congruence].
Qed.

Lemma restore_on_armed_as (cmd : Command) (sum : option string) (w w1 w2 : W)
    (sum0 : string) (r : outcome (option error)) (evs evs' : list event)
    (removed : option error) :
  ChrootMethod cmd <> CHROOT_METHOD_NONE ->
  sum = Some sum0 ->
  restore_file_on cmd sum0 w r evs w1 ->
  os_Remove (savedconf cmd) w1 = (removed, w2) ->
  evs' = evs ++ [CallRemove (savedconf cmd) removed] ->
  restore_on cmd sum w r evs' w2.
Proof. intros Hmode Hsum Hfile Hrm ->. now apply (restore_on_armed cmd sum w sum0 r evs removed w1). Qed.

(** The same run with the host's part in it. *)
Lemma restoreResolvConf_on_world (cmd : Command) (sum : option string) (m : machine W) :
  exists r evs m',
    restoreResolvConf cmd sum m = (r, m') /\
    trace m' = trace m ++ evs /\
    restore_on cmd sum (world m) r evs (world m').
Proof.
  unfold restoreResolvConf. destruct sum as [sum|].
  2:{ exists (Done None), [], m. rewrite app_nil_r. repeat split. constructor. now right. }
  case_bool_decide as Hmode.
  { exists (Done None), [], m. rewrite app_nil_r. repeat split. constructor. now left. }
  unfold defer, bind, Lstat, Rename, Remove, ReadFile, log_Printf, emit, call, ret, panic.
  repeat (simpl;
          match goal with
          | |- context [os_Lstat ?p ?w] => destruct (os_Lstat p w) as [? ?] eqn:?
          | |- context [os_Rename ?p ?p' ?w] => destruct (os_Rename p p' w) as [? ?] eqn:?
          | |- context [os_Remove ?p ?w] => destruct (os_Remove p w) as [? ?] eqn:?
          | |- context [ioutil_ReadFile ?p ?w] =>
              destruct (ioutil_ReadFile p w) as [? ?] eqn:?
          | |- context [match ?x with Some _ => _ | None => _ end] => is_var x; destruct x
          | |- context [match ?x with inl _ => _ | inr _ => _ end] => is_var x; destruct x
          | |- context [if ?b then _ else _] => destruct b eqn:?
          end).
  all: eexists _, _, _; (split; [reflexivity|]); simpl;
    (split; [rewrite <- ?app_assoc; simpl; reflexivity|]).
  all: repeat match goal with
              | Hb : bool_decide _ = true |- _ => apply bool_decide_eq_true in Hb
              | Hb : bool_decide _ = false |- _ => apply bool_decide_eq_false in Hb
              | Hn : negb _ = true |- _ => apply negb_true_iff in Hn
              | Hn : negb _ = false |- _ => apply negb_false_iff in Hn
              | Hz : (_ =? _) = true |- _ => apply Z.eqb_eq in Hz
              | Hz : (_ =? _) = false |- _ => apply Z.eqb_neq in Hz
              end.
  all: try match goal with
           | Hgone : os_IsNotExist (err_of ?st) = true |- _ =>
               destruct st as [?|?]; [discriminate Hgone|]; simpl in Hgone
           end.
  all: first
    [ solve [eapply restore_on_armed_as;
             [exact Hmode | reflexivity | eapply file_missing; eauto | eassumption
             | reflexivity]]
    | solve [eapply restore_on_armed_as;
             [exact Hmode | reflexivity | eapply file_lstat_failed; eauto | eassumption
             | reflexivity]]
    | solve [eapply restore_on_armed_as;
             [exact Hmode | reflexivity | eapply file_unreadable; eauto | eassumption
             | reflexivity]]
    | solve [eapply restore_on_armed_as;
             [exact Hmode | reflexivity | eapply file_rewritten; eauto | eassumption
             | reflexivity]]
    | solve [eapply restore_on_armed_as;
             [exact Hmode | reflexivity | eapply file_delete_failed; eauto | eassumption
             | reflexivity]]
    | solve [eapply restore_on_armed_as;
             [exact Hmode | reflexivity | eapply file_deleted_no_sidecar; eauto | eassumption
             | reflexivity]]
    | solve [eapply restore_on_armed_as;
             [exact Hmode | reflexivity | eapply file_restored; eauto | eassumption
             | reflexivity]]
    | solve [eapply restore_on_armed_as;
             [exact Hmode | reflexivity | eapply file_symlink; eauto | eassumption
             | reflexivity]]
    | solve [eapply restore_on_armed_as;
             [exact Hmode | reflexivity | eapply file_irregular; eauto | eassumption
             | reflexivity]] ].
Qed.

(** C6, as the code has it.  The restore step does nothing in mode none
    or without a remembered checksum.  Otherwise it ends, on every path,
    by trying to remove the side-car file, after looking at
    [<chroot>/etc/resolv.conf]: a regular file with the remembered
    checksum is deleted and an existing side-car renamed back; a regular
    file with another checksum and a symbolic link are left alone; a file
    that is neither is left alone and a warning is logged; a missing file
    is left alone without a warning.  None of the last four is an error. *)
Theorem restore_step_protocol (cmd : Command) (sum : option string) (m : machine W) :
  exists r evs m',
    restoreResolvConf cmd sum m = (r, m') /\
    trace m' = trace m ++ evs /\
    heap m' = heap m /\
    restore_run cmd sum r evs /\
    restore_on cmd sum (world m) r evs (world m').
Proof.
  destruct (restoreResolvConf_protocol cmd sum m) as (r & evs & m' & ER & Et & Eh & Hrun).
  destruct (restoreResolvConf_on_world cmd sum m) as (r' & evs' & m2 & ER' & Et' & Hon).
  rewrite ER in ER'. injection ER' as <- <-.
  rewrite Et in Et'. apply app_inv_head in Et'. subst evs'.
  exists r, evs, m'. repeat split; assumption.
Qed.

(** ** The runner *)

Lemma emits_any {A : Type} (P : event -> bool) (c : M W A) :
  emits W P c -> emits W any_event c.
Proof. apply emits_mono. reflexivity. Qed.

Lemma emits_exe_Run (argv : list string) (env : option (list string)) (w : commandWrapper) :
  emits W any_event (exe_Run argv env w).
Proof.
  unfold exe_Run. repeat emits_step. apply (emits_any _ _ (emits_feed _ _)).
Qed.

Lemma emits_Run_body (cmd : Command) (options : list string)
    (env : option (list string)) (w : commandWrapper) :
  emits W any_event (Run_body cmd options env w).
Proof.
  unfold Run_body.
  emits_step; [apply (emits_any _ _ (emits_saveResolvConf _))|].
  repeat emits_step; try apply emits_exe_Run.
  all: apply (emits_any _ _ (emits_restoreResolvConf _ _)).
Qed.

Lemma Run_env_spec (cmd : Command) (m : machine W) :
  Run_env cmd m = (Done (exe_Env cmd (os_Environ (world m))), m).
Proof.
  unfold Run_env, exe_Env.
  now destruct (bool_decide (0 < length (extraEnv cmd))%nat && _).
Qed.

Lemma armed_heap (cmd : Command) (q : qemuHelper) (m0 : machine W) :
  heap (armed cmd q m0) = heap m0 ++ [""].
Proof.
  unfold armed. rewrite Setup_spec.
  repeat case_bool_decide; reflexivity.
Qed.

Lemma armed_trace (cmd : Command) (q : qemuHelper) (m0 : machine W) :
  exists evs, trace (armed cmd q m0) = trace m0 ++ evs /\
              Forall (fun e => not_exec e = true) evs.
Proof.
  unfold armed. rewrite Setup_spec.
  repeat case_bool_decide; simpl; eexists;
    (split; [rewrite <- ?app_assoc; first [reflexivity | symmetry; apply app_nil_r]|]);
    repeat constructor.
Qed.

(** [Run], once the helper is built and the argument vector is not empty:
    the body runs from the armed machine; then, whatever its outcome, the
    service gate is re-enabled, the buffer flushed and the interpreter
    removed. *)
Lemma Run_decompose (cmd : Command) (label : string) (cmdline : list string)
    (m m0 : machine W) (q : qemuHelper) :
  newQemuHelper cmd m = (Done q, m0) ->
  Run_options cmd cmdline <> [] ->
  let w := mkCommandWrapper label (length (heap m0)) in
  let rb := Run_body cmd (Run_options cmd cmdline) (armed_env cmd q m0) w (armed cmd q m0) in
  exists pending removed m',
    heap rb.2 !! length (heap m0) = Some pending /\
    Run cmd label cmdline m = (rb.1, m') /\
    trace m' =
      trace rb.2 ++ allow_events cmd ++ map Log (out_loop label true pending).1
        ++ cleanup_events q removed /\
    heap m' = <[length (heap m0) := (out_loop label true pending).2]> (heap rb.2) /\
    world m' = torn_down cmd q (world rb.2).
Proof.
  intros Hq Hopts. cbv zeta.
  unfold armed_env, armed, torn_down, allow_events.
  destruct (Setup_returns q m0) as (r0 & m1 & ES).
  assert (Hh : heap m1 = heap m0).
  { rewrite Setup_spec in ES. case_bool_decide; inversion ES; reflexivity. }
  unfold Run, bind at 1. rewrite Hq. unfold bind at 1. rewrite ES. simpl.
  unfold defer at 1.
  destruct (Run_options cmd cmdline) as [|a l] eqn:EO; [contradiction|].
  unfold bind at 1. rewrite newCommandWrapper_spec, Hh.
  unfold defer at 1. unfold bind at 1. rewrite Run_env_spec. simpl.
  set (w := mkCommandWrapper label (length (heap m0))).
  case_bool_decide as Hmode.
  - unfold bind at 1, Deny, call. simpl. unfold defer at 1.
    match goal with
    | |- context [Run_body ?c ?o ?e ?w' ?ma] =>
        destruct (emits_Run_body c o e w' ma) as (evs & _ & _ & Hlen);
        destruct (Run_body c o e w' ma) as [r mb] eqn:Erb
    end.
    simpl in Hlen |- *. rewrite length_app in Hlen. simpl in Hlen.
    destruct (lookup_lt_is_Some_2 (heap mb) (length (heap m0))) as [pending Hp]; [lia|].
    exists pending.
    unfold Allow, call. simpl. unfold flush.
    erewrite out_spec by (simpl; exact Hp). simpl.
    rewrite Cleanup_spec. simpl.
    eexists _, _. split; [exact Hp|]. split; [reflexivity|].
    unfold cleanup_events. case_bool_decide; simpl.
    + split; [rewrite <- ?app_assoc; simpl; now rewrite ?app_nil_r|]. split; reflexivity.
    + split; [rewrite <- ?app_assoc; simpl; now rewrite ?app_nil_r|]. split; reflexivity.
  - match goal with
    | |- context [Run_body ?c ?o ?e ?w' ?ma] =>
        destruct (emits_Run_body c o e w' ma) as (evs & _ & _ & Hlen);
        destruct (Run_body c o e w' ma) as [r mb] eqn:Erb
    end.
    simpl in Hlen |- *. rewrite length_app in Hlen. simpl in Hlen.
    destruct (lookup_lt_is_Some_2 (heap mb) (length (heap m0))) as [pending Hp]; [lia|].
    exists pending.
    unfold flush. erewrite out_spec by (simpl; exact Hp). simpl.
    rewrite Cleanup_spec. simpl.
    eexists _, _. split; [exact Hp|]. split; [reflexivity|].
    unfold cleanup_events. case_bool_decide; simpl.
    + split; [rewrite <- ?app_assoc; simpl; now rewrite ?app_nil_r|]. split; reflexivity.
    + split; [rewrite <- ?app_assoc; simpl; now rewrite ?app_nil_r|]. split; reflexivity.
Qed.

Lemma newQemuHelper_Done (cmd : Command) (m m0 : machine W) (q : qemuHelper) :
  newQemuHelper cmd m = (Done q, m0) -> m0 = m.
Proof.
  intros Hq. destruct (newQemuHelper_cases cmd m) as [[q' Hq'] | (_ & _ & _ & Hp)];
    congruence.
Qed.

Lemma out_loop_flushes (label pending : string) :
  out_loop label true pending = (framed label pending, "").
Proof.
  rewrite out_loop_segments. unfold framed. now destruct (segments "" pending).
Qed.

(** C8.  Once the emulation helper is built and the argument vector is
    not empty, every guard of [Run] is armed, and on every way out of
    [Run] from there (a return of the body, an early return after a failed
    save or a failed command, a panic) the trace ends with the teardown:
    the service gate is re-enabled when the mode is not none, the rest of
    the buffer is logged and the buffer left empty, and the removal of the
    interpreter is called when one was set up. *)
Theorem teardown_on_every_exit (cmd : Command) (label : string) (cmdline : list string)
    (m m0 : machine W) (q : qemuHelper) :
  newQemuHelper cmd m = (Done q, m0) ->
  Run_options cmd cmdline <> [] ->
  let body_exit :=
    (Run_body cmd (Run_options cmd cmdline) (armed_env cmd q m)
       (mkCommandWrapper label (length (heap m))) (armed cmd q m)).2 in
  exists r m' body pending removed,
    Run cmd label cmdline m = (r, m') /\
    trace body_exit = trace m ++ body /\
    heap body_exit !! length (heap m) = Some pending /\
    trace m' =
      trace m ++ body ++ allow_events cmd ++ map Log (framed label pending)
        ++ cleanup_events q removed /\
    heap m' !! length (heap m) = Some "" /\
    world m' = torn_down cmd q (world body_exit).
Proof.
  intros Hq Hopts. pose proof (newQemuHelper_Done _ _ _ _ Hq) as ->.
  destruct (Run_decompose cmd label cmdline m m q Hq Hopts)
    as (pending & removed & m' & Hp & HR & Ht & Hh & Hw).
  set (rb := Run_body _ _ _ _ _) in *.
  destruct (emits_Run_body cmd (Run_options cmd cmdline) (armed_env cmd q m)
              (mkCommandWrapper label (length (heap m))) (armed cmd q m))
    as (ebody & Eb & _ & _).
  fold rb in Eb.
  destruct (armed_trace cmd q m) as (earm & Ea & _).
  exists rb.1, m', (earm ++ ebody), pending, removed.
  split; [exact HR|].
  split; [rewrite Eb, Ea; now rewrite <- app_assoc|].
  split; [exact Hp|]. split.
  - rewrite Ht, Eb, Ea, out_loop_flushes. simpl. now rewrite <- !app_assoc.
  - split; [|exact Hw].
    rewrite Hh, out_loop_flushes. simpl.
    apply list_lookup_insert_eq. now apply lookup_lt_Some in Hp.
Qed.

(** With the helper built and an empty argument vector only the first
    guard is armed: [Run] panics and the interpreter is removed. *)
Lemma Run_empty_options (cmd : Command) (label : string) (cmdline : list string)
    (m m0 : machine W) (q : qemuHelper) :
  newQemuHelper cmd m = (Done q, m0) ->
  Run_options cmd cmdline = [] ->
  exists evs m',
    Run cmd label cmdline m = (Panic slice_bounds_out_of_range, m') /\
    trace m' = trace m ++ evs /\ Forall (fun e => not_exec e = true) evs.
Proof.
  intros Hq Hopts. pose proof (newQemuHelper_Done _ _ _ _ Hq) as ->.
  unfold Run, bind at 1. rewrite Hq. unfold bind at 1.
  destruct (Setup q m) as [[r0|msg] m1] eqn:ES;
    [|destruct (Setup_returns q m) as (? & ? & ?); congruence].
  unfold defer. rewrite Hopts. unfold panic. rewrite Cleanup_spec.
  destruct (emits_Setup q m) as (e1 & E1 & P1 & _). rewrite ES in E1. simpl in E1.
  case_bool_decide; simpl.
  - eexists _, _. split; [reflexivity|]. simpl. rewrite E1, <- app_assoc.
    split; [reflexivity|]. apply Forall_app. split; [exact P1|]. now repeat constructor.
  - eexists _, _. split; [reflexivity|]. split; [exact E1 | exact P1].
Qed.

(** ** The one process of a run *)

Lemma exec_unique (l1 l2 p s : list event) (x y : event) :
  Forall (fun e => not_exec e = true) l1 ->
  Forall (fun e => not_exec e = true) l2 ->
  is_exec y = true ->
  l1 ++ x :: l2 = p ++ y :: s ->
  l1 = p /\ x = y /\ l2 = s.
Proof.
  intros H1 H2 Hy. revert p. induction H1 as [|a l1 Ha H1 IH]; intros p E.
  - destruct p as [|b p]; simpl in E.
    + inversion E; subst. auto.
    + inversion E; subst. rewrite Forall_app, Forall_cons in H2.
      destruct H2 as (_ & Hy' & _). unfold not_exec in Hy'. now rewrite Hy in Hy'.
  - destruct p as [|b p]; simpl in E.
    + inversion E; subst. unfold not_exec in Ha. now rewrite Hy in Ha.
    + inversion E; subst. destruct (IH p) as (-> & -> & ->); auto.
Qed.

Lemma no_exec_inside (l p s : list event) (y : event) :
  Forall (fun e => not_exec e = true) l ->
  is_exec y = true ->
  l <> p ++ y :: s.
Proof.
  intros Hl Hy ->. rewrite Forall_app, Forall_cons in Hl.
  destruct Hl as (_ & Hy' & _). unfold not_exec in Hy'. now rewrite Hy in Hy'.
Qed.

Lemma exe_Run_spec (argv : list string) (env : option (list string))
    (w : commandWrapper) (m : machine W) :
  heap m !! buffer w = Some "" ->
  exe_Run argv env w m =
  (Done (exec_Run argv env (world m)).1.2,
   mkMachine (exec_Run argv env (world m)).2
     (<[buffer w := (segments "" (merged (exec_Run argv env (world m)).1.1)).2]> (heap m))
     (trace m
        ++ CallExec argv env (exec_Run argv env (world m)).1.1
             (exec_Run argv env (world m)).1.2
        :: map Log (map (labeled (label w))
                      (segments "" (merged (exec_Run argv env (world m)).1.1)).1))).
Proof.
  intros Hb. unfold exe_Run, bind at 1, call.
  destruct (exec_Run argv env (world m)) as [[chunks err] w1]. simpl.
  unfold bind. rewrite (feed_spec w chunks _ "") by first [exact Hb | reflexivity].
  simpl. now rewrite <- app_assoc.
Qed.

Lemma not_exec_logs (lines : list string) :
  Forall (fun e => not_exec e = true) (map Log lines).
Proof. apply Forall_forall. intros e He. apply list_elem_of_fmap in He as (l & -> & _). reflexivity. Qed.

Lemma not_exec_allow (cmd : Command) :
  Forall (fun e => not_exec e = true) (allow_events cmd).
Proof. unfold allow_events. case_bool_decide; repeat constructor. Qed.

Lemma not_exec_cleanup (q : qemuHelper) (r : option error) :
  Forall (fun e => not_exec e = true) (cleanup_events q r).
Proof. unfold cleanup_events. case_bool_decide; repeat constructor. Qed.

Lemma not_exec_save (cmd : Command) (res : option string * option error) (evs : list event) :
  save_run cmd res evs -> Forall (fun e => not_exec e = true) evs.
Proof.
  intros Hrun. inversion Hrun; subst; unfold set_aside;
    try destruct (negb (os_IsNotExist (err_of st))); repeat constructor.
Qed.

#[local] Arguments restoreResolvConf : simpl never.

(** The three ways through [Run_body] when the buffer is fresh: the save
    fails and no process is spawned; the process fails and nothing is
    called after its output is logged; the process succeeds and the
    restore step follows. *)
Lemma Run_body_cases (cmd : Command) (options : list string) (env : option (list string))
    (w : commandWrapper) (m : machine W) :
  heap m !! buffer w = Some "" ->
  exists r m',
    Run_body cmd options env w m = (r, m') /\
    ((exists evs e,
        r = Done (Some e) /\ trace m' = trace m ++ evs /\
        Forall (fun e => not_exec e = true) evs)
     \/ (exists sum saved chunks e ms,
           save_run cmd (sum, None) saved /\
           saveResolvConf cmd m = (Done (sum, None), ms) /\
           exec_Run options env (world ms) = ((chunks, Some e), world m') /\
           r = Done (Some e) /\
           trace m' =
             trace m ++ saved
               ++ CallExec options env chunks (Some e)
               :: map Log (map (labeled (label w)) (segments "" (merged chunks)).1) /\
           heap m' = <[buffer w := (segments "" (merged chunks)).2]> (heap m))
     \/ (exists before chunks after,
           trace m' = trace m ++ before ++ CallExec options env chunks None :: after /\
           Forall (fun e => not_exec e = true) before /\
           Forall (fun e => not_exec e = true) after)).
Proof.
  intros Hb. unfold Run_body, bind at 1.
  destruct (saveResolvConf_protocol cmd m) as (res & evs & ms & ES & Ets & Ehs & Hrun & _).
  rewrite ES. pose proof (not_exec_save _ _ _ Hrun) as Pevs.
  destruct res as [sum [e|]].
  { simpl. eexists _, _. split; [reflexivity|]. left. eexists _, _.
    split; [reflexivity|]. split; [exact Ets | exact Pevs]. }
  unfold bind at 1. rewrite exe_Run_spec by (rewrite Ehs; exact Hb).
  destruct (exec_Run options env (world ms)) as [[chunks [e|]] we] eqn:Eexec; simpl.
  - eexists _, _. split; [reflexivity|]. right. left.
    exists sum, evs, chunks, e, ms. simpl. rewrite Ets, Ehs, <- app_assoc.
    repeat split; assumption.
  - unfold bind.
    match goal with
    | |- context [restoreResolvConf ?c ?s ?mf] =>
        destruct (emits_restoreResolvConf c s mf) as (er & Er & Per & _);
        destruct (restoreResolvConf c s mf) as [rr mr]
    end.
    simpl in Er.
    assert (Hshape :
      trace mr =
        trace m ++ evs
          ++ CallExec options env chunks None
          :: (map Log (map (labeled (label w)) (segments "" (merged chunks)).1) ++ er)).
    { rewrite Er, Ets. repeat (rewrite <- ?app_assoc; simpl). reflexivity. }
    assert (Hafter : Forall (fun e => not_exec e = true)
                       (map Log (map (labeled (label w)) (segments "" (merged chunks)).1) ++ er)).
    { apply Forall_app. split; [apply not_exec_logs | exact Per]. }
    destruct rr as [[e|]|msg]; simpl;
      eexists _, _; (split; [reflexivity|]); right; right;
      eexists _, chunks, _; (split; [exact Hshape|]); split; assumption.
Qed.

Lemma framed_split (label : string) (stream : string) :
  map (labeled label) (segments "" stream).1 ++ framed label (segments "" stream).2
  = framed label stream.
Proof.
  pose proof (partial_newline_free stream "" eq_refl) as Hfree.
  unfold framed at 2. destruct (segments "" stream) as [complete partial]. simpl in *.
  unfold framed. rewrite Hfree. simpl. now rewrite map_app.
Qed.

(** What the trace of a run says when its process failed. *)
Lemma Run_failed_process (cmd : Command) (label : string)
    (cmdline : list string) (m m' : machine W) (r : outcome (option error))
    (pre post : list event) (argv : list string) (env : option (list string))
    (chunks : list string) (e : error) :
  ChrootMethod cmd <> CHROOT_METHOD_NONE ->
  Run cmd label cmdline m = (r, m') ->
  trace m' = trace m ++ pre ++ CallExec argv env chunks (Some e) :: post ->
  r = Done (Some e) /\
  argv = Run_options cmd cmdline /\
  exists q removed st data before lines1 lines2,
    newQemuHelper cmd m = (Done q, m) /\
    pre = before
          ++ CallLstat (chrootedconf cmd) st :: set_aside cmd st None
          ++ [CallReadFile hostconf (inl data);
              CallWriteFile (chrootedconf cmd) (generated_marker +:+ data) 420 None] /\
    Forall (fun e => not_exec e = true) before /\
    post = map Log lines1 ++ CallAllow (Chroot cmd) :: map Log lines2
           ++ cleanup_events q removed /\
    lines1 ++ lines2 = framed label (merged chunks) /\
    exists saved left,
      saveResolvConf cmd (armed cmd q m)
        = (Done (Some (sha256_Sum256 (generated_marker +:+ data)), None), saved) /\
      exec_Run argv env (world saved) = ((chunks, Some e), left) /\
      world m' = torn_down cmd q left.
Proof.
  intros Hmode HR Ht.
  destruct (newQemuHelper_cases cmd m) as [[q Hq] | (_ & _ & _ & Hq)].
  2:{ exfalso. unfold Run, bind at 1 in HR. rewrite Hq in HR.
      inversion HR; subst. simpl in Ht. apply app_inv_head in Ht.
      eapply (no_exec_inside [Log _]); [repeat constructor| |exact Ht]. reflexivity. }
  destruct (decide (Run_options cmd cmdline = [])) as [Hopts|Hopts].
  { exfalso.
    destruct (Run_empty_options cmd label cmdline m m q Hq Hopts)
      as (evs & m2 & HR' & Ht' & Hne).
    rewrite HR in HR'. inversion HR'; subst. rewrite Ht in Ht'.
    apply app_inv_head in Ht'. symmetry in Ht'.
    eapply no_exec_inside; [exact Hne| |exact Ht']. reflexivity. }
  destruct (Run_decompose cmd label cmdline m m q Hq Hopts)
    as (pending & removed & m2 & Hp & HR' & Ht' & _ & Hw').
  rewrite HR in HR'. injection HR' as Hr Hm2. subst m2.
  destruct (armed_trace cmd q m) as (earm & Ea & Parm).
  pose proof (armed_heap cmd q m) as Hah.
  destruct (Run_body_cases cmd (Run_options cmd cmdline) (armed_env cmd q m)
              (mkCommandWrapper label (length (heap m))) (armed cmd q m))
    as (rb & mb & Erb & Hcases).
  { simpl. rewrite Hah. apply fresh_buffer_lookup. }
  rewrite Erb in Hp, Hr, Ht', Hw'. simpl in Hp, Hr, Ht', Hw'.
  rewrite out_loop_flushes in Ht'. simpl in Ht'.
  unfold allow_events in Ht'. rewrite bool_decide_true in Ht' by exact Hmode.
  rewrite Ht in Ht'. symmetry in Ht'.
  destruct Hcases as [(evs & e' & -> & Eb & Pb)
                     |[(sum & saved & chunks' & e' & ms & Hsaved & Esave & Eexec & -> & Eb & Ehb)
                      |(before & chunks' & after & Eb & Pbefore & Pafter)]].
  - exfalso.
    assert (Hshape :
      earm ++ evs ++ CallAllow (Chroot cmd) :: map Log (framed label pending)
        ++ cleanup_events q removed
      = pre ++ CallExec argv env chunks (Some e) :: post).
    { apply (app_inv_head (trace m)). rewrite <- Ht', Eb, Ea.
      repeat (rewrite <- ?app_assoc; simpl). reflexivity. }
    revert Hshape. apply no_exec_inside; [|reflexivity].
    apply Forall_app. split; [exact Parm|]. apply Forall_app. split; [exact Pb|].
    constructor; [reflexivity|]. apply Forall_app.
    split; [apply not_exec_logs | apply not_exec_cleanup].
  - rewrite Ehb in Hp. simpl in Hp.
    rewrite list_lookup_insert_eq in Hp
      by (rewrite Hah, length_app; simpl; lia).
    injection Hp as Hpend.
    inversion Hsaved as [Hnone| st data Hm Hs Hsv| | |]; [contradiction|].
    subst sum saved.
    assert (Hshape :
      (earm ++ CallLstat (chrootedconf cmd) st :: set_aside cmd st None
         ++ [CallReadFile hostconf (inl data);
             CallWriteFile (chrootedconf cmd) (generated_marker +:+ data) 420 None])
        ++ CallExec (Run_options cmd cmdline) (armed_env cmd q m) chunks' (Some e')
        :: (map Log (map (labeled label) (segments "" (merged chunks')).1)
            ++ CallAllow (Chroot cmd) :: map Log (framed label pending)
            ++ cleanup_events q removed)
      = pre ++ CallExec argv env chunks (Some e) :: post).
    { apply (app_inv_head (trace m)). rewrite <- Ht', Eb, Ea.
      repeat (rewrite <- ?app_assoc; simpl). reflexivity. }
    apply exec_unique in Hshape as (Hpre & Hev & Hpost); [| | |reflexivity].
    + inversion Hev; subst. split; [reflexivity|]. split; [reflexivity|].
      exists q, removed, st, data, earm. eexists _, _.
      split; [exact Hq|]. split; [reflexivity|]. split; [exact Parm|].
      split; [reflexivity|]. split; [apply framed_split|].
      exists ms, (world mb). repeat split; assumption.
    + apply Forall_app. split; [exact Parm|].
      unfold set_aside. destruct (negb _); repeat constructor.
    + apply Forall_app. split; [apply not_exec_logs|].
      constructor; [reflexivity|]. apply Forall_app.
      split; [apply not_exec_logs | apply not_exec_cleanup].
  - exfalso.
    assert (Hshape :
      (earm ++ before)
        ++ CallExec (Run_options cmd cmdline) (armed_env cmd q m) chunks' None
        :: (after ++ CallAllow (Chroot cmd) :: map Log (framed label pending)
            ++ cleanup_events q removed)
      = pre ++ CallExec argv env chunks (Some e) :: post).
    { apply (app_inv_head (trace m)). rewrite <- Ht', Eb, Ea.
      repeat (rewrite <- ?app_assoc; simpl). reflexivity. }
    apply exec_unique in Hshape as (_ & Hev & _); [discriminate Hev| | |reflexivity].
    + apply Forall_app. split; assumption.
    + apply Forall_app. split; [exact Pafter|].
      constructor; [reflexivity|]. apply Forall_app.
      split; [apply not_exec_logs | apply not_exec_cleanup].
Qed.

(** C7.  A run in a mode other than none whose process failed: [Run]
    returns the error of the process; before the process the save step
    had succeeded (the file in the chroot set aside if there was one, the
    overlay written in its place); after the process nothing is called
    but the logger, the service gate and the removal of the interpreter.
    The restore step is not entered: the overlay and the side-car stay as
    the process left them. *)
Theorem failed_command_skips_restore (cmd : Command) (label : string)
    (cmdline : list string) (m m' : machine W) (r : outcome (option error))
    (pre post : list event) (argv : list string) (env : option (list string))
    (chunks : list string) (e : error) :
  ChrootMethod cmd <> CHROOT_METHOD_NONE ->
  Run cmd label cmdline m = (r, m') ->
  trace m' = trace m ++ pre ++ CallExec argv env chunks (Some e) :: post ->
  r = Done (Some e) /\
  argv = Run_options cmd cmdline /\
  exists q removed st data before lines1 lines2,
    newQemuHelper cmd m = (Done q, m) /\
    pre = before
          ++ CallLstat (chrootedconf cmd) st :: set_aside cmd st None
          ++ [CallReadFile hostconf (inl data);
              CallWriteFile (chrootedconf cmd) (generated_marker +:+ data) 420 None] /\
    Forall (fun e => not_exec e = true) before /\
    post = map Log lines1 ++ CallAllow (Chroot cmd) :: map Log lines2
           ++ cleanup_events q removed /\
    lines1 ++ lines2 = framed label (merged chunks) /\
    exists saved left,
      saveResolvConf cmd (armed cmd q m)
        = (Done (Some (sha256_Sum256 (generated_marker +:+ data)), None), saved) /\
      exec_Run argv env (world saved) = ((chunks, Some e), left) /\
      world m' = torn_down cmd q left.
Proof.
  intros Hmode HR Ht.
  exact (Run_failed_process cmd label cmdline m m' r pre post argv env chunks e
           Hmode HR Ht).
Qed.

Lemma spawned_not_exec (evs : list event) :
  Forall (fun e => not_exec e = true) evs -> spawned evs = [].
Proof.
  induction 1 as [|e evs He _ IH]; [reflexivity|].
  destruct e; try exact IH. discriminate He.
Qed.

Lemma spawned_app (l1 l2 : list event) : spawned (l1 ++ l2) = spawned l1 ++ spawned l2.
Proof. apply omap_app. Qed.

Lemma spawned_one (l1 l2 : list event) (argv : list string) (env : option (list string))
    (chunks : list string) (r : option error) :
  Forall (fun e => not_exec e = true) l1 ->
  Forall (fun e => not_exec e = true) l2 ->
  spawned (l1 ++ CallExec argv env chunks r :: l2) = [(argv, env)].
Proof.
  intros H1 H2. rewrite spawned_app, (spawned_not_exec l1 H1). simpl.
  change (spawned (CallExec argv env chunks r :: l2)) with ((argv, env) :: spawned l2).
  now rewrite (spawned_not_exec l2 H2).
Qed.

(** A run spawns at most one process, with the assembled argument vector
    and the environment read when the interpreter was set up. *)
Lemma Run_spawned (cmd : Command) (label : string) (cmdline : list string) (m : machine W) :
  exists evs,
    trace (Run cmd label cmdline m).2 = trace m ++ evs /\
    (spawned evs = [] \/
     exists q, newQemuHelper cmd m = (Done q, m) /\
               spawned evs = [(Run_options cmd cmdline, armed_env cmd q m)]).
Proof.
  destruct (newQemuHelper_cases cmd m) as [[q Hq] | (_ & _ & _ & Hq)].
  2:{ unfold Run, bind at 1. rewrite Hq. simpl. eexists. split; [reflexivity|]. now left. }
  destruct (decide (Run_options cmd cmdline = [])) as [Hopts|Hopts].
  { destruct (Run_empty_options cmd label cmdline m m q Hq Hopts)
      as (evs & m2 & HR & Ht & Hne).
    rewrite HR. exists evs. split; [exact Ht|]. left. now apply spawned_not_exec. }
  destruct (Run_decompose cmd label cmdline m m q Hq Hopts)
    as (pending & removed & m2 & Hp & HR & Ht & _ & _).
  rewrite HR. simpl.
  destruct (armed_trace cmd q m) as (earm & Ea & Parm).
  pose proof (armed_heap cmd q m) as Hah.
  destruct (Run_body_cases cmd (Run_options cmd cmdline) (armed_env cmd q m)
              (mkCommandWrapper label (length (heap m))) (armed cmd q m))
    as (rb & mb & Erb & Hcases).
  { simpl. rewrite Hah. apply fresh_buffer_lookup. }
  rewrite Erb in Ht. simpl in Ht. rewrite out_loop_flushes in Ht. simpl in Ht.
  assert (Ptail : Forall (fun e => not_exec e = true)
                    (allow_events cmd ++ map Log (framed label pending)
                       ++ cleanup_events q removed)).
  { apply Forall_app. split; [apply not_exec_allow|]. apply Forall_app.
    split; [apply not_exec_logs | apply not_exec_cleanup]. }
  destruct Hcases as [(evs & e' & _ & Eb & Pb)
                     |[(sum & saved & chunks' & e' & ms & Hsaved & _ & _ & _ & Eb & _)
                      |(before & chunks' & after & Eb & Pbefore & Pafter)]].
  - exists (earm ++ evs ++ allow_events cmd ++ map Log (framed label pending)
              ++ cleanup_events q removed).
    split; [rewrite Ht, Eb, Ea; now rewrite <- !app_assoc|].
    left. apply spawned_not_exec. apply Forall_app. split; [exact Parm|].
    apply Forall_app. split; [exact Pb | exact Ptail].
  - exists ((earm ++ saved)
             ++ CallExec (Run_options cmd cmdline) (armed_env cmd q m) chunks' (Some e')
             :: (map Log (map (labeled label) (segments "" (merged chunks')).1)
                 ++ allow_events cmd ++ map Log (framed label pending)
                 ++ cleanup_events q removed)).
    split.
    + rewrite Ht, Eb, Ea. repeat (rewrite <- ?app_assoc; simpl). reflexivity.
    + right. exists q. split; [exact Hq|]. apply spawned_one.
      * apply Forall_app. split; [exact Parm|]. eapply not_exec_save; exact Hsaved.
      * apply Forall_app. split; [apply not_exec_logs | exact Ptail].
  - exists ((earm ++ before)
             ++ CallExec (Run_options cmd cmdline) (armed_env cmd q m) chunks' None
             :: (after ++ allow_events cmd ++ map Log (framed label pending)
                 ++ cleanup_events q removed)).
    split.
    + rewrite Ht, Eb, Ea. repeat (rewrite <- ?app_assoc; simpl). reflexivity.
    + right. exists q. split; [exact Hq|]. apply spawned_one.
      * apply Forall_app. split; assumption.
      * apply Forall_app. split; [exact Pafter | exact Ptail].
Qed.

(** C4.  The argument vector per isolation mode: the command line as it
    is for mode none; [chroot <chrootPath>] and the command line for the
    classic chroot; for the namespace container the tool, its fixed flags,
    one [--setenv] per extra environment assignment in declared order, one
    [--bind] per bind mount in declared order, [-D <chrootPath>] and the
    command line.  A run spawns at most one process, and spawns it with
    that vector. *)
Theorem argument_vector_shape
    (arch dir chroot : string) (binds env cmdline : list string) :
  Run_options (mkCommand arch dir chroot CHROOT_METHOD_NONE binds env) cmdline = cmdline /\
  Run_options (mkCommand arch dir chroot CHROOT_METHOD_CHROOT binds env) cmdline =
    "chroot" :: chroot :: cmdline /\
  Run_options (mkCommand arch dir chroot CHROOT_METHOD_NSPAWN binds env) cmdline =
    "systemd-nspawn" :: nspawn_flags
      ++ flat_map (fun e => ["--setenv"; e]) env
      ++ flat_map (fun b => ["--bind"; b]) binds
      ++ ["-D"; chroot] ++ cmdline /\
  forall (mode : ChrootEnterMethod) (label : string) (m : machine W),
    exists evs,
      trace (Run (mkCommand arch dir chroot mode binds env) label cmdline m).2
        = trace m ++ evs /\
      (spawned evs = [] \/
       exists environment,
         spawned evs =
           [(Run_options (mkCommand arch dir chroot mode binds env) cmdline, environment)]).
Proof.
  split; [reflexivity|]. split; [reflexivity|]. split.
  - unfold Run_options. simpl.
    rewrite !fold_left_flags. simpl. rewrite <- !app_assoc. reflexivity.
  - intros mode label m.
    destruct (Run_spawned (mkCommand arch dir chroot mode binds env) label cmdline m)
      as (evs & Ht & [Hs | (q & _ & Hs)]); exists evs; (split; [exact Ht|]).
    + now left.
    + right. eexists. exact Hs.
Qed.

(** C3, as the code has it.  In the classic-chroot mode the argument
    vector is [chroot <chrootPath>] and the command line, with neither a
    bind mount nor an environment assignment in it; the bind mounts have
    no effect on the run at all; the extra environment assignments are not
    dropped: when there are any, the process is given the host's
    environment, as [os.Environ] answers once the interpreter is set up,
    followed by them; when there are none its environment is left unset,
    so that it inherits the host's. *)
Theorem classic_chroot_drops_mounts_keeps_env
    (arch dir chroot label : string) (binds binds' env cmdline : list string)
    (m : machine W) :
  Run_options (mkCommand arch dir chroot CHROOT_METHOD_CHROOT binds env) cmdline
    = "chroot" :: chroot :: cmdline /\
  Run (mkCommand arch dir chroot CHROOT_METHOD_CHROOT binds env) label cmdline m
    = Run (mkCommand arch dir chroot CHROOT_METHOD_CHROOT binds' env) label cmdline m /\
  exists evs,
    trace (Run (mkCommand arch dir chroot CHROOT_METHOD_CHROOT binds env) label cmdline m).2
      = trace m ++ evs /\
    (spawned evs = [] \/
     exists q,
       newQemuHelper (mkCommand arch dir chroot CHROOT_METHOD_CHROOT binds env) m
         = (Done q, m) /\
       spawned evs =
         [("chroot" :: chroot :: cmdline,
           if bool_decide (env = []) then None
           else Some (os_Environ (world (Setup q m).2) ++ env))]).
Proof.
  split; [reflexivity|]. split; [reflexivity|].
  destruct (Run_spawned (mkCommand arch dir chroot CHROOT_METHOD_CHROOT binds env)
              label cmdline m)
    as (evs & Ht & [Hs | (q & Hq & Hs)]); exists evs; (split; [exact Ht|]).
  - now left.
  - right. exists q. split; [exact Hq|]. rewrite Hs. unfold armed_env, exe_Env. simpl.
    destruct env as [|e0 env]; simpl; reflexivity.
Qed.

(** Mounts reach the container tool in the order of the [AddBindMount]
    calls: a later mount comes after the earlier ones. *)
Lemma AddBindMount_order
    (arch dir chroot source : string) (binds env cmdline : list string) :
  Run_options
    (AddBindMount (mkCommand arch dir chroot CHROOT_METHOD_NSPAWN binds env) source "")
    cmdline =
  "systemd-nspawn" :: nspawn_flags
    ++ flat_map (fun e => ["--setenv"; e]) env
    ++ flat_map (fun b => ["--bind"; b]) binds ++ ["--bind"; source]
    ++ ["-D"; chroot] ++ cmdline.
Proof.
  unfold Run_options, AddBindMount. simpl.
  rewrite !fold_left_flags, flat_map_app. simpl. rewrite <- !app_assoc. reflexivity.
Qed.

(** What a built helper looks like. *)
Lemma newQemuHelper_shape (cmd : Command) (m m0 : machine W) (q : qemuHelper) :
  newQemuHelper cmd m = (Done q, m0) ->
  qemusrc q = "" \/
  exists natives bin,
    (Architecture cmd, (natives, bin)) ∈ compatibility_table /\
    q = mkQemuHelper bin (path_Join (Chroot cmd) bin).
Proof.
  intros Hq.
  destruct (decide (Chroot cmd = "")) as [Hc|Hc].
  { rewrite newQemuHelper_unset in Hq by now left. inversion Hq. now left. }
  destruct (decide (Architecture cmd = "")) as [Ha|Ha].
  { rewrite newQemuHelper_unset in Hq by now right. inversion Hq. now left. }
  destruct (decide (Architecture cmd ∈ supported_architectures)) as [Hin|Hout].
  - unfold supported_architectures in Hin.
    apply list_elem_of_fmap in Hin as ([arch [natives bin]] & Earch & Hin).
    simpl in Earch. subst arch.
    rewrite (newQemuHelper_row cmd m natives bin Hc Ha Hin) in Hq.
    inversion Hq as [[Eq Em]].
    destruct (table_needs_emulation natives GOARCH); [|now left].
    right. now exists natives, bin.
  - rewrite newQemuHelper_unknown in Hq by assumption. discriminate.
Qed.

End Proofs.

(** ** Paths

    Where the guard's files and the interpreter end up: three different
    paths, whatever the chroot path is. *)

Lemma string_app_nonempty (a b : string) : b <> "" -> a +:+ b <> "".
Proof.
  intros Hb. destruct a as [|c a]; [exact Hb|]. rewrite string_app_cons. discriminate.
Qed.

Lemma last_char_app (a b : string) : b <> "" -> last_char (a +:+ b) = last_char b.
Proof.
  intros Hb. induction a as [|c a IH]; [reflexivity|].
  rewrite string_app_cons. simpl. destruct (a +:+ b) eqn:E; [|exact IH].
  destruct a; [|discriminate]. now rewrite string_app_nil_l in E.
Qed.

Lemma split_slash_app (cur a b : string) :
  split_slash cur (a +:+ String "/" b) = split_slash cur a ++ split_slash "" b.
Proof.
  revert cur. induction a as [|c a IH]; intros cur; [reflexivity|].
  rewrite string_app_cons. simpl. destruct (Ascii.eqb c "/"); [|apply IH].
  now rewrite IH.
Qed.

Lemma clean_step_plain (rooted : bool) (stack : list string) (name : string) :
  plain name -> clean_step rooted stack name = name :: stack.
Proof.
  intros (H1 & H2 & H3 & _). unfold clean_step.
  now rewrite !bool_decide_false by assumption.
Qed.

Lemma last_char_nonempty (s : string) : s <> "" -> last_char s <> None.
Proof.
  induction s as [|c s IH]; [contradiction|]. intros _. simpl.
  destruct s; [discriminate|]. now apply IH.
Qed.

Lemma join_slash_last (comps : list string) (name : string) :
  name <> "" -> last_char (join_slash (comps ++ [name])) = last_char name.
Proof.
  intros Hn. pose proof (last_char_nonempty name Hn) as Hl.
  induction comps as [|c comps IH]; [reflexivity|].
  change (join_slash ((c :: comps) ++ [name]))
    with (join_slash (c :: (comps ++ [name]))).
  destruct (comps ++ [name]) as [|y l] eqn:E; [now destruct comps|].
  change (join_slash (c :: y :: l)) with (c +:+ String "/" (join_slash (y :: l))).
  rewrite last_char_app by discriminate.
  remember (join_slash (y :: l)) as J eqn:Ej.
  destruct J as [|a J]; [simpl in IH; congruence | exact IH].
Qed.

Lemma path_Clean_last (x name : string) :
  plain name -> last_char (path_Clean (x +:+ String "/" name)) = last_char name.
Proof.
  intros Hp. pose proof Hp as (Hne & _ & _ & Hsplit).
  unfold path_Clean. rewrite bool_decide_false by (now apply string_app_nonempty).
  rewrite split_slash_app, Hsplit, fold_left_app. simpl.
  rewrite clean_step_plain by exact Hp. simpl.
  set (stack := fold_left _ _ _).
  assert (Hbody : join_slash (rev stack ++ [name]) <> "").
  { intros E. pose proof (join_slash_last (rev stack) name Hne) as Hl.
    apply (last_char_nonempty name Hne). now rewrite <- Hl, E. }
  destruct (is_rooted _).
  - change ("/" +:+ join_slash (rev stack ++ [name]))
      with (String "/" (join_slash (rev stack ++ [name]))).
    simpl. destruct (join_slash (rev stack ++ [name])) eqn:Ej; [contradiction|].
    rewrite <- Ej. now apply join_slash_last.
  - rewrite bool_decide_false by exact Hbody. now apply join_slash_last.
Qed.

Lemma path_Join_last (a dir name : string) :
  plain name ->
  last_char (path_Join a (dir +:+ String "/" name)) = last_char name.
Proof.
  intros Hp. unfold path_Join.
  rewrite (bool_decide_false (dir +:+ String "/" name = ""))
    by (now apply string_app_nonempty).
  case_bool_decide.
  - now apply path_Clean_last.
  - change (a +:+ "/" +:+ dir +:+ String "/" name)
      with (a +:+ String "/" (dir +:+ String "/" name)).
    rewrite <- string_app_cons, <- string_app_assoc. now apply path_Clean_last.
Qed.

Lemma chrootedconf_last (cmd : Command) : last_char (chrootedconf cmd) = Some "f"%char.
Proof.
  unfold chrootedconf, hostconf.
  change "/etc/resolv.conf" with ("/etc" +:+ String "/" "resolv.conf").
  rewrite path_Join_last; [reflexivity|]. repeat split; discriminate.
Qed.

Lemma savedconf_last (cmd : Command) : last_char (savedconf cmd) = Some "s"%char.
Proof. unfold savedconf. now rewrite last_char_app. Qed.

Lemma guard_paths_differ (cmd : Command) :
  chrootedconf cmd <> savedconf cmd /\ hostconf <> savedconf cmd.
Proof.
  split; intros E; apply (f_equal last_char) in E;
    rewrite savedconf_last in E; [rewrite chrootedconf_last in E|]; discriminate.
Qed.

Lemma interpreter_paths :
  Forall (fun row : string * (list string * string) =>
            exists name, plain name /\ last_char name = Some "c"%char /\
                         row.2.2 = "/usr/bin" +:+ String "/" name)
    compatibility_table.
Proof.
  unfold compatibility_table.
  repeat (constructor;
          [eexists; split; [|split; [|reflexivity]];
           [repeat split; discriminate | reflexivity]|]).
  constructor.
Qed.

(** The interpreter is copied to a path that is none of the guard's. *)
Lemma qemutarget_apart {W : Type} `{Host W} (cmd : Command) (m m0 : machine W)
    (q : qemuHelper) :
  newQemuHelper cmd m = (Done q, m0) ->
  qemusrc q = "" \/
  (qemutarget q <> chrootedconf cmd /\ qemutarget q <> savedconf cmd /\
   qemutarget q <> hostconf).
Proof.
  intros Hq. destruct (newQemuHelper_shape cmd m m0 q Hq)
    as [Hs | (natives & bin & Hrow & ->)]; [now left|].
  right. pose proof interpreter_paths as Hp. rewrite Forall_forall in Hp.
  destruct (Hp _ Hrow) as (name & Hplain & Hlast & Ebin). simpl in Ebin. subst bin.
  simpl qemutarget.
  assert (Hq' : last_char (path_Join (Chroot cmd) ("/usr/bin" +:+ String "/" name))
                = Some "c"%char)
    by (rewrite path_Join_last by exact Hplain; exact Hlast).
  repeat split; intros E; rewrite E in Hq'.
  - rewrite chrootedconf_last in Hq'. discriminate.
  - rewrite savedconf_last in Hq'. discriminate.
  - discriminate.
Qed.

(** ** The guard on the in-memory file system *)

Section OnMem.
Variable goarch : string.

(** A successful save leaves the overlay, with mode 0644, where the
    target's resolv.conf was, and the target's resolv.conf at the side-car
    path; the overlay is the marker and the host's resolv.conf. *)
Lemma Mem_save (cmd : Command) (m saved : machine Mem.fsworld) (sum : string) :
  saveResolvConf (H := Mem.host goarch) cmd m = (Done (Some sum, None), saved) ->
  exists content,
    sum = generated_marker +:+ content /\
    Mem.data <$> Mem.files (world m) !! hostconf = Some content /\
    Mem.files (world saved) !! chrootedconf cmd
      = Some (Mem.mkNode 420 (generated_marker +:+ content)) /\
    (forall n, Mem.files (world m) !! chrootedconf cmd = Some n ->
               Mem.files (world saved) !! savedconf cmd = Some n) /\
    Mem.program (world saved) = Mem.program (world m).
Proof.
  destruct (guard_paths_differ cmd) as [Hcs Hhs].
  unfold saveResolvConf. case_bool_decide; [discriminate|].
  unfold bind, Lstat, Rename, ReadFile, WriteFile, call. simpl.
  unfold Mem.lstat.
  destruct (Mem.files (world m) !! chrootedconf cmd) as [n|] eqn:Ec; simpl.
  - unfold Mem.rename. rewrite Ec. simpl.
    unfold Mem.read_file. simpl.
    rewrite lookup_insert_ne by (intros E; now apply Hhs).
    destruct (decide (chrootedconf cmd = hostconf)) as [Ech|Ech].
    { rewrite Ech, lookup_delete_eq. simpl. discriminate. }
    rewrite lookup_delete_ne by exact Ech.
    destruct (Mem.files (world m) !! hostconf) as [hn|] eqn:Eh; simpl; [|discriminate].
    destruct (IsRegular (Mem.mode hn)); simpl; [|discriminate].
    unfold Mem.write_file. simpl.
    rewrite lookup_insert_ne by (intros E; now apply Hcs).
    rewrite lookup_delete_eq. simpl.
    intros E. inversion E; subst. simpl. exists (Mem.data hn).
    split; [reflexivity|]. split; [reflexivity|].
    split; [apply lookup_insert_eq|]. split; [|reflexivity].
    intros n0 En0. inversion En0; subst.
    rewrite lookup_insert_ne by exact Hcs. apply lookup_insert_eq.
  - unfold Mem.read_file. simpl.
    destruct (Mem.files (world m) !! hostconf) as [hn|] eqn:Eh; simpl; [|discriminate].
    destruct (IsRegular (Mem.mode hn)); simpl; [|discriminate].
    unfold Mem.write_file. simpl. rewrite Ec. simpl.
    intros E. inversion E; subst. simpl. exists (Mem.data hn).
    split; [reflexivity|]. split; [reflexivity|].
    split; [apply lookup_insert_eq|]. split; [|reflexivity].
    intros n0 En0. discriminate En0.
Qed.

(** Arming a run copies at most the interpreter. *)
Lemma Mem_armed (cmd : Command) (q : qemuHelper) (m : machine Mem.fsworld) (p : string) :
  qemusrc q = "" \/ p <> qemutarget q ->
  Mem.files (world (armed (H := Mem.host goarch) cmd q m)) !! p
    = Mem.files (world m) !! p /\
  Mem.program (world (armed (H := Mem.host goarch) cmd q m)) = Mem.program (world m).
Proof.
  intros Hp. unfold armed. rewrite Setup_spec. simpl. unfold Mem.copy_file, Mem.read_file.
  repeat case_bool_decide; simpl; try (split; reflexivity);
    destruct (Mem.files (world m) !! qemusrc q) as [n|]; simpl;
    try destruct (IsRegular (Mem.mode n)); simpl; try (split; reflexivity);
    (split; [|reflexivity]); destruct Hp as [Hp|Hp]; try contradiction;
    now rewrite lookup_insert_ne.
Qed.

(** The teardown removes at most the interpreter. *)
Lemma Mem_torn_down (cmd : Command) (q : qemuHelper) (w : Mem.fsworld) (p : string) :
  qemusrc q = "" \/ p <> qemutarget q ->
  Mem.files (torn_down (H := Mem.host goarch) cmd q w) !! p = Mem.files w !! p.
Proof.
  intros Hp. unfold torn_down. simpl. unfold Mem.remove.
  repeat case_bool_decide; simpl; try reflexivity;
    destruct (Mem.files w !! qemutarget q); simpl; try reflexivity;
    destruct Hp as [Hp|Hp]; try contradiction; now rewrite lookup_delete_ne.
Qed.

(** After a failed command, on the in-memory file system: if the process
    itself left the two files of the guard alone, the overlay (marker and
    host resolv.conf) is still where the target's resolv.conf was, and the
    target's resolv.conf, if there was one, is still at the side-car
    path. *)
Lemma Mem_overlay_survives_failure (cmd : Command) (label : string)
    (cmdline : list string) (w : Mem.fsworld) (m' : machine Mem.fsworld)
    (r : outcome (option error)) (pre post : list event) (argv : list string)
    (env : option (list string)) (chunks : list string) (e : error) :
  ChrootMethod cmd <> CHROOT_METHOD_NONE ->
  Run (H := Mem.host goarch) cmd label cmdline (Mem.boot w) = (r, m') ->
  trace m' = pre ++ CallExec argv env chunks (Some e) :: post ->
  (forall fs st fs',
     Mem.program w argv env fs = (st, fs') ->
     fs' !! chrootedconf cmd = fs !! chrootedconf cmd /\
     fs' !! savedconf cmd = fs !! savedconf cmd) ->
  r = Done (Some e) /\
  exists content,
    Mem.data <$> Mem.files w !! hostconf = Some content /\
    Mem.files (world m') !! chrootedconf cmd
      = Some (Mem.mkNode 420 (generated_marker +:+ content)) /\
    (forall n, Mem.files w !! chrootedconf cmd = Some n ->
               Mem.files (world m') !! savedconf cmd = Some n).
Proof.
  intros Hmode HR Ht Hproc.
  destruct (Run_failed_process cmd label cmdline (Mem.boot w) m' r
              pre post argv env chunks e Hmode HR Ht)
    as (Hr & _ & q & removed & st & data & before & l1 & l2 & Hq & _ & _ & _ & _
        & saved & left & Esave & Eexec & Hw).
  split; [exact Hr|].
  assert (Hap : forall p, p = chrootedconf cmd \/ p = savedconf cmd \/ p = hostconf ->
                          qemusrc q = "" \/ p <> qemutarget q).
  { intros p Hp. destruct (qemutarget_apart cmd _ _ q Hq) as [Hs|(Ha & Hb & Hc)];
      [now left|].
    right. destruct Hp as [-> | [-> | ->]]; intros E; symmetry in E; contradiction. }
  destruct (Mem_save cmd _ _ _ Esave) as (content & _ & Hhost & Hover & Hside & Hprog).
  destruct (Mem_armed cmd q (Mem.boot w) hostconf) as [Hah Hpw]; [apply Hap; auto|].
  destruct (Mem_armed cmd q (Mem.boot w) (chrootedconf cmd)) as [Hac _]; [apply Hap; auto|].
  rewrite Hah in Hhost. rewrite Hpw in Hprog. simpl in Hhost, Hprog.
  simpl in Eexec. unfold Mem.run_program in Eexec. rewrite Hprog in Eexec.
  destruct (Mem.program w argv env (Mem.files (world saved))) as [st' fs'] eqn:Ep.
  destruct (Hproc _ _ _ Ep) as [Hpc Hps].
  inversion Eexec; subst.
  exists content. split; [exact Hhost|]. rewrite Hw.
  rewrite !Mem_torn_down by (apply Hap; auto). simpl.
  split; [now rewrite Hpc|].
  intros n Hn. rewrite Hps. apply Hside. now rewrite Hac.
Qed.

End OnMem.

(** ** Runs on the in-memory host *)

Example path_Join_chroot :
  path_Join "/build/root" "/etc/resolv.conf" = "/build/root/etc/resolv.conf".
Proof. reflexivity. Qed.

Example path_Join_trailing_slash :
  path_Join "/build/root/" "/usr/bin/qemu-arm-static" = "/build/root/usr/bin/qemu-arm-static".
Proof. reflexivity. Qed.

Example path_Join_dots :
  path_Join "a/./b/.." "../../../c" = "../../c".
Proof. reflexivity. Qed.

Example path_Join_empty_chroot :
  path_Join "" "/etc/resolv.conf" = "/etc/resolv.conf".
Proof. reflexivity. Qed.

(** The scenario of the specification: armhf on amd64 in a namespace
    container with one bind mount.  The process sees the interpreter; it
    is gone afterwards, and the target's resolv.conf is back. *)
Example armhf_container_run :
  let w := Scenario.world_of Scenario.files_with_qemu None in
  let r := Scenario.run Scenario.armhf_container ["true"] w in
  r.1 = Done None /\
  spawned (trace r.2) =
    [(["systemd-nspawn"; "-q"; "--resolv-conf=off"; "--timezone=off"; "--register=no";
       "--keep-unit"; "--console=pipe"; "--bind"; "/pkg/app.deb"; "-D"; "/build/root";
       "true"], None)] /\
  logged (trace r.2) = ["build | a" +:+ nl; "build | b" +:+ nl] /\
  Mem.files (world r.2) !! "/build/root/usr/bin/qemu-arm-static" = None /\
  Mem.files (world r.2) !! "/build/root/etc/resolv.conf" = Some Scenario.target_resolv /\
  Mem.files (world r.2) !! "/build/root/etc/resolv.conf.debos" = None.
Proof. vm_compute. repeat split. Qed.

(** C1, on an amd64 and on an arm64 host: armhf needs the static ARM
    interpreter on the first and nothing on the second; sparc is in no
    row of the table and the run panics. *)
Lemma emulation_decision_witness :
  Chroot Scenario.armhf_container <> "" /\
  Architecture Scenario.armhf_container <> "" /\
  Chroot Scenario.sparc_container <> "" /\
  Architecture Scenario.sparc_container <> "" /\
  (exists q,
     @newQemuHelper _ (Mem.host "amd64") Scenario.armhf_container
       (Mem.boot (Scenario.world_of Scenario.files None))
     = (Done q, Mem.boot (Scenario.world_of Scenario.files None)) /\
     needs_emulation q = true /\
     qemusrc q = "/usr/bin/qemu-arm-static" /\
     qemutarget q = "/build/root/usr/bin/qemu-arm-static") /\
  (exists q,
     @newQemuHelper _ (Mem.host "arm64") Scenario.armhf_container
       (Mem.boot (Scenario.world_of Scenario.files None))
     = (Done q, Mem.boot (Scenario.world_of Scenario.files None)) /\
     needs_emulation q = false) /\
  (exists msg m',
     Scenario.run Scenario.sparc_container ["true"] (Scenario.world_of Scenario.files None)
     = (Panic msg, m')).
Proof.
  assert (Ha : Chroot Scenario.armhf_container <> "") by discriminate.
  assert (Hb : Architecture Scenario.armhf_container <> "") by discriminate.
  assert (Hc : Chroot Scenario.sparc_container <> "") by discriminate.
  assert (Hd : Architecture Scenario.sparc_container <> "") by discriminate.
  do 4 (split; [assumption|]).
  split; [|split].
  - destruct (emulation_decision_matches_table (H := Mem.host "amd64")
                Scenario.armhf_container
                (Mem.boot (Scenario.world_of Scenario.files None)) Ha Hb) as [Hrow _].
    destruct (Hrow ["arm64"; "arm"] "/usr/bin/qemu-arm-static")
      as (q & Hq & Hn & Hs & Ht); [vm_compute; left|].
    exists q. repeat split; assumption.
  - destruct (emulation_decision_matches_table (H := Mem.host "arm64")
                Scenario.armhf_container
                (Mem.boot (Scenario.world_of Scenario.files None)) Ha Hb) as [Hrow _].
    destruct (Hrow ["arm64"; "arm"] "/usr/bin/qemu-arm-static")
      as (q & Hq & Hn & _); [vm_compute; left|].
    exists q. split; assumption.
  - destruct (emulation_decision_matches_table (H := Mem.host "amd64")
                Scenario.sparc_container
                (Mem.boot (Scenario.world_of Scenario.files None)) Hc Hd) as [_ Hout].
    destruct Hout as (msg & line & _ & Hrun).
    + unfold supported_architectures, compatibility_table. simpl.
      intros Hin. repeat (apply elem_of_cons in Hin as [Hin | Hin]; [discriminate Hin|]).
      now apply elem_of_nil in Hin.
    + eexists _, _. apply Hrun.
Defined.

(** C2, at the failing input: armhf on amd64, no static interpreter on
    the host.  The copy fails; [Run] goes on, spawns the process and
    returns no error. *)
Theorem copy_failure_does_not_abort :
  let w := Scenario.world_of Scenario.files None in
  let r := Scenario.run Scenario.armhf_container ["true"] w in
  head (trace r.2) =
    Some (CallCopyFile "/usr/bin/qemu-arm-static" "/build/root/usr/bin/qemu-arm-static" 493
            (Some (Mem.ENOENT "/usr/bin/qemu-arm-static"))) /\
  r.1 = Done None /\
  spawned (trace r.2) =
    [(["systemd-nspawn"; "-q"; "--resolv-conf=off"; "--timezone=off"; "--register=no";
       "--keep-unit"; "--console=pipe"; "--bind"; "/pkg/app.deb"; "-D"; "/build/root";
       "true"], None)].
Proof. vm_compute. repeat split. Qed.

(** C3 fails for the environment: in the classic-chroot mode the extra
    assignment [K=V] reaches the process, behind the host's environment;
    without it the process inherits the host's environment untouched. *)
Lemma classic_chroot_env_counterexample :
  let w := Scenario.world_of Scenario.files None in
  spawned (trace (Scenario.run (Scenario.classic ["K=V"]) ["env"] w).2) =
    [(["chroot"; "/build/root"; "env"], Some ["PATH=/bin"; "K=V"])] /\
  spawned (trace (Scenario.run (Scenario.classic []) ["env"] w).2) =
    [(["chroot"; "/build/root"; "env"], None)] /\
  spawned (trace (Scenario.run (Scenario.classic ["K=V"]) ["env"] w).2) <>
  spawned (trace (Scenario.run (Scenario.classic []) ["env"] w).2).
Proof. vm_compute. repeat split. discriminate. Qed.

(** C1 fails without a chroot path: [sparc] is in no row of the table,
    yet with the chroot path unset the helper is built, empty and without
    a word in the log, and [Run] goes on to run the command. *)
Lemma unknown_architecture_counterexample :
  let w := Scenario.world_of Scenario.files None in
  let cmd := mkCommand "sparc" "" "" CHROOT_METHOD_NONE [] [] in
  ~ ("sparc" ∈ supported_architectures) /\
  newQemuHelper (H := Mem.host "amd64") cmd (Mem.boot w)
    = (Done (mkQemuHelper "" ""), Mem.boot w) /\
  (Scenario.run cmd ["true"] w).1 = Done None /\
  spawned (trace (Scenario.run cmd ["true"] w).2) = [(["true"], None)].
Proof.
  intros w cmd. split.
  - apply (bool_decide_eq_false_1 _). vm_compute. reflexivity.
  - vm_compute. repeat split.
Qed.

(** C6 fails for the missing file: the command deleted the overlay; the
    restore step returns without an error and without logging anything,
    and removes the side-car. *)
Lemma restore_missing_counterexample :
  let w := Scenario.world_of Scenario.files_resolv_deleted None in
  let r := Scenario.restore Scenario.armhf_container (Some Scenario.overlay) w in
  Mem.files w !! "/build/root/etc/resolv.conf" = None /\
  r.1 = Done None /\
  trace r.2 =
    [CallLstat "/build/root/etc/resolv.conf"
       (inr (Mem.ENOENT "/build/root/etc/resolv.conf"));
     CallRemove "/build/root/etc/resolv.conf.debos" None] /\
  logged (trace r.2) = [] /\
  Log (log_line not_regular_warning) ∉ trace r.2.
Proof.
  vm_compute. repeat split.
  intros Hin. repeat (apply elem_of_cons in Hin as [Hin | Hin]; [discriminate Hin|]).
  now apply elem_of_nil in Hin.
Qed.

(** C7, for the armhf container whose command exits with status 1: the
    error is returned, the overlay is in place and the target's own
    resolv.conf is still at the side-car path. *)
Lemma failed_command_witness :
  let w := Scenario.world_of Scenario.files (Some Scenario.exit_status_1) in
  let r := Scenario.run Scenario.armhf_container ["true"] w in
  ChrootMethod Scenario.armhf_container <> CHROOT_METHOD_NONE /\
  Scenario.run Scenario.armhf_container ["true"] w = (r.1, r.2) /\
  trace r.2 =
    trace (Mem.boot w) ++ take 6 (trace r.2)
      ++ CallExec (Run_options Scenario.armhf_container ["true"]) None Scenario.output
           (Some Scenario.exit_status_1)
      :: drop 7 (trace r.2) /\
  r.1 = Done (Some Scenario.exit_status_1) /\
  drop 7 (trace r.2) =
    [Log ("build | a" +:+ nl); CallAllow "/build/root"; Log ("build | b" +:+ nl);
     CallRemove "/build/root/usr/bin/qemu-arm-static"
       (Some (Mem.ENOENT "/build/root/usr/bin/qemu-arm-static"))] /\
  Mem.data <$> Mem.files (world r.2) !! "/build/root/etc/resolv.conf"
    = Some Scenario.overlay /\
  Mem.files (world r.2) !! "/build/root/etc/resolv.conf.debos"
    = Some Scenario.target_resolv.
Proof.
  intros w r.
  assert (H1 : ChrootMethod Scenario.armhf_container <> CHROOT_METHOD_NONE) by discriminate.
  assert (H2 : Scenario.run Scenario.armhf_container ["true"] w = (r.1, r.2))
    by (vm_compute; reflexivity).
  assert (H3 : trace r.2 =
    trace (Mem.boot w) ++ take 6 (trace r.2)
      ++ CallExec (Run_options Scenario.armhf_container ["true"]) None Scenario.output
           (Some Scenario.exit_status_1)
      :: drop 7 (trace r.2)) by (vm_compute; reflexivity).
  do 3 (split; [assumption|]).
  destruct (failed_command_skips_restore (H := Mem.host "amd64")
              Scenario.armhf_container "build" ["true"] (Mem.boot w) r.2 r.1
              (take 6 (trace r.2)) (drop 7 (trace r.2))
              (Run_options Scenario.armhf_container ["true"]) None Scenario.output
              Scenario.exit_status_1 H1 H2 H3) as (Hr & _).
  split; [exact Hr|]. vm_compute. repeat split.
Defined.

(** C8, for the armhf container on a host without resolv.conf: the save
    step fails, [Run] returns its error without spawning anything, and
    the service gate is re-enabled and the interpreter's removal called
    all the same. *)
Lemma teardown_witness :
  let w := Scenario.world_of Scenario.files_without_host_resolv None in
  let m := Mem.boot w in
  let q := mkQemuHelper "/usr/bin/qemu-arm-static" "/build/root/usr/bin/qemu-arm-static" in
  @newQemuHelper _ (Mem.host "amd64") Scenario.armhf_container m = (Done q, m) /\
  Run_options Scenario.armhf_container ["true"] <> [] /\
  (exists r m' body pending removed,
     Scenario.run Scenario.armhf_container ["true"] w = (r, m') /\
     trace m' =
       trace m ++ body ++ allow_events Scenario.armhf_container
         ++ map Log (framed "build" pending) ++ cleanup_events q removed /\
     heap m' !! length (heap m) = Some "") /\
  (Scenario.run Scenario.armhf_container ["true"] w).1
    = Done (Some (Mem.ENOENT "/etc/resolv.conf")) /\
  spawned (trace (Scenario.run Scenario.armhf_container ["true"] w).2) = [] /\
  drop 5 (trace (Scenario.run Scenario.armhf_container ["true"] w).2) =
    [CallAllow "/build/root";
     CallRemove "/build/root/usr/bin/qemu-arm-static"
       (Some (Mem.ENOENT "/build/root/usr/bin/qemu-arm-static"))].
Proof.
  intros w m q.
  assert (H1 : @newQemuHelper _ (Mem.host "amd64") Scenario.armhf_container m = (Done q, m))
    by (vm_compute; reflexivity).
  assert (H2 : Run_options Scenario.armhf_container ["true"] <> []) by discriminate.
  do 2 (split; [assumption|]).
  split.
  - destruct (teardown_on_every_exit (H := Mem.host "amd64")
                Scenario.armhf_container "build" ["true"] m m q H1 H2)
      as (r & m' & body & pending & removed & HR & _ & _ & Ht & Hh & _).
    exists r, m', body, pending, removed. repeat split; assumption.
  - vm_compute. repeat split.
Defined.


(** ** The body of a run, step by step *)

Section Runs.
Context {W : Type} `{Host W}.

#[local] Arguments restoreResolvConf : simpl never.

Lemma exe_Run_ran (argv : list string) (env : option (list string))
    (w : commandWrapper) (m : machine W) :
  heap m !! buffer w = Some "" ->
  exe_Run argv env w m = (Done (exec_Run argv env (world m)).1.2, ran argv env w m).
Proof. intros Hb. now rewrite exe_Run_spec. Qed.

(** [Run_body] as its three steps: a failed save returns at once, a failed
    process returns after its output is captured, and otherwise the
    outcome is that of the restore step. *)
Lemma Run_body_steps (cmd : Command) (options : list string) (env : option (list string))
    (w : commandWrapper) (m : machine W) :
  heap m !! buffer w = Some "" ->
  exists sum err evs ms,
    saveResolvConf cmd m = (Done (sum, err), ms) /\
    trace ms = trace m ++ evs /\ heap ms = heap m /\
    save_run cmd (sum, err) evs /\
    Run_body cmd options env w m =
      match err with
      | Some e => (Done (Some e), ms)
      | None =>
          match (exec_Run options env (world ms)).1.2 with
          | Some e => (Done (Some e), ran options env w ms)
          | None => restoreResolvConf cmd sum (ran options env w ms)
          end
      end.
Proof.
  intros Hb.
  destruct (saveResolvConf_protocol cmd m) as ([sum err] & evs & ms & ES & Ets & Ehs & Hrun & _).
  exists sum, err, evs, ms. repeat (split; [assumption|]).
  unfold Run_body, bind at 1. rewrite ES.
  destruct err as [e|]; [reflexivity|].
  unfold bind at 1. rewrite exe_Run_ran by (rewrite Ehs; exact Hb).
  destruct ((exec_Run options env (world ms)).1.2) as [e|]; [reflexivity|].
  unfold bind.
  destruct (restoreResolvConf cmd sum (ran options env w ms)) as [[[e|]|msg] mr];
    reflexivity.
Qed.

(** The restore step leaves the buffers alone, spawns nothing and logs at
    most its warning. *)
Lemma restoreResolvConf_quiet (cmd : Command) (sum : option string) (m : machine W) :
  exists evs,
    trace (restoreResolvConf cmd sum m).2 = trace m ++ evs /\
    heap (restoreResolvConf cmd sum m).2 = heap m /\
    Forall (fun e => not_exec e = true) evs /\
    (logged evs = [] \/ logged evs = [log_line not_regular_warning]).
Proof.
  unfold restoreResolvConf. destruct sum as [sum|].
  2:{ exists []. simpl. rewrite app_nil_r. repeat split; auto. }
  case_bool_decide as Hmode.
  { exists []. simpl. rewrite app_nil_r. repeat split; auto. }
  unfold defer, bind, Lstat, Rename, Remove, ReadFile, log_Printf, emit, call, ret, panic.
  repeat (simpl;
          match goal with
          | |- context [os_Lstat ?p ?w] => destruct (os_Lstat p w) as [? ?]
          | |- context [os_Rename ?p ?p' ?w] => destruct (os_Rename p p' w) as [? ?]
          | |- context [os_Remove ?p ?w] => destruct (os_Remove p w) as [? ?]
          | |- context [ioutil_ReadFile ?p ?w] => destruct (ioutil_ReadFile p w) as [? ?]
          | |- context [match ?x with Some _ => _ | None => _ end] => is_var x; destruct x
          | |- context [match ?x with inl _ => _ | inr _ => _ end] => is_var x; destruct x
          | |- context [if ?b then _ else _] => destruct b eqn:?
          end).
  all: eexists; simpl;
    (split; [rewrite <- ?app_assoc; simpl; reflexivity|]);
    (split; [reflexivity|]);
    (split; [repeat constructor|]);
    first [now left | now right].
Qed.

Lemma logged_app (l1 l2 : list event) : logged (l1 ++ l2) = logged l1 ++ logged l2.
Proof. apply omap_app. Qed.

Lemma logged_logs (lines : list string) : logged (map Log lines) = lines.
Proof. induction lines as [|l lines IH]; [reflexivity|]. simpl. now rewrite IH. Qed.

Lemma logged_allow (cmd : Command) : logged (allow_events cmd) = [].
Proof. unfold allow_events. now case_bool_decide. Qed.

Lemma logged_cleanup (q : qemuHelper) (r : option error) : logged (cleanup_events q r) = [].
Proof. unfold cleanup_events. now case_bool_decide. Qed.

Lemma logged_save (cmd : Command) (res : option string * option error) (evs : list event) :
  save_run cmd res evs -> logged evs = [].
Proof.
  intros Hrun. inversion Hrun; subst; unfold set_aside;
    try destruct (negb (os_IsNotExist (err_of st))); reflexivity.
Qed.

(** Arming a run logs nothing and spawns nothing. *)
Lemma armed_calls (cmd : Command) (q : qemuHelper) (m0 : machine W) :
  exists evs, trace (armed cmd q m0) = trace m0 ++ evs /\
              Forall (fun e => not_exec e = true) evs /\ logged evs = [].
Proof.
  unfold armed. rewrite Setup_spec.
  repeat case_bool_decide; simpl; eexists;
    (split; [rewrite <- ?app_assoc; first [reflexivity | symmetry; apply app_nil_r]|]);
    (split; [repeat constructor | reflexivity]).
Qed.

(** A run whose trace shows a process.  The helper was built and the save
    step succeeded on the armed machine; the process is the one [Run]
    assembled, started on the world the save step left; the outcome is the
    error of the process, or else that of the restore step, which runs on
    what the process left; the teardown follows. *)
Lemma Run_process (cmd : Command) (label : string) (cmdline : list string)
    (m m' : machine W) (r : outcome (option error)) (pre post : list event)
    (argv : list string) (env : option (list string)) (chunks : list string)
    (st : option error) :
  Run cmd label cmdline m = (r, m') ->
  trace m' = trace m ++ pre ++ CallExec argv env chunks st :: post ->
  exists q sum saved removed,
    newQemuHelper cmd m = (Done q, m) /\
    argv = Run_options cmd cmdline /\
    env = armed_env cmd q m /\
    saveResolvConf cmd (armed cmd q m) = (Done (sum, None), saved) /\
    (exec_Run argv env (world saved)).1 = (chunks, st) /\
    trace saved = trace m ++ pre /\
    logged pre = [] /\
    let w := mkCommandWrapper label (length (heap m)) in
    let ended :=
      match st with
      | Some e => (Done (Some e), ran argv env w saved)
      | None => restoreResolvConf cmd sum (ran argv env w saved)
      end in
    r = ended.1 /\
    world m' = torn_down cmd q (world ended.2) /\
    trace m' =
      trace ended.2 ++ allow_events cmd
        ++ map Log (framed label (segments "" (merged chunks)).2)
        ++ cleanup_events q removed.
Proof.
  intros HR Ht.
  destruct (newQemuHelper_cases cmd m) as [[q Hq] | (_ & _ & _ & Hq)].
  2:{ exfalso. unfold Run, bind at 1 in HR. rewrite Hq in HR.
      inversion HR; subst. simpl in Ht. apply app_inv_head in Ht.
      eapply (no_exec_inside [Log _]); [repeat constructor| |exact Ht]. reflexivity. }
  destruct (decide (Run_options cmd cmdline = [])) as [Hopts|Hopts].
  { exfalso.
    destruct (Run_empty_options cmd label cmdline m m q Hq Hopts)
      as (evs & m2 & HR' & Ht' & Hne).
    rewrite HR in HR'. inversion HR'; subst. rewrite Ht in Ht'.
    apply app_inv_head in Ht'. symmetry in Ht'.
    eapply no_exec_inside; [exact Hne| |exact Ht']. reflexivity. }
  destruct (Run_decompose cmd label cmdline m m q Hq Hopts)
    as (pending & removed & m2 & Hp & HR' & Ht' & _ & Hw').
  rewrite HR in HR'. injection HR' as Hr Hm2. subst m2.
  destruct (armed_calls cmd q m) as (earm & Ea & Parm & Larm).
  pose proof (armed_heap cmd q m) as Hah.
  set (w := mkCommandWrapper label (length (heap m))) in *.
  destruct (Run_body_steps cmd (Run_options cmd cmdline) (armed_env cmd q m) w (armed cmd q m))
    as (sum & err & esave & ms & ES & Ets & Ehs & Hrun & Erb).
  { simpl. rewrite Hah. apply fresh_buffer_lookup. }
  pose proof (not_exec_save _ _ _ Hrun) as Psave.
  pose proof (logged_save _ _ _ Hrun) as Lsave.
  rewrite out_loop_flushes in Ht'. simpl in Ht'.
  rewrite Ht in Ht'. symmetry in Ht'.
  destruct err as [e|].
  { exfalso. rewrite Erb in Ht'. simpl in Ht'.
    assert (Hshape :
      earm ++ esave ++ allow_events cmd ++ map Log (framed label pending)
        ++ cleanup_events q removed
      = pre ++ CallExec argv env chunks st :: post).
    { apply (app_inv_head (trace m)). rewrite <- Ht', Ets, Ea.
      repeat (rewrite <- ?app_assoc; simpl). reflexivity. }
    revert Hshape. apply no_exec_inside; [|reflexivity].
    repeat (apply Forall_app; split); auto using not_exec_allow, not_exec_logs,
      not_exec_cleanup. }
  set (argv0 := Run_options cmd cmdline) in *.
  set (env0 := armed_env cmd q m) in *.
  set (ended := match (exec_Run argv0 env0 (world ms)).1.2 with
                | Some e => (Done (Some e), ran argv0 env0 w ms)
                | None => restoreResolvConf cmd sum (ran argv0 env0 w ms)
                end) in *.
  assert (Hend : exists er,
             trace ended.2 = trace (ran argv0 env0 w ms) ++ er /\
             heap ended.2 = heap (ran argv0 env0 w ms) /\
             Forall (fun e => not_exec e = true) er).
  { subst ended. destruct ((exec_Run argv0 env0 (world ms)).1.2) as [e|].
    - exists []. simpl. rewrite app_nil_r. repeat split. constructor.
    - destruct (restoreResolvConf_quiet cmd sum (ran argv0 env0 w ms))
        as (er & Er & Eh & Per & _).
      exists er. repeat split; assumption. }
  destruct Hend as (er & Eend & Hend & Per).
  rewrite Erb in Hp, Hr, Ht', Hw'.
  assert (Hshape :
    (earm ++ esave)
      ++ CallExec argv0 env0 (exec_Run argv0 env0 (world ms)).1.1
           (exec_Run argv0 env0 (world ms)).1.2
      :: (map Log (map (labeled label)
                     (segments "" (merged (exec_Run argv0 env0 (world ms)).1.1)).1)
          ++ er ++ allow_events cmd ++ map Log (framed label pending)
          ++ cleanup_events q removed)
    = pre ++ CallExec argv env chunks st :: post).
  { apply (app_inv_head (trace m)). rewrite <- Ht', Eend. unfold ran. simpl.
    rewrite Ets, Ea. repeat (rewrite <- ?app_assoc; simpl). reflexivity. }
  apply exec_unique in Hshape as (Hpre & Hev & Hpost); [| | |reflexivity].
  2:{ apply Forall_app. split; assumption. }
  2:{ repeat (apply Forall_app; split); auto using not_exec_allow, not_exec_logs,
        not_exec_cleanup. }
  injection Hev as <- <- Hchunks Hst.
  rewrite Hend in Hp. unfold ran in Hp. simpl in Hp.
  rewrite list_lookup_insert_eq in Hp
    by (rewrite Ehs, Hah, length_app; simpl; lia).
  injection Hp as Hpend. rewrite Hchunks in Hpend.
  exists q, sum, ms, removed.
  split; [exact Hq|]. split; [reflexivity|]. split; [reflexivity|].
  split; [exact ES|].
  split; [rewrite <- Hchunks, <- Hst; now destruct (exec_Run argv0 env0 (world ms)).1|].
  split; [rewrite Ets, Ea, <- Hpre; now rewrite app_assoc|].
  split; [rewrite <- Hpre, logged_app, Larm, Lsave; reflexivity|].
  cbv zeta. fold w. rewrite <- Hst. fold ended.
  split; [exact Hr|]. split; [exact Hw'|].
  rewrite Hpend, Ht. symmetry. exact Ht'.
Qed.

(** X1.  Every byte the process wrote is logged before [Run] returns,
    whether the process succeeded or failed.  Nothing is logged before the
    process starts; after it, the log holds the complete lines of the
    merged output as they arrived, then at most the warning of the restore
    step (only when the process succeeded), then the unterminated rest of
    the output, which the deferred flush emits as a last line. *)
Theorem Run_logs_whole_output (cmd : Command) (label : string) (cmdline : list string)
    (m m' : machine W) (r : outcome (option error)) (pre post : list event)
    (argv : list string) (env : option (list string)) (chunks : list string)
    (st : option error) :
  Run cmd label cmdline m = (r, m') ->
  trace m' = trace m ++ pre ++ CallExec argv env chunks st :: post ->
  logged pre = [] /\
  exists warning,
    logged post =
      map (labeled label) (segments "" (merged chunks)).1
        ++ warning ++ framed label (segments "" (merged chunks)).2 /\
    (warning = [] \/ (st = None /\ warning = [log_line not_regular_warning])) /\
    (warning = [] -> logged post = framed label (merged chunks)).
Proof.
  intros HR Ht.
  destruct (Run_process cmd label cmdline m m' r pre post argv env chunks st HR Ht)
    as (q & sum & saved & removed & _ & _ & _ & _ & Eex & Esaved & Lpre & Hend).
  cbv zeta in Hend. destruct Hend as (_ & _ & Ht').
  split; [exact Lpre|].
  set (w := mkCommandWrapper label (length (heap m))) in *.
  assert (Hquiet : exists er,
             trace (match st with
                    | Some e => (Done (Some e), ran argv env w saved)
                    | None => restoreResolvConf cmd sum (ran argv env w saved)
                    end).2 = trace (ran argv env w saved) ++ er /\
             (logged er = [] \/ (st = None /\ logged er = [log_line not_regular_warning]))).
  { destruct st as [e|].
    - exists []. simpl. rewrite app_nil_r. split; [reflexivity | now left].
    - destruct (restoreResolvConf_quiet cmd sum (ran argv env w saved))
        as (er & Er & _ & _ & [L|L]); exists er; (split; [exact Er|]); auto. }
  destruct Hquiet as (er & Er & Lr).
  rewrite Er in Ht'. unfold ran in Ht'. simpl in Ht'. rewrite Eex in Ht'. simpl in Ht'.
  rewrite Esaved, Ht in Ht'.
  assert (Hpost :
    post = map Log (map (labeled label) (segments "" (merged chunks)).1)
           ++ er ++ allow_events cmd
           ++ map Log (framed label (segments "" (merged chunks)).2)
           ++ cleanup_events q removed).
  { repeat (rewrite <- ?app_assoc in Ht'; simpl in Ht').
    apply app_inv_head in Ht'. apply app_inv_head in Ht'.
    injection Ht' as ->. reflexivity. }
  exists (logged er).
  assert (Hl : logged post =
               map (labeled label) (segments "" (merged chunks)).1
                 ++ logged er ++ framed label (segments "" (merged chunks)).2).
  { rewrite Hpost, !logged_app, !logged_logs, logged_allow, logged_cleanup.
    simpl. now rewrite app_nil_r. }
  split; [exact Hl|]. split; [exact Lr|].
  intros Hw. rewrite Hl, Hw. simpl. apply framed_split.
Qed.

(** X2.  Without a chroot (mode none) [Run] starts the command line as it
    is, with no call to the service gate and no access to any resolv.conf,
    and returns the error of the process, nil when it succeeded.  The only
    events are the set-up of the interpreter if one is needed, the process,
    its output and the removal of the interpreter. *)
Theorem Run_mode_none_runs_bare_command (cmd : Command) (label : string)
    (cmdline : list string) (m : machine W) (q : qemuHelper) :
  ChrootMethod cmd = CHROOT_METHOD_NONE ->
  cmdline <> [] ->
  newQemuHelper cmd m = (Done q, m) ->
  let started := (Setup q m).2 in
  let env := exe_Env cmd (os_Environ (world started)) in
  let ex := exec_Run cmdline env (world started) in
  exists m' removed,
    Run cmd label cmdline m = (Done ex.1.2, m') /\
    trace m' =
      trace started
        ++ CallExec cmdline env ex.1.1 ex.1.2
        :: map Log (framed label (merged ex.1.1))
        ++ cleanup_events q removed /\
    world m' = torn_down cmd q ex.2.
Proof.
  intros Hmode Hcmd Hq. cbv zeta.
  assert (Hopts : Run_options cmd cmdline = cmdline).
  { unfold Run_options. now rewrite bool_decide_true. }
  destruct (Run_decompose cmd label cmdline m m q Hq) as
    (pending & removed & m' & Hp & HR & Ht & _ & Hw); [now rewrite Hopts|].
  rewrite Hopts in *.
  set (w := mkCommandWrapper label (length (heap m))) in *.
  assert (Harmed : armed cmd q m
                   = mkMachine (world (Setup q m).2) (heap (Setup q m).2 ++ [""])
                       (trace (Setup q m).2)).
  { unfold armed. rewrite bool_decide_false; [reflexivity|]. intros E. now apply E. }
  pose proof (armed_heap cmd q m) as Hah.
  destruct (Run_body_steps cmd cmdline (armed_env cmd q m) w (armed cmd q m))
    as (sum & err & esave & ms & ES & _ & Ehs & _ & Erb).
  { simpl. rewrite Hah. apply fresh_buffer_lookup. }
  assert (ES' : saveResolvConf cmd (armed cmd q m) = (Done (None, None), armed cmd q m)).
  { unfold saveResolvConf. now rewrite bool_decide_true. }
  rewrite ES' in ES. injection ES as <- <- <-.
  assert (Erb' : Run_body cmd cmdline (armed_env cmd q m) w (armed cmd q m)
                 = (Done (exec_Run cmdline (armed_env cmd q m) (world (armed cmd q m))).1.2,
                    ran cmdline (armed_env cmd q m) w (armed cmd q m))).
  { rewrite Erb. now destruct (exec_Run cmdline _ _).1.2. }
  rewrite Erb' in Hp, HR, Ht, Hw. clear Erb Erb'.
  unfold ran in Hp, Ht, Hw. simpl in Hp, HR, Ht, Hw.
  rewrite list_lookup_insert_eq in Hp by (rewrite Hah, length_app; simpl; lia).
  injection Hp as <-.
  unfold armed_env in *. rewrite Harmed in HR, Ht, Hw. simpl in HR, Ht, Hw.
  exists m', removed. split; [exact HR|]. split; [|exact Hw].
  rewrite Ht, out_loop_flushes. simpl.
  unfold allow_events. rewrite bool_decide_false by (intros E; now apply E). simpl.
  set (stream := merged _).
  rewrite <- (framed_split label stream), map_app.
  repeat (rewrite <- ?app_assoc; simpl). reflexivity.
Qed.

(** The events around the process of a run: before it, the arming and
    the save step; after it, the rest of its complete lines, the restore
    step if the process succeeded, and the teardown. *)
Lemma Run_process_events (cmd : Command) (label : string) (cmdline : list string)
    (m m' : machine W) (r : outcome (option error)) (pre post : list event)
    (argv : list string) (env : option (list string)) (chunks : list string)
    (st : option error) :
  Run cmd label cmdline m = (r, m') ->
  trace m' = trace m ++ pre ++ CallExec argv env chunks st :: post ->
  exists q sum earm esave er removed,
    newQemuHelper cmd m = (Done q, m) /\
    trace (armed cmd q m) = trace m ++ earm /\
    save_run cmd (sum, None) esave /\
    pre = earm ++ esave /\
    Forall (fun e => not_exec e = true) er /\
    post = map Log (map (labeled label) (segments "" (merged chunks)).1)
           ++ er ++ allow_events cmd
           ++ map Log (framed label (segments "" (merged chunks)).2)
           ++ cleanup_events q removed.
Proof.
  intros HR Ht.
  destruct (Run_process cmd label cmdline m m' r pre post argv env chunks st HR Ht)
    as (q & sum & saved & removed & Hq & _ & _ & ES & Eex & Esaved & _ & Hend).
  cbv zeta in Hend. destruct Hend as (_ & _ & Ht').
  set (w := mkCommandWrapper label (length (heap m))) in *.
  destruct (saveResolvConf_protocol cmd (armed cmd q m))
    as (res & esave & ms & ES' & Ets & _ & Hrun & _).
  rewrite ES in ES'. injection ES' as <- <-.
  destruct (armed_calls cmd q m) as (earm & Ea & _ & _).
  assert (Hquiet : exists er,
             trace (match st with
                    | Some e => (Done (Some e), ran argv env w saved)
                    | None => restoreResolvConf cmd sum (ran argv env w saved)
                    end).2 = trace (ran argv env w saved) ++ er /\
             Forall (fun e => not_exec e = true) er).
  { destruct st as [e|].
    - exists []. simpl. rewrite app_nil_r. split; [reflexivity | constructor].
    - destruct (restoreResolvConf_quiet cmd sum (ran argv env w saved))
        as (er & Er & _ & Per & _). now exists er. }
  destruct Hquiet as (er & Er & Per).
  exists q, sum, earm, esave, er, removed.
  split; [exact Hq|]. split; [exact Ea|]. split; [exact Hrun|].
  split.
  { rewrite Ets, Ea, <- app_assoc in Esaved. now apply app_inv_head in Esaved. }
  split; [exact Per|].
  rewrite Er in Ht'. unfold ran in Ht'. simpl in Ht'. rewrite Eex in Ht'. simpl in Ht'.
  rewrite Esaved, Ht in Ht'.
  repeat (rewrite <- ?app_assoc in Ht'; simpl in Ht').
  apply app_inv_head in Ht'. apply app_inv_head in Ht'.
  injection Ht' as ->. reflexivity.
Qed.

(** X18.  In a mode other than none the process never runs unguarded.
    Whenever a run starts a process, the last things done before it are
    closing the service gate for the chroot and the complete, successful
    save step (the target's resolv.conf looked at and set aside if there,
    the host's read, the overlay written), and the service gate is
    re-opened after the process, whatever its outcome. *)
Theorem process_runs_behind_gate_and_overlay (cmd : Command) (label : string)
    (cmdline : list string) (m m' : machine W) (r : outcome (option error))
    (pre post : list event) (argv : list string) (env : option (list string))
    (chunks : list string) (st : option error) :
  ChrootMethod cmd <> CHROOT_METHOD_NONE ->
  Run cmd label cmdline m = (r, m') ->
  trace m' = trace m ++ pre ++ CallExec argv env chunks st :: post ->
  (exists before found data,
     pre = before
           ++ CallDeny (Chroot cmd)
           :: CallLstat (chrootedconf cmd) found :: set_aside cmd found None
           ++ [CallReadFile hostconf (inl data);
               CallWriteFile (chrootedconf cmd) (generated_marker +:+ data) 420 None]) /\
  CallAllow (Chroot cmd) ∈ post.
Proof.
  intros Hmode HR Ht.
  destruct (Run_process_events cmd label cmdline m m' r pre post argv env chunks st HR Ht)
    as (q & sum & earm & esave & er & removed & _ & Ea & Hrun & -> & _ & ->).
  split.
  - inversion Hrun as [Hnone| found data Hm Hs Hsv| | |]; [contradiction|]. subst.
    unfold armed in Ea. rewrite bool_decide_true in Ea by exact Hmode. simpl in Ea.
    destruct (emits_Setup q m) as (es & Es & _ & _). rewrite Es in Ea.
    rewrite <- app_assoc in Ea. apply app_inv_head in Ea. subst earm.
    exists es, found, data. now rewrite <- app_assoc.
  - unfold allow_events. rewrite bool_decide_true by exact Hmode.
    rewrite !elem_of_app. right. right. left. now left.
Qed.

End Runs.

(** ** Whole runs on the in-memory file system *)

Section RunsOnMem.
Variable goarch : string.

#[local] Arguments restoreResolvConf : simpl never.

(** Looking a path up after insertions and deletions at other paths. *)
Ltac mem_lookup :=
  repeat first [ rewrite lookup_insert_eq | rewrite lookup_delete_eq
               | rewrite lookup_insert_ne by congruence
               | rewrite lookup_delete_ne by congruence ];
  try first [reflexivity | assumption | congruence].

(** A successful save, file by file. *)
Lemma Mem_save_files (cmd : Command) (m saved : machine Mem.fsworld) (sum : option string) :
  ChrootMethod cmd <> CHROOT_METHOD_NONE ->
  saveResolvConf (H := Mem.host goarch) cmd m = (Done (sum, None), saved) ->
  exists hn,
    Mem.files (world m) !! hostconf = Some hn /\
    sum = Some (generated_marker +:+ Mem.data hn) /\
    Mem.files (world saved) !! chrootedconf cmd
      = Some (Mem.mkNode 420 (generated_marker +:+ Mem.data hn)) /\
    Mem.files (world saved) !! savedconf cmd
      = match Mem.files (world m) !! chrootedconf cmd with
        | Some n => Some n
        | None => Mem.files (world m) !! savedconf cmd
        end /\
    (forall p, p <> chrootedconf cmd -> p <> savedconf cmd ->
               Mem.files (world saved) !! p = Mem.files (world m) !! p) /\
    Mem.program (world saved) = Mem.program (world m).
Proof.
  intros Hmode.
  destruct (guard_paths_differ cmd) as [Hcs Hhs].
  unfold saveResolvConf. rewrite bool_decide_false by exact Hmode.
  unfold bind, Lstat, Rename, ReadFile, WriteFile, call. simpl.
  unfold Mem.lstat.
  destruct (Mem.files (world m) !! chrootedconf cmd) as [n|] eqn:Ec; simpl.
  - unfold Mem.rename. rewrite Ec. simpl.
    unfold Mem.read_file. simpl.
    rewrite lookup_insert_ne by (intros E; now apply Hhs).
    destruct (decide (chrootedconf cmd = hostconf)) as [Ech|Ech].
    { rewrite Ech, lookup_delete_eq. simpl. discriminate. }
    rewrite lookup_delete_ne by exact Ech.
    destruct (Mem.files (world m) !! hostconf) as [hn|] eqn:Eh; simpl; [|discriminate].
    destruct (IsRegular (Mem.mode hn)); simpl; [|discriminate].
    unfold Mem.write_file. simpl.
    rewrite lookup_insert_ne by (intros E; now apply Hcs).
    rewrite lookup_delete_eq. simpl.
    intros E. inversion E; subst. simpl. exists hn.
    split; [reflexivity|]. split; [reflexivity|].
    split; [apply lookup_insert_eq|].
    split; [rewrite lookup_insert_ne by exact Hcs; apply lookup_insert_eq|].
    split; [|reflexivity].
    intros p Hpc Hps.
    rewrite !lookup_insert_ne by congruence. now rewrite lookup_delete_ne by congruence.
  - unfold Mem.read_file. simpl.
    destruct (Mem.files (world m) !! hostconf) as [hn|] eqn:Eh; simpl; [|discriminate].
    destruct (IsRegular (Mem.mode hn)); simpl; [|discriminate].
    unfold Mem.write_file. simpl. rewrite Ec. simpl.
    intros E. inversion E; subst. simpl. exists hn.
    split; [reflexivity|]. split; [reflexivity|].
    split; [apply lookup_insert_eq|].
    split; [now rewrite lookup_insert_ne by exact Hcs|].
    split; [|reflexivity].
    intros p Hpc Hps. now rewrite lookup_insert_ne by congruence.
Qed.

(** The restore step, file by file: the side-car is gone afterwards; the
    file in the chroot is replaced by the side-car exactly when it is
    still the overlay, and left as found otherwise. *)
Lemma Mem_restore_files (cmd : Command) (sum : string) (m : machine Mem.fsworld) :
  ChrootMethod cmd <> CHROOT_METHOD_NONE ->
  let ended := restoreResolvConf (H := Mem.host goarch) cmd (Some sum) m in
  ended.1 = Done None /\
  Mem.files (world ended.2) !! savedconf cmd = None /\
  Mem.files (world ended.2) !! chrootedconf cmd
    = (if is_overlay sum (Mem.files (world m) !! chrootedconf cmd)
       then Mem.files (world m) !! savedconf cmd
       else Mem.files (world m) !! chrootedconf cmd) /\
  (forall p, p <> chrootedconf cmd -> p <> savedconf cmd ->
             Mem.files (world ended.2) !! p = Mem.files (world m) !! p) /\
  Mem.program (world ended.2) = Mem.program (world m).
Proof.
  intros Hmode. cbv zeta.
  destruct (guard_paths_differ cmd) as [Hcs _].
  unfold restoreResolvConf. rewrite bool_decide_false by exact Hmode.
  unfold defer, bind, Lstat, Rename, Remove, ReadFile, log_Printf, emit, call, ret.
  simpl. unfold Mem.lstat, is_overlay.
  destruct (Mem.files (world m) !! chrootedconf cmd) as [n|] eqn:Ec; simpl.
  2:{ unfold Mem.remove.
      destruct (Mem.files (world m) !! savedconf cmd) as [ns|] eqn:Es; simpl;
        repeat split; intros; mem_lookup. }
  destruct (IsRegular (Mem.mode n)) eqn:Ereg; simpl.
  2:{ destruct (negb (Z.land (Mem.mode n) ModeSymlink =? 0)); simpl; unfold Mem.remove; simpl;
        destruct (Mem.files (world m) !! savedconf cmd) as [ns|] eqn:Es; simpl;
        repeat split; intros; mem_lookup. }
  unfold Mem.read_file. rewrite Ec, Ereg. simpl.
  case_bool_decide as Hsum; simpl.
  2:{ unfold Mem.remove.
      destruct (Mem.files (world m) !! savedconf cmd) as [ns|] eqn:Es; simpl;
        repeat split; intros; mem_lookup. }
  assert (Hrm : Mem.remove (chrootedconf cmd) (world m)
                = (None, Mem.set_files (world m)
                           (delete (chrootedconf cmd) (Mem.files (world m)))))
    by (unfold Mem.remove; now rewrite Ec).
  rewrite Hrm. simpl.
  rewrite lookup_delete_ne by congruence.
  destruct (Mem.files (world m) !! savedconf cmd) as [ns|] eqn:Es; simpl.
  - unfold Mem.rename. simpl. rewrite lookup_delete_ne by congruence. rewrite Es. simpl.
    unfold Mem.remove. simpl.
    rewrite lookup_insert_ne by congruence.
    rewrite lookup_delete_eq. simpl.
    repeat split; intros; mem_lookup.
  - unfold Mem.remove. simpl. rewrite lookup_delete_ne by congruence. rewrite Es. simpl.
    repeat split; intros; mem_lookup.
Qed.

(** Neither arming nor tearing down touches the guard's files. *)
Lemma guard_files_apart (cmd : Command) (m : machine Mem.fsworld) (q : qemuHelper) (p : string) :
  newQemuHelper (H := Mem.host goarch) cmd m = (Done q, m) ->
  p = chrootedconf cmd \/ p = savedconf cmd \/ p = hostconf ->
  qemusrc q = "" \/ p <> qemutarget q.
Proof.
  intros Hq Hp.
  destruct (qemutarget_apart (H := Mem.host goarch) cmd _ _ q Hq) as [Hs|(Ha & Hb & Hc)];
    [now left|].
  right. destruct Hp as [-> | [-> | ->]]; intros E; symmetry in E; contradiction.
Qed.

(** The interpreter at the start of the run body. *)
Lemma Mem_armed_interpreter (cmd : Command) (q : qemuHelper) (m : machine Mem.fsworld)
    (hq : Mem.node) :
  qemusrc q <> "" ->
  Mem.files (world m) !! qemusrc q = Some hq ->
  IsRegular (Mem.mode hq) = true ->
  Mem.files (world (armed (H := Mem.host goarch) cmd q m)) !! qemutarget q
    = Some (Mem.mkNode 493 (Mem.data hq)).
Proof.
  intros Hsrc Hhq Hreg. unfold armed. rewrite Setup_spec.
  rewrite (bool_decide_false (qemusrc q = "")) by exact Hsrc. simpl.
  unfold Mem.copy_file, Mem.read_file. rewrite Hhq, Hreg.
  case_bool_decide; simpl; apply lookup_insert_eq.
Qed.

(** The teardown leaves no file at the interpreter's path. *)
Lemma Mem_torn_down_interpreter (cmd : Command) (q : qemuHelper) (w : Mem.fsworld) :
  qemusrc q <> "" ->
  Mem.files (torn_down (H := Mem.host goarch) cmd q w) !! qemutarget q = None.
Proof.
  intros Hsrc. unfold torn_down. rewrite (bool_decide_true (qemusrc q <> "")) by exact Hsrc.
  simpl. unfold Mem.remove.
  case_bool_decide; simpl;
    destruct (Mem.files w !! qemutarget q) eqn:E; simpl;
    first [apply lookup_delete_eq | exact E].
Qed.

(** A run in a chroot whose trace shows a process, file by file: the
    files on which the process started, what it answered, and the files
    after the run, from the files [left] by the process. *)
Lemma Mem_Run_process (cmd : Command) (label : string) (cmdline : list string)
    (m m' : machine Mem.fsworld) (r : outcome (option error)) (pre post : list event)
    (argv : list string) (env : option (list string)) (chunks : list string)
    (st : option error) :
  ChrootMethod cmd <> CHROOT_METHOD_NONE ->
  Run (H := Mem.host goarch) cmd label cmdline m = (r, m') ->
  trace m' = trace m ++ pre ++ CallExec argv env chunks st :: post ->
  exists q hn started left,
    newQemuHelper (H := Mem.host goarch) cmd m = (Done q, m) /\
    Mem.files (world m) !! hostconf = Some hn /\
    started !! chrootedconf cmd
      = Some (Mem.mkNode 420 (generated_marker +:+ Mem.data hn)) /\
    started !! savedconf cmd
      = match Mem.files (world m) !! chrootedconf cmd with
        | Some n => Some n
        | None => Mem.files (world m) !! savedconf cmd
        end /\
    (forall hq, qemusrc q <> "" -> Mem.files (world m) !! qemusrc q = Some hq ->
                IsRegular (Mem.mode hq) = true ->
                started !! qemutarget q = Some (Mem.mkNode 493 (Mem.data hq))) /\
    Mem.program (world m) argv env started = ((chunks, st), left) /\
    r = Done st /\
    Mem.files (world m') !! savedconf cmd
      = match st with Some _ => left !! savedconf cmd | None => None end /\
    Mem.files (world m') !! chrootedconf cmd
      = match st with
        | Some _ => left !! chrootedconf cmd
        | None =>
            if is_overlay (generated_marker +:+ Mem.data hn) (left !! chrootedconf cmd)
            then left !! savedconf cmd
            else left !! chrootedconf cmd
        end /\
    (qemusrc q <> "" -> Mem.files (world m') !! qemutarget q = None).
Proof.
  intros Hmode HR Ht.
  destruct (Run_process (H := Mem.host goarch) cmd label cmdline m m' r pre post
              argv env chunks st HR Ht)
    as (q & sum & saved & removed & Hq & _ & _ & ES & Eex & _ & _ & Hend).
  cbv zeta in Hend. destruct Hend as (Hr & Hw & _).
  set (w := mkCommandWrapper label (length (heap m))) in *.
  pose proof (fun p => guard_files_apart cmd m q p Hq) as Hap.
  destruct (Mem_save_files cmd _ _ _ Hmode ES)
    as (hn & Hhost & -> & Hover & Hside & Hframe & Hprog).
  destruct (Mem_armed goarch cmd q m hostconf) as [Hah Hpw]; [apply Hap; auto|].
  destruct (Mem_armed goarch cmd q m (chrootedconf cmd)) as [Hac _]; [apply Hap; auto|].
  destruct (Mem_armed goarch cmd q m (savedconf cmd)) as [Has _]; [apply Hap; auto|].
  rewrite Hah in Hhost. rewrite Hac, Has in Hside. rewrite Hpw in Hprog.
  simpl in Eex. unfold Mem.run_program in Eex. rewrite Hprog in Eex.
  destruct (Mem.program (world m) argv env (Mem.files (world saved))) as [res left] eqn:Ep.
  simpl in Eex. subst res.
  assert (Hworld : world (ran (H := Mem.host goarch) argv env w saved)
                   = Mem.set_files (world saved) left).
  { unfold ran. simpl. unfold Mem.run_program. now rewrite Hprog, Ep. }
  exists q, hn, (Mem.files (world saved)), left.
  split; [exact Hq|]. split; [exact Hhost|]. split; [exact Hover|]. split; [exact Hside|].
  split.
  { intros hq Hsrc Hhq Hreg. rewrite Hframe.
    - now apply Mem_armed_interpreter.
    - destruct (qemutarget_apart (H := Mem.host goarch) cmd _ _ q Hq) as [Hs|(Ha & _)];
        [contradiction | exact Ha].
    - destruct (qemutarget_apart (H := Mem.host goarch) cmd _ _ q Hq) as [Hs|(_ & Ha & _)];
        [contradiction | exact Ha]. }
  split; [exact Ep|].
  destruct st as [e|].
  - cbn [fst snd] in Hr, Hw. rewrite Hworld in Hw.
    split; [exact Hr|]. rewrite Hw.
    rewrite !Mem_torn_down by (apply Hap; auto). simpl.
    split; [reflexivity|]. split; [reflexivity|].
    intros Hsrc. now apply Mem_torn_down_interpreter.
  - destruct (Mem_restore_files cmd (generated_marker +:+ Mem.data hn)
                (ran (H := Mem.host goarch) argv env w saved) Hmode)
      as (Hres & Hs' & Hc' & _ & _).
    rewrite Hworld in Hc'. cbn [Mem.files Mem.set_files] in Hc'.
    split; [rewrite Hr; exact Hres|]. rewrite Hw.
    rewrite !Mem_torn_down by (apply Hap; auto).
    split; [exact Hs'|]. split; [exact Hc'|].
    intros Hsrc. now apply Mem_torn_down_interpreter.
Qed.

(** X3.  Round trip of the guard.  After a run in a chroot whose process
    succeeded and left the two files of the guard alone, [Run] returns
    nil, the target's own resolv.conf is back in its place and no side-car
    is left.  When the target had no resolv.conf, none is left either,
    unless a stale side-car was lying around: that one is moved in. *)
Theorem Run_restores_resolv_conf (cmd : Command) (label : string)
    (cmdline : list string) (m m' : machine Mem.fsworld)
    (r : outcome (option error)) (pre post : list event) (argv : list string)
    (env : option (list string)) (chunks : list string) :
  ChrootMethod cmd <> CHROOT_METHOD_NONE ->
  Run (H := Mem.host goarch) cmd label cmdline m = (r, m') ->
  trace m' = trace m ++ pre ++ CallExec argv env chunks None :: post ->
  (forall fs res fs',
     Mem.program (world m) argv env fs = (res, fs') ->
     fs' !! chrootedconf cmd = fs !! chrootedconf cmd /\
     fs' !! savedconf cmd = fs !! savedconf cmd) ->
  r = Done None /\
  Mem.files (world m') !! chrootedconf cmd
    = match Mem.files (world m) !! chrootedconf cmd with
      | Some n => Some n
      | None => Mem.files (world m) !! savedconf cmd
      end /\
  Mem.files (world m') !! savedconf cmd = None.
Proof.
  intros Hmode HR Ht Hproc.
  destruct (Mem_Run_process cmd label cmdline m m' r pre post argv env chunks None
              Hmode HR Ht)
    as (q & hn & started & left & _ & _ & Hover & Hside & _ & Ep & Hr & Hs & Hc & _).
  destruct (Hproc _ _ _ Ep) as [Hpc Hps].
  split; [exact Hr|]. split; [|exact Hs].
  rewrite Hc, Hpc, Hps, Hover, Hside. unfold is_overlay. cbn [Mem.mode Mem.data].
  rewrite bool_decide_true by reflexivity.
  change (IsRegular 420) with true. reflexivity.
Qed.

(** X4.  The guard never overwrites what the process put in place.  After
    a run in a chroot whose process succeeded and left, at the target's
    resolv.conf path, anything but a regular file with the overlay's
    content (another content, a symbolic link, a directory, or nothing),
    that path is as the process left it, [Run] returns nil, and the
    side-car with the target's original resolv.conf is removed. *)
Theorem Run_keeps_changed_resolv_conf (cmd : Command) (label : string)
    (cmdline : list string) (m m' : machine Mem.fsworld)
    (r : outcome (option error)) (pre post : list event) (argv : list string)
    (env : option (list string)) (chunks : list string)
    (hn : Mem.node) (found : option Mem.node) :
  ChrootMethod cmd <> CHROOT_METHOD_NONE ->
  Run (H := Mem.host goarch) cmd label cmdline m = (r, m') ->
  trace m' = trace m ++ pre ++ CallExec argv env chunks None :: post ->
  Mem.files (world m) !! hostconf = Some hn ->
  (forall fs res fs',
     Mem.program (world m) argv env fs = (res, fs') ->
     fs' !! chrootedconf cmd = found) ->
  is_overlay (generated_marker +:+ Mem.data hn) found = false ->
  r = Done None /\
  Mem.files (world m') !! chrootedconf cmd = found /\
  Mem.files (world m') !! savedconf cmd = None.
Proof.
  intros Hmode HR Ht Hhost Hproc Hfound.
  destruct (Mem_Run_process cmd label cmdline m m' r pre post argv env chunks None
              Hmode HR Ht)
    as (q & hn' & started & left & _ & Hhost' & _ & _ & _ & Ep & Hr & Hs & Hc & _).
  rewrite Hhost in Hhost'. injection Hhost' as <-.
  split; [exact Hr|]. split; [|exact Hs].
  rewrite Hc, (Hproc _ _ _ Ep), Hfound. reflexivity.
Qed.

(** X5.  Whatever way [Run] ends (a return or a panic, a process or
    none), once the helper names an interpreter no file is left at the
    interpreter's path in the chroot: the copy is removed, and so is a
    file that was there before the run. *)
Theorem Run_leaves_no_interpreter (cmd : Command) (label : string)
    (cmdline : list string) (m : machine Mem.fsworld) (q : qemuHelper) :
  newQemuHelper (H := Mem.host goarch) cmd m = (Done q, m) ->
  qemusrc q <> "" ->
  Mem.files (world (Run (H := Mem.host goarch) cmd label cmdline m).2) !! qemutarget q = None.
Proof.
  intros Hq Hsrc.
  destruct (decide (Run_options cmd cmdline = [])) as [Hopts|Hopts].
  - unfold Run, bind at 1. rewrite Hq. unfold bind at 1.
    destruct (Setup (H := Mem.host goarch) q m) as [[r0|msg] m1] eqn:ES;
      [|destruct (Setup_returns (H := Mem.host goarch) q m) as (? & ? & ?); congruence].
    unfold defer. rewrite Hopts. unfold panic. rewrite Cleanup_spec.
    rewrite bool_decide_true by exact Hsrc. simpl. unfold Mem.remove.
    destruct (Mem.files (world m1) !! qemutarget q) eqn:E; simpl;
      first [apply lookup_delete_eq | exact E].
  - destruct (Run_decompose (H := Mem.host goarch) cmd label cmdline m m q Hq Hopts)
      as (pending & removed & m' & _ & HR & _ & _ & Hw).
    rewrite HR. simpl. rewrite Hw. now apply Mem_torn_down_interpreter.
Qed.

(** X6.  The interpreter is in place while the process runs.  In a run in
    a chroot whose helper names an interpreter that the host has as a
    regular file, the process starts on files where the interpreter's path
    in the chroot holds the host's interpreter with mode 0755, and the
    target's resolv.conf path holds the overlay: the marker line followed
    by the host's resolv.conf. *)
Theorem process_starts_with_interpreter_and_overlay (cmd : Command) (label : string)
    (cmdline : list string) (m m' : machine Mem.fsworld)
    (r : outcome (option error)) (pre post : list event) (argv : list string)
    (env : option (list string)) (chunks : list string) (st : option error)
    (q : qemuHelper) (hq : Mem.node) :
  ChrootMethod cmd <> CHROOT_METHOD_NONE ->
  Run (H := Mem.host goarch) cmd label cmdline m = (r, m') ->
  trace m' = trace m ++ pre ++ CallExec argv env chunks st :: post ->
  newQemuHelper (H := Mem.host goarch) cmd m = (Done q, m) ->
  qemusrc q <> "" ->
  Mem.files (world m) !! qemusrc q = Some hq ->
  IsRegular (Mem.mode hq) = true ->
  exists started left hn,
    Mem.program (world m) argv env started = ((chunks, st), left) /\
    started !! qemutarget q = Some (Mem.mkNode 493 (Mem.data hq)) /\
    Mem.files (world m) !! hostconf = Some hn /\
    started !! chrootedconf cmd
      = Some (Mem.mkNode 420 (generated_marker +:+ Mem.data hn)).
Proof.
  intros Hmode HR Ht Hq Hsrc Hhq Hreg.
  destruct (Mem_Run_process cmd label cmdline m m' r pre post argv env chunks st
              Hmode HR Ht)
    as (q' & hn & started & left & Hq' & Hhost & Hover & _ & Hint & Ep & _).
  rewrite Hq in Hq'. injection Hq' as <-.
  exists started, left, hn.
  split; [exact Ep|]. split; [now apply Hint|]. split; assumption.
Qed.

(** The save step when the chroot is the host's root: the host's
    resolv.conf is renamed to the side-car and then cannot be read. *)
Lemma Mem_save_on_host_root (cmd : Command) (m : machine Mem.fsworld) (hn : Mem.node) :
  ChrootMethod cmd <> CHROOT_METHOD_NONE ->
  chrootedconf cmd = hostconf ->
  Mem.files (world m) !! hostconf = Some hn ->
  exists saved,
    saveResolvConf (H := Mem.host goarch) cmd m
      = (Done (None, Some (Mem.ENOENT hostconf)), saved) /\
    Mem.files (world saved) !! hostconf = None /\
    Mem.files (world saved) !! savedconf cmd = Some hn.
Proof.
  intros Hmode Hroot Hhost.
  destruct (guard_paths_differ cmd) as [Hcs Hhs].
  unfold saveResolvConf. rewrite bool_decide_false by exact Hmode.
  unfold bind, Lstat, Rename, ReadFile, WriteFile, call. simpl.
  unfold Mem.lstat. rewrite Hroot, Hhost. simpl.
  unfold Mem.rename. rewrite Hhost. simpl.
  unfold Mem.read_file. simpl.
  rewrite lookup_insert_ne by congruence. rewrite lookup_delete_eq. simpl.
  eexists. split; [reflexivity|]. simpl. split; mem_lookup.
Qed.

(** X7.  A chroot path that is the host's root.  When the chroot path
    joins to [/etc/resolv.conf] itself (the path is empty or [/]) and the
    mode is not none, the save step renames the host's resolv.conf to the
    side-car and then fails to read it: [Run] returns that error, starts
    no process, and leaves the host without [/etc/resolv.conf], its
    content at [/etc/resolv.conf.debos]. *)
Theorem Run_on_host_root_misplaces_resolv_conf (cmd : Command) (label : string)
    (cmdline : list string) (m : machine Mem.fsworld) (q : qemuHelper) (hn : Mem.node) :
  ChrootMethod cmd = CHROOT_METHOD_NSPAWN \/ ChrootMethod cmd = CHROOT_METHOD_CHROOT ->
  chrootedconf cmd = hostconf ->
  newQemuHelper (H := Mem.host goarch) cmd m = (Done q, m) ->
  Mem.files (world m) !! hostconf = Some hn ->
  exists m',
    Run (H := Mem.host goarch) cmd label cmdline m
      = (Done (Some (Mem.ENOENT hostconf)), m') /\
    spawned (trace m') = spawned (trace m) /\
    Mem.files (world m') !! hostconf = None /\
    Mem.files (world m') !! savedconf cmd = Some hn.
Proof.
  intros Hmeth Hroot Hq Hhost.
  assert (Hmode : ChrootMethod cmd <> CHROOT_METHOD_NONE)
    by (destruct Hmeth as [E|E]; rewrite E; discriminate).
  assert (Hopts : Run_options cmd cmdline <> []).
  { unfold Run_options. destruct Hmeth as [E|E]; rewrite E; simpl; [|discriminate].
    rewrite !fold_left_flags. discriminate. }
  destruct (Run_decompose (H := Mem.host goarch) cmd label cmdline m m q Hq Hopts)
    as (pending & removed & m' & _ & HR & Ht & _ & Hw).
  pose proof (fun p => guard_files_apart cmd m q p Hq) as Hap.
  destruct (Mem_armed goarch cmd q m hostconf) as [Hah _]; [apply Hap; auto|].
  destruct (Mem_save_on_host_root cmd (armed (H := Mem.host goarch) cmd q m) hn Hmode Hroot)
    as (saved & ES & Hgone & Hside); [now rewrite Hah|].
  destruct (Run_body_steps (H := Mem.host goarch) cmd (Run_options cmd cmdline)
              (armed_env (H := Mem.host goarch) cmd q m)
              (mkCommandWrapper label (length (heap m)))
              (armed (H := Mem.host goarch) cmd q m))
    as (sum & err & esave & ms & ES' & Ets & _ & Hrun & Erb).
  { simpl. rewrite armed_heap. apply fresh_buffer_lookup. }
  rewrite ES in ES'. injection ES' as <- <- <-.
  rewrite Erb in HR, Ht, Hw. simpl in HR, Ht, Hw.
  destruct (armed_calls (H := Mem.host goarch) cmd q m) as (earm & Ea & Parm & _).
  exists m'. split; [exact HR|].
  split.
  { rewrite Ht, Ets, Ea, !spawned_app.
    rewrite (spawned_not_exec earm) by exact Parm.
    rewrite (spawned_not_exec esave) by (eapply not_exec_save; exact Hrun).
    rewrite (spawned_not_exec (allow_events cmd)) by apply not_exec_allow.
    rewrite (spawned_not_exec (map Log _)) by apply not_exec_logs.
    rewrite (spawned_not_exec (cleanup_events q removed)) by apply not_exec_cleanup.
    now rewrite !app_nil_r. }
  rewrite Hw. rewrite !Mem_torn_down by (apply Hap; auto). split; assumption.
Qed.

End RunsOnMem.

(** ** Building a command *)

Lemma build_fields (cmd : Command) (calls : list builder_call) :
  Architecture (build cmd calls) = Architecture cmd /\
  Dir (build cmd calls) = Dir cmd /\
  Chroot (build cmd calls) = Chroot cmd /\
  ChrootMethod (build cmd calls) = ChrootMethod cmd /\
  extraEnv (build cmd calls) = extraEnv cmd ++ flat_map assignment_of calls /\
  bindMounts (build cmd calls) = bindMounts cmd ++ flat_map mount_of calls.
Proof.
  unfold build. revert cmd. induction calls as [|b calls IH]; intros cmd; simpl.
  - now rewrite !app_nil_r.
  - destruct (IH (apply_call cmd b)) as (-> & -> & -> & -> & -> & ->).
    destruct b as [env | key value | source [|c target]]; simpl;
      rewrite <- ?app_assoc; repeat split; reflexivity.
Qed.

(** X8.  The builder methods compose: after any sequence of [AddEnv],
    [AddEnvKey] and [AddBindMount] calls on a namespace-container
    command, however interleaved, the argument vector has the fixed flags,
    then one [--setenv] for each assignment the command had and then for
    each one added, in call order ([key=value] for [AddEnvKey]), then one
    [--bind] for each mount the command had and then for each one added,
    in call order ([source], or [source:target] when a target is named),
    then [-D] with the unchanged chroot path and the command line. *)
Theorem builder_calls_reach_argument_vector
    (cmd : Command) (calls : list builder_call) (cmdline : list string) :
  ChrootMethod cmd = CHROOT_METHOD_NSPAWN ->
  Run_options (build cmd calls) cmdline =
    "systemd-nspawn" :: nspawn_flags
      ++ flat_map (fun e => ["--setenv"; e]) (extraEnv cmd ++ flat_map assignment_of calls)
      ++ flat_map (fun b => ["--bind"; b]) (bindMounts cmd ++ flat_map mount_of calls)
      ++ ["-D"; Chroot cmd] ++ cmdline.
Proof.
  intros Hmode.
  destruct (build_fields cmd calls) as (_ & _ & Hc & Hm & He & Hb).
  unfold Run_options. rewrite Hm, Hmode, Hc, He, Hb. simpl.
  rewrite !fold_left_flags. simpl. rewrite <- !app_assoc. reflexivity.
Qed.

(** * The install-dpkg action *)

Section ActionProofs.
Context {W : Type} `{ActionHost W}.

(** ** Collecting the packages *)

(** The glob calls for [patterns], answered with [answers]. *)
Lemma glob_packages_done (origin : string) (patterns acc : list string) (w w' : W)
    (packages : list string) (t : list action_event) :
  Actions.glob_packages origin patterns acc w = (inl packages, w', t) ->
  exists answers,
    length answers = length patterns /\
    Forall (fun matches => matches <> []) answers /\
    packages = acc ++ concat answers /\
    t = zip_with (fun pkg matches => CallGlob (path_Join origin pkg) (inl matches))
          patterns answers.
Proof.
  revert acc w t. induction patterns as [|pkg rest IH]; intros acc w t; simpl.
  - intros E. injection E as <- <- <-. exists []. rewrite app_nil_r. repeat split. constructor.
  - unfold abind at 1, acall.
    destruct (filepath_Glob (path_Join origin pkg) w) as [[matches|err] w1]; simpl;
      [|discriminate].
    case_bool_decide as Hlen; [discriminate|].
    destruct (Actions.glob_packages origin rest (acc ++ matches) w1) as [[r w2] t2] eqn:E.
    intros E'. injection E' as -> <- <-.
    destruct (IH _ _ _ E) as (answers & Hl & Hne & -> & ->).
    exists (matches :: answers). simpl. rewrite Hl, <- app_assoc.
    repeat split. constructor; [|exact Hne]. intros ->. now apply Hlen.
Qed.

Lemma glob_packages_failed (origin : string) (patterns acc : list string) (w w' : W)
    (e : error) (t : list action_event) :
  Actions.glob_packages origin patterns acc w = (inr e, w', t) ->
  exists before pkg after answers r,
    patterns = before ++ pkg :: after /\
    length answers = length before /\
    Forall (fun matches => matches <> []) answers /\
    t = zip_with (fun pkg matches => CallGlob (path_Join origin pkg) (inl matches))
          before answers
        ++ [CallGlob (path_Join origin pkg) r] /\
    (r = inr e \/
     (r = inl [] /\ e = fmt_Errorf ("file(s) not found after globbing: " +:+ pkg))).
Proof.
  revert acc w t. induction patterns as [|pkg rest IH]; intros acc w t; simpl.
  - discriminate.
  - unfold abind at 1, acall.
    destruct (filepath_Glob (path_Join origin pkg) w) as [[matches|err] w1]; simpl.
    2:{ intros E. injection E as <- <- <-.
        exists [], pkg, rest, [], (inr err). repeat split; auto. }
    case_bool_decide as Hlen.
    { intros E. injection E as <- <- <-.
      destruct matches; [|discriminate Hlen].
      exists [], pkg, rest, [], (inl []). repeat split; auto. }
    destruct (Actions.glob_packages origin rest (acc ++ matches) w1) as [[r w2] t2] eqn:E.
    intros E'. injection E' as -> <- <-.
    destruct (IH _ _ _ E) as (before & pkg' & after & answers & r & -> & Hl & Hne & -> & Hr).
    exists (pkg :: before), pkg', after, (matches :: answers), r. simpl. rewrite Hl.
    repeat split; [|exact Hr]. constructor; [|exact Hne]. intros ->. now apply Hlen.
Qed.

(** X9.  When the package list is collected without error, either the
    origin is not a directory and the list is the origin itself, with no
    glob at all and whatever the recipe's patterns are, or the origin is a
    directory, the recipe names at least one pattern, every pattern was
    globbed once, in order, as [path.Join(origin, pattern)], every glob
    had a match, and the list is the matches end to end in that order.
    In both cases the list is not empty. *)
Theorem collected_packages_are_the_matches (apt : Actions.InstallDpkgAction)
    (origin : string) (w w' : W) (packages : list string) (t : list action_event) :
  Actions.Run_packages apt origin w = (inl packages, w', t) ->
  packages <> [] /\
  exists file,
    (os_Stat origin w).1 = inl file /\
    if IsDir file then
      Actions.Packages apt <> [] /\
      exists answers,
        length answers = length (Actions.Packages apt) /\
        Forall (fun matches => matches <> []) answers /\
        packages = concat answers /\
        t = CallStat origin (inl file)
            :: zip_with (fun pkg matches => CallGlob (path_Join origin pkg) (inl matches))
                 (Actions.Packages apt) answers
    else packages = [origin] /\ t = [CallStat origin (inl file)].
Proof.
  unfold Actions.Run_packages, abind at 1, acall.
  destruct (os_Stat origin w) as [[file|err] w1]; simpl; [|discriminate].
  destruct (IsDir file) eqn:Hdir.
  2:{ intros E. injection E as <- <- <-. split; [discriminate|].
      exists file. rewrite Hdir. repeat split. }
  case_bool_decide as Hlen; [discriminate|].
  destruct (Actions.glob_packages origin (Actions.Packages apt) [] w1) as [[r w2] t2] eqn:E.
  intros E'. injection E' as -> <- <-.
  destruct (glob_packages_done _ _ _ _ _ _ _ E) as (answers & Hl & Hne & -> & ->).
  assert (Hpats : Actions.Packages apt <> []) by (intros E0; now rewrite E0 in Hlen).
  split.
  - destruct answers as [|a answers]; [destruct (Actions.Packages apt); [contradiction|discriminate Hl]|].
    apply Forall_cons in Hne as [Ha _]. simpl. destruct a; [contradiction|discriminate].
  - exists file. rewrite Hdir. split; [reflexivity|]. split; [exact Hpats|].
    exists answers. repeat split; assumption.
Qed.

(** X10.  Collecting the package list fails in exactly four ways, each
    returned at once: the origin cannot be stat'ed (that error); the
    origin is a directory and the recipe names no pattern ("no packages
    defined", no glob); a glob fails (that error); a glob matches nothing
    ("file(s) not found after globbing", naming the pattern as the recipe
    wrote it, not the joined path).  After the first bad pattern the
    remaining patterns are not globbed. *)
Theorem collecting_stops_at_first_failure (apt : Actions.InstallDpkgAction)
    (origin : string) (w w' : W) (e : error) (t : list action_event) :
  Actions.Run_packages apt origin w = (inr e, w', t) ->
  (t = [CallStat origin (inr e)] /\ (os_Stat origin w).1 = inr e) \/
  exists file,
    (os_Stat origin w).1 = inl file /\ IsDir file = true /\
    ((Actions.Packages apt = [] /\ e = fmt_Errorf "no packages defined" /\
      t = [CallStat origin (inl file)]) \/
     exists before pkg after answers r,
       Actions.Packages apt = before ++ pkg :: after /\
       length answers = length before /\
       Forall (fun matches => matches <> []) answers /\
       t = CallStat origin (inl file)
           :: zip_with (fun pkg matches => CallGlob (path_Join origin pkg) (inl matches))
                before answers
           ++ [CallGlob (path_Join origin pkg) r] /\
       (r = inr e \/
        (r = inl [] /\ e = fmt_Errorf ("file(s) not found after globbing: " +:+ pkg)))).
Proof.
  unfold Actions.Run_packages, abind at 1, acall.
  destruct (os_Stat origin w) as [[file|err] w1]; simpl.
  2:{ intros E. injection E as <- <- <-. now left. }
  destruct (IsDir file) eqn:Hdir; [|discriminate].
  case_bool_decide as Hlen.
  { intros E. injection E as <- <- <-. right. exists file.
    split; [reflexivity|]. split; [exact Hdir|]. left.
    destruct (Actions.Packages apt); [repeat split | discriminate Hlen]. }
  destruct (Actions.glob_packages origin (Actions.Packages apt) [] w1) as [[r w2] t2] eqn:E.
  intros E'. injection E' as -> <- <-. right. exists file.
  split; [reflexivity|]. split; [exact Hdir|]. right.
  destruct (glob_packages_failed _ _ _ _ _ _ _ E)
    as (before & pkg & after & answers & r & Hp & Hl & Hne & -> & Hr).
  exists before, pkg, after, answers, r. repeat split; assumption.
Qed.

(** ** Mounting the packages *)

Lemma duplicate_after_spec (done todo : list string) (pkg : string) :
  Actions.duplicate_after (done ++ pkg :: todo) (length done) pkg = bool_decide (pkg ∈ todo).
Proof.
  unfold Actions.duplicate_after.
  replace (length (done ++ pkg :: todo) - S (length done))%nat with (length todo)
    by (rewrite length_app; simpl; lia).
  destruct (decide (pkg ∈ todo)) as [Hin|Hout].
  - rewrite bool_decide_true by exact Hin. apply existsb_exists.
    apply list_elem_of_lookup in Hin as [i Hi].
    exists (S (length done) + i)%nat. split.
    + apply in_seq. apply lookup_lt_Some in Hi. lia.
    + apply bool_decide_eq_true. rewrite lookup_app_r by lia.
      replace (S (length done) + i - length done)%nat with (S i) by lia. exact Hi.
  - rewrite bool_decide_false by exact Hout. apply not_true_is_false. intros Hex.
    apply existsb_exists in Hex as (j & Hj & Hb). apply in_seq in Hj.
    apply bool_decide_eq_true in Hb. rewrite lookup_app_r in Hb by lia.
    destruct (j - length done)%nat as [|i] eqn:Ej; [lia|]. simpl in Hb.
    apply Hout. apply list_elem_of_lookup. now exists i.
Qed.

(** One turn of the loop, for a package that does not occur again. *)
Lemma mount_packages_step (context : DebosContext.t) (done todo : list string)
    (pkg : string) (c : AptCommand) (w : W) :
  pkg ∉ todo ->
  Actions.mount_packages context (seq (length done) (S (length todo)))
    (done ++ pkg :: todo) c w =
  let '(r, w', t) :=
    Actions.mount_packages context
      (seq (length (done ++ [relative (DebosContext.Rootdir context) pkg])) (length todo))
      ((done ++ [relative (DebosContext.Rootdir context) pkg]) ++ todo)
      (if strings_HasPrefix pkg (DebosContext.Rootdir context) then c
       else Apt_AddBindMount c pkg "") w in
  (r, w', installing pkg :: t).
Proof.
  intros Hout. rewrite length_app. simpl length. rewrite Nat.add_1_r.
  cbn [seq Actions.mount_packages].
  rewrite list_lookup_middle by reflexivity.
  rewrite duplicate_after_spec, bool_decide_false by exact Hout.
  unfold abind at 1, alog. unfold relative, strings_TrimPrefix.
  destruct (strings_HasPrefix pkg (DebosContext.Rootdir context)) eqn:Hpre;
    rewrite insert_app_r_alt by lia; rewrite Nat.sub_diag; simpl;
    rewrite <- app_assoc; reflexivity.
Qed.

Lemma mounted_nil (c : AptCommand) : mounted c [] = c.
Proof. destruct c. unfold mounted. simpl. now rewrite app_nil_r. Qed.

Lemma mounted_cons (c : AptCommand) (pkg : string) (packages : list string) :
  mounted (Apt_AddBindMount c pkg "") packages = mounted c (pkg :: packages).
Proof. unfold mounted, Apt_AddBindMount. simpl. now rewrite <- app_assoc. Qed.

(** The whole loop on a list without duplicates. *)
Lemma mount_packages_all (context : DebosContext.t) (todo done : list string)
    (c : AptCommand) (w : W) :
  NoDup todo ->
  Actions.mount_packages context (seq (length done) (length todo)) (done ++ todo) c w =
  (inl (done ++ map (relative (DebosContext.Rootdir context)) todo,
        mounted c (outside (DebosContext.Rootdir context) todo)),
   w, map installing todo).
Proof.
  revert done c. induction todo as [|pkg todo IH]; intros done c Hnd.
  - simpl. unfold aret. now rewrite mounted_nil.
  - apply NoDup_cons in Hnd as [Hout Hnd].
    cbn [length]. rewrite mount_packages_step by exact Hout.
    rewrite IH by exact Hnd. rewrite <- app_assoc. simpl.
    unfold outside. rewrite filter_cons.
    destruct (strings_HasPrefix pkg (DebosContext.Rootdir context)) eqn:Hpre.
    + rewrite decide_False by discriminate. reflexivity.
    + rewrite decide_True by reflexivity. now rewrite mounted_cons.
Qed.

(** The loop on a list whose first repeated package is [pkg]. *)
Lemma mount_packages_duplicate (context : DebosContext.t) (before later done : list string)
    (pkg : string) (c : AptCommand) (w : W) :
  NoDup before ->
  (forall p, p ∈ before -> p <> pkg /\ p ∉ later) ->
  pkg ∈ later ->
  Actions.mount_packages context
    (seq (length done) (length (before ++ pkg :: later)))
    (done ++ before ++ pkg :: later) c w =
  (inr (duplicate_error pkg), w, map installing before).
Proof.
  revert done c. induction before as [|b before IH]; intros done c Hnd Hfirst Hin.
  - cbn [app length seq Actions.mount_packages map].
    rewrite list_lookup_middle by reflexivity.
    rewrite duplicate_after_spec, bool_decide_true by exact Hin. reflexivity.
  - apply NoDup_cons in Hnd as [Hb Hnd].
    destruct (Hfirst b) as [Hbp Hbl]; [now left|].
    cbn [app length]. rewrite mount_packages_step.
    2:{ rewrite elem_of_app, elem_of_cons. intros [?|[?|?]]; contradiction. }
    rewrite IH; [reflexivity | exact Hnd | | exact Hin].
    intros p Hp. apply Hfirst. now right.
Qed.

(** ** The action as a whole *)

Lemma Run_origin_pure (apt : Actions.InstallDpkgAction) (context : DebosContext.t) (w : W) :
  exists r, Actions.Run_origin apt context w = (r, w, []).
Proof.
  unfold Actions.Run_origin. case_bool_decide; [|now eexists].
  destruct (DebosContext.Origins context !! Actions.Origin apt); now eexists.
Qed.

(** [Run], phase by phase. *)
Lemma Run_phases (apt : Actions.InstallDpkgAction) (context : DebosContext.t) (w : W) :
  Actions.Run apt context w =
  let created := CallNewAptCommand context "install-dpkg" in
  match (Actions.Run_origin apt context w).1.1 with
  | inr e => (inr e, w, [created])
  | inl origin =>
      let '(rp, w1, tp) := Actions.Run_packages apt origin w in
      match rp with
      | inr e => (inr e, w1, created :: tp)
      | inl packages =>
          let '(rm, w2, tm) :=
            Actions.mount_packages context (seq 0 (length packages)) packages
              (mkAptCommand context "install-dpkg" []) w1 in
          match rm with
          | inr e => (inr e, w2, created :: tp ++ tm)
          | inl (packages', c) =>
              let '(r, w3, ta) := Actions.Run_apt apt c packages' w2 in
              (r, w3, created :: tp ++ tm ++ ta)
          end
      end
  end.
Proof.
  unfold Actions.Run, abind at 1, Actions.NewAptCommand. cbv zeta.
  unfold abind at 1.
  destruct (Run_origin_pure apt context w) as [[origin|e] ->]; simpl; [|reflexivity].
  unfold abind at 1.
  destruct (Actions.Run_packages apt origin w) as [[[packages|e] w1] tp]; [|reflexivity].
  unfold abind at 1.
  destruct (Actions.mount_packages _ _ _ _ _) as [[[[packages' c]|e] w2] tm]; [|reflexivity].
  destruct (Actions.Run_apt apt c packages' w2) as [[r w3] ta]. reflexivity.
Qed.

(** A run whose packages were collected without duplicates. *)
Lemma Run_without_duplicates (apt : Actions.InstallDpkgAction) (context : DebosContext.t)
    (w w1 : W) (origin : string) (packages : list string) (tp : list action_event) :
  Actions.Run_origin apt context w = (inl origin, w, []) ->
  Actions.Run_packages apt origin w = (inl packages, w1, tp) ->
  NoDup packages ->
  Actions.Run apt context w =
  let rootdir := DebosContext.Rootdir context in
  let c := mkAptCommand context "install-dpkg"
             (map (fun pkg => (pkg, "")) (outside rootdir packages)) in
  let '(r, w2, ta) := Actions.Run_apt apt c (map (relative rootdir) packages) w1 in
  (r, w2, CallNewAptCommand context "install-dpkg" :: tp ++ map installing packages ++ ta).
Proof.
  intros Ho Hp Hnd. rewrite Run_phases. cbv zeta. rewrite Ho. simpl. rewrite Hp.
  pose proof (mount_packages_all context packages [] (mkAptCommand context "install-dpkg" [])
                w1 Hnd) as Hm.
  simpl in Hm. rewrite Hm. reflexivity.
Qed.

(** X11.  With a duplicate-free package list, the action logs
    "Installing <path>" for every package in order and then hands apt a
    list of the same length and order in which each path under the root
    directory has that prefix cut off and every other path is unchanged;
    the handle carries one bind mount, with an empty target, for each
    package that is not under the root directory, in order, and no other.
    The outcome of the action is the outcome of the apt steps. *)
Theorem Run_installs_paths_relative_to_root (apt : Actions.InstallDpkgAction)
    (context : DebosContext.t) (w w1 : W) (origin : string) (packages : list string)
    (tp : list action_event) :
  Actions.Run_origin apt context w = (inl origin, w, []) ->
  Actions.Run_packages apt origin w = (inl packages, w1, tp) ->
  NoDup packages ->
  Actions.Run apt context w =
  let rootdir := DebosContext.Rootdir context in
  let c := mkAptCommand context "install-dpkg"
             (map (fun pkg => (pkg, "")) (outside rootdir packages)) in
  let '(r, w2, ta) := Actions.Run_apt apt c (map (relative rootdir) packages) w1 in
  (r, w2, CallNewAptCommand context "install-dpkg" :: tp ++ map installing packages ++ ta).
Proof. exact (Run_without_duplicates apt context w w1 origin packages tp). Qed.

(** X12.  Duplicates are rejected before apt is touched.  When the
    collected list holds a package twice, the action returns "duplicate
    package found" naming the first package that occurs again later; it
    has logged "Installing" for the packages in front of it only, made no
    apt call, and left the world as the globbing left it. *)
Theorem Run_rejects_duplicates (apt : Actions.InstallDpkgAction)
    (context : DebosContext.t) (w w1 : W) (origin : string)
    (before later : list string) (pkg : string) (tp : list action_event) :
  Actions.Run_origin apt context w = (inl origin, w, []) ->
  Actions.Run_packages apt origin w = (inl (before ++ pkg :: later), w1, tp) ->
  NoDup before ->
  (forall p, p ∈ before -> p <> pkg /\ p ∉ later) ->
  pkg ∈ later ->
  Actions.Run apt context w =
  (inr (duplicate_error pkg), w1,
   CallNewAptCommand context "install-dpkg" :: tp ++ map installing before).
Proof.
  intros Ho Hp Hnd Hfirst Hin. rewrite Run_phases. cbv zeta. rewrite Ho. simpl. rewrite Hp.
  pose proof (mount_packages_duplicate context before later []
                pkg (mkAptCommand context "install-dpkg" []) w1 Hnd Hfirst Hin) as Hm.
  simpl in Hm. rewrite Hm. reflexivity.
Qed.

(** X13.  The apt steps run in a fixed order on the one handle: [Update]
    unless the action switched it off, then [Install] with the action's
    two flags, then [Clean].  The first step that fails ends the action
    with its error and the steps after it are not run; the action returns
    nil only when every step returned nil. *)
Theorem apt_steps_stop_at_first_failure (apt : Actions.InstallDpkgAction)
    (c : AptCommand) (packages : list string) (w : W) :
  match (Actions.Run_apt apt c packages w).1.1 with
  | inl _ =>
      (Actions.Run_apt apt c packages w).2
        = map (fun step => step None) (apt_steps apt c packages)
  | inr e =>
      exists done failed rest,
        apt_steps apt c packages = done ++ failed :: rest /\
        (Actions.Run_apt apt c packages w).2
          = map (fun step => step None) done ++ [failed (Some e)]
  end.
Proof.
  unfold Actions.Run_apt, apt_steps, abind, acall, check.
  destruct (Actions.Update apt); simpl.
  - destruct (apt_Update c w) as [[e|] w1]; simpl.
    { eexists [], _, _. split; reflexivity. }
    destruct (apt_Install c packages _ _ w1) as [[e|] w2]; simpl.
    { eexists [_], _, _. split; reflexivity. }
    destruct (apt_Clean c w2) as [[e|] w3]; simpl; [|reflexivity].
    eexists [_; _], _, _. split; reflexivity.
  - destruct (apt_Install c packages _ _ w) as [[e|] w2]; simpl.
    { eexists [], _, _. split; reflexivity. }
    destruct (apt_Clean c w2) as [[e|] w3]; simpl; [|reflexivity].
    eexists [_], _, _. split; reflexivity.
Qed.

Lemma strings_HasPrefix_app (prefix s : string) :
  strings_HasPrefix (prefix +:+ s) prefix = true.
Proof.
  induction prefix as [|c prefix IH]; [rewrite string_app_nil_l; now destruct s|].
  rewrite string_app_cons. simpl. now rewrite Ascii.eqb_refl.
Qed.

Lemma string_drop_app (prefix s : string) :
  string_drop (String.length prefix) (prefix +:+ s) = s.
Proof.
  induction prefix as [|c prefix IH]; [now rewrite string_app_nil_l|].
  rewrite string_app_cons. exact IH.
Qed.

Lemma relative_under_root (rootdir suffix : string) :
  relative rootdir (rootdir +:+ suffix) = suffix.
Proof.
  unfold relative, strings_TrimPrefix.
  now rewrite strings_HasPrefix_app, string_drop_app.
Qed.

Lemma string_app_inv_head (a b c : string) : a +:+ b = a +:+ c -> b = c.
Proof.
  induction a as [|x a IH]; [now rewrite !string_app_nil_l|].
  rewrite !string_app_cons. intros E. injection E as E. now apply IH.
Qed.

(** X14.  Whether a package is "in the rootfs" is a plain test on the
    text of its path.  When every collected path starts with the text of
    the root directory's path (at a component boundary or not: [/rootfs2]
    starts with [/root]), no package is bind-mounted and apt receives what
    follows that prefix.  In particular, with an empty root directory
    nothing is ever mounted and the paths are handed over unchanged. *)
Theorem packages_under_root_are_cut_not_mounted (apt : Actions.InstallDpkgAction)
    (context : DebosContext.t) (w w1 : W) (origin : string) (suffixes : list string)
    (tp : list action_event) :
  let packages := map (String.append (DebosContext.Rootdir context)) suffixes in
  Actions.Run_origin apt context w = (inl origin, w, []) ->
  Actions.Run_packages apt origin w = (inl packages, w1, tp) ->
  NoDup suffixes ->
  Actions.Run apt context w =
  let '(r, w2, ta) :=
    Actions.Run_apt apt (mkAptCommand context "install-dpkg" []) suffixes w1 in
  (r, w2, CallNewAptCommand context "install-dpkg" :: tp ++ map installing packages ++ ta).
Proof.
  intros packages Ho Hp Hnd.
  assert (Hnd' : NoDup packages).
  { assert (Hinj : Inj (=) (=) (String.append (DebosContext.Rootdir context)))
      by (intros a b; apply string_app_inv_head).
    unfold packages. now apply (NoDup_fmap_2 _). }
  rewrite (Run_without_duplicates apt context w w1 origin packages tp Ho Hp Hnd').
  cbv zeta.
  assert (Hout : outside (DebosContext.Rootdir context) packages = []).
  { unfold outside, packages. clear. induction suffixes as [|s suffixes IH]; [reflexivity|].
    simpl. rewrite filter_cons.
    rewrite decide_False by (rewrite strings_HasPrefix_app; discriminate). exact IH. }
  assert (Hrel : map (relative (DebosContext.Rootdir context)) packages = suffixes).
  { unfold packages. clear. induction suffixes as [|s suffixes IH]; [reflexivity|].
    simpl. rewrite IH. f_equal. apply relative_under_root. }
  rewrite Hout, Hrel. reflexivity.
Qed.

Lemma length_zero_empty (s : string) : (0 < String.length s)%nat <-> s <> "".
Proof. destruct s; simpl; split; intros; try lia; try congruence. Qed.

(** [Run_packages] starts with the stat of the origin and returns its
    failure. *)
Lemma Run_packages_stat (apt : Actions.InstallDpkgAction) (origin : string) (w : W) :
  (exists rest,
     (Actions.Run_packages apt origin w).2 = CallStat origin (os_Stat origin w).1 :: rest) /\
  (forall e, (os_Stat origin w).1 = inr e ->
     Actions.Run_packages apt origin w
     = (inr e, (os_Stat origin w).2, [CallStat origin (inr e)])).
Proof.
  unfold Actions.Run_packages, abind, acall.
  destruct (os_Stat origin w) as [[file|err] w1]; simpl.
  - split; [|discriminate]. destruct (_ w1) as [[r w2] tg]. now eexists.
  - split; [now eexists|]. intros e E. now injection E as ->.
Qed.

(** X15.  The origin is settled before anything is looked at.  An action
    that names an origin the context does not know returns "origin <name>
    not found" with no file-system access and no apt call.  Otherwise the
    first thing [Run] does after creating the apt handle is to stat the
    origin (the recipe directory when the action names none, the path
    recorded for the name otherwise), and a failure of that stat is
    returned at once. *)
Theorem origin_is_settled_first (apt : Actions.InstallDpkgAction)
    (context : DebosContext.t) (w : W) :
  match origin_of apt context with
  | None =>
      Actions.Run apt context w =
      (inr (fmt_Errorf ("origin " +:+ Actions.Origin apt +:+ " not found")), w,
       [CallNewAptCommand context "install-dpkg"])
  | Some origin =>
      (exists rest,
         (Actions.Run apt context w).2 =
         CallNewAptCommand context "install-dpkg"
           :: CallStat origin (os_Stat origin w).1 :: rest) /\
      (forall e, (os_Stat origin w).1 = inr e ->
         Actions.Run apt context w =
         (inr e, (os_Stat origin w).2,
          [CallNewAptCommand context "install-dpkg"; CallStat origin (inr e)]))
  end.
Proof.
  assert (Hgo : forall origin,
            Actions.Run_origin apt context w = (inl origin, w, []) ->
            (exists rest,
               (Actions.Run apt context w).2 =
               CallNewAptCommand context "install-dpkg"
                 :: CallStat origin (os_Stat origin w).1 :: rest) /\
            (forall e, (os_Stat origin w).1 = inr e ->
               Actions.Run apt context w =
               (inr e, (os_Stat origin w).2,
                [CallNewAptCommand context "install-dpkg"; CallStat origin (inr e)]))).
  { intros origin Ho. rewrite Run_phases. cbv zeta. rewrite Ho. cbn [fst].
    destruct (Run_packages_stat apt origin w) as [[rest Hrest] Hfail].
    destruct (Actions.Run_packages apt origin w) as [[rp w1] tp] eqn:Ep.
    cbn [snd] in Hrest. subst tp. split.
    - destruct rp as [packages|e]; [|now eexists].
      destruct (Actions.mount_packages _ _ _ _ _) as [[[[p c]|e] w3] tm]; [|now eexists].
      destruct (Actions.Run_apt _ _ _ _) as [[r w4] ta]. now eexists.
    - intros e He. specialize (Hfail e He). rewrite He in Hfail.
      injection Hfail as -> -> ->. now rewrite He. }
  unfold origin_of.
  destruct (decide (Actions.Origin apt = "")) as [Ho|Ho].
  - rewrite (bool_decide_true _ Ho). apply Hgo.
    unfold Actions.Run_origin.
    now rewrite bool_decide_false by (rewrite length_zero_empty; tauto).
  - rewrite (bool_decide_false _ Ho).
    destruct (DebosContext.Origins context !! Actions.Origin apt) as [origin|] eqn:Eo.
    + apply Hgo. unfold Actions.Run_origin.
      rewrite bool_decide_true by (now apply length_zero_empty). now rewrite Eo.
    + rewrite Run_phases. cbv zeta. unfold Actions.Run_origin.
      rewrite bool_decide_true by (now apply length_zero_empty). now rewrite Eo.
Qed.

(** ** When apt is reached *)

Lemma first_duplicate_split (packages : list string) :
  ~ NoDup packages ->
  exists before pkg later,
    packages = before ++ pkg :: later /\
    NoDup before /\
    (forall p, p ∈ before -> p <> pkg /\ p ∉ later) /\
    pkg ∈ later.
Proof.
  induction packages as [|p rest IH]; intros Hdup.
  - exfalso. apply Hdup. constructor.
  - destruct (decide (p ∈ rest)) as [Hin|Hout].
    + exists [], p, rest. split; [reflexivity|]. split; [constructor|].
      split; [|exact Hin]. intros x Hx. inversion Hx.
    + destruct IH as (before & pkg & later & -> & Hnd & Hfirst & Hin).
      { intros Hnd. apply Hdup. now apply NoDup_cons. }
      exists (p :: before), pkg, later. split; [reflexivity|].
      rewrite elem_of_app, elem_of_cons in Hout.
      split; [apply NoDup_cons; split; [tauto | exact Hnd]|].
      split; [|exact Hin].
      intros x Hx. apply elem_of_cons in Hx as [->|Hx]; [|now apply Hfirst].
      split; [intros ->|]; tauto.
Qed.

Lemma no_apt_call (t : list action_event) :
  Forall (fun e => is_apt_call e = false) t -> existsb is_apt_call t = false.
Proof. induction 1 as [|e t He _ IH]; [reflexivity|]. simpl. now rewrite He, IH. Qed.

Lemma glob_packages_no_apt (origin : string) (patterns acc : list string) (w : W) :
  Forall (fun e => is_apt_call e = false) (Actions.glob_packages origin patterns acc w).2.
Proof.
  revert acc w. induction patterns as [|pkg rest IH]; intros acc w; simpl; [constructor|].
  unfold abind at 1, acall.
  destruct (filepath_Glob (path_Join origin pkg) w) as [[matches|err] w1]; simpl;
    [|now repeat constructor].
  case_bool_decide; [now repeat constructor|].
  specialize (IH (acc ++ matches) w1).
  destruct (Actions.glob_packages origin rest (acc ++ matches) w1) as [[r w2] t2].
  now constructor.
Qed.

Lemma Run_packages_no_apt (apt : Actions.InstallDpkgAction) (origin : string) (w : W) :
  Forall (fun e => is_apt_call e = false) (Actions.Run_packages apt origin w).2.
Proof.
  unfold Actions.Run_packages, abind, acall.
  destruct (os_Stat origin w) as [[file|err] w1]; simpl; [|now repeat constructor].
  destruct (IsDir file); [|now repeat constructor].
  case_bool_decide; [now repeat constructor|].
  pose proof (glob_packages_no_apt origin (Actions.Packages apt) [] w1) as Hg.
  destruct (Actions.glob_packages origin (Actions.Packages apt) [] w1) as [[r w2] t2].
  now constructor.
Qed.

Lemma installing_no_apt (packages : list string) :
  Forall (fun e => is_apt_call e = false) (map installing packages).
Proof. induction packages; now constructor. Qed.

Lemma Run_apt_calls (apt : Actions.InstallDpkgAction) (c : AptCommand)
    (packages : list string) (w : W) :
  existsb is_apt_call (Actions.Run_apt apt c packages w).2 = true.
Proof.
  unfold Actions.Run_apt, abind, acall, check.
  destruct (Actions.Update apt); simpl.
  - destruct (apt_Update c w) as [[e|] w1]; simpl; [reflexivity|].
    destruct (apt_Install c packages _ _ w1) as [[e|] w2]; simpl; [reflexivity|].
    now destruct (apt_Clean c w2) as [[e|] w3].
  - destruct (apt_Install c packages _ _ w) as [[e|] w2]; simpl; [reflexivity|].
    now destruct (apt_Clean c w2) as [[e|] w3].
Qed.

(** X19.  Apt is reached exactly when the collected packages are
    pairwise distinct.  Once the package list is collected, the action
    makes an apt call ([Update], [Install] or [Clean]) if and only if no
    path occurs twice in the list; a list with a repetition ends the
    action before any of them. *)
Theorem apt_is_reached_iff_packages_are_distinct (apt : Actions.InstallDpkgAction)
    (context : DebosContext.t) (w w1 : W) (origin : string) (packages : list string)
    (tp : list action_event) :
  Actions.Run_origin apt context w = (inl origin, w, []) ->
  Actions.Run_packages apt origin w = (inl packages, w1, tp) ->
  existsb is_apt_call (Actions.Run apt context w).2 = true <-> NoDup packages.
Proof.
  intros Ho Hp.
  pose proof (Run_packages_no_apt apt origin w) as Htp. rewrite Hp in Htp. simpl in Htp.
  split.
  - intros Hcall. destruct (decide (NoDup packages)) as [Hnd|Hdup]; [exact Hnd|].
    exfalso.
    destruct (first_duplicate_split packages Hdup)
      as (before & pkg & later & -> & Hnd & Hfirst & Hin).
    rewrite Run_phases in Hcall. cbv zeta in Hcall. rewrite Ho in Hcall.
    cbn [fst] in Hcall. rewrite Hp in Hcall.
    pose proof (mount_packages_duplicate context before later []
                  pkg (mkAptCommand context "install-dpkg" []) w1 Hnd Hfirst Hin) as Hm.
    simpl in Hm. rewrite Hm in Hcall. cbn [snd] in Hcall.
    cbn [existsb is_apt_call orb] in Hcall.
    rewrite existsb_app, (no_apt_call tp Htp), (no_apt_call _ (installing_no_apt before))
      in Hcall.
    discriminate Hcall.
  - intros Hnd. rewrite (Run_without_duplicates apt context w w1 origin packages tp Ho Hp Hnd).
    cbv zeta.
    pose proof (Run_apt_calls apt
                  (mkAptCommand context "install-dpkg"
                     (map (fun pkg => (pkg, ""))
                        (outside (DebosContext.Rootdir context) packages)))
                  (map (relative (DebosContext.Rootdir context)) packages) w1) as Hcalls.
    destruct (Actions.Run_apt _ _ _ _) as [[r w2] ta]. simpl in Hcalls |- *.
    rewrite !existsb_app, Hcalls. now rewrite !orb_true_r.
Qed.

End ActionProofs.

(** * The command of a context *)

Section ContextProofs.
Context {W : Type} `{ActionHost W}.

Lemma asked_app (t1 t2 : list action_event) : asked (t1 ++ t2) = asked t1 ++ asked t2.
Proof. apply omap_app. Qed.

Lemma resolved_app (t1 t2 : list action_event) :
  resolved (t1 ++ t2) = resolved t1 ++ resolved t2.
Proof. apply omap_app. Qed.

Lemma printed_app (t1 t2 : list action_event) : printed (t1 ++ t2) = printed t1 ++ printed t2.
Proof. apply omap_app. Qed.

Lemma failures_app (t1 t2 : list action_event) :
  failures (t1 ++ t2) = failures t1 ++ failures t2.
Proof. apply omap_app. Qed.

(** The loop over the partitions: it never fails, asks for each device
    path once, in order, and adds the answers as mounts. *)
Lemma bind_partitions_spec (partitions : list Partition) (c : Command) (w : W) :
  exists c' w' t,
    bind_partitions c partitions w = (inl c', w', t) /\
    c' = mkCommand (Architecture c) (Dir c) (Chroot c) (ChrootMethod c)
           (bindMounts c ++ resolved t) (extraEnv c) /\
    asked t = map DevicePath partitions /\
    printed t = failures t.
Proof.
  revert c w. induction partitions as [|p rest IH]; intros c w; simpl.
  - exists c, w, []. simpl. rewrite app_nil_r. destruct c. repeat split.
  - unfold abind at 1, acall.
    destruct (RealPath (DevicePath p) w) as [[path|err] w1]; simpl.
    + destruct (IH (AddBindMount c path "") w1) as (c' & w' & t & -> & -> & Ha & Hp).
      eexists _, _, _. split; [reflexivity|]. simpl.
      rewrite <- app_assoc. repeat split; [now rewrite Ha | exact Hp].
    + unfold abind at 1, alog.
      destruct (IH c w1) as (c' & w' & t & -> & -> & Ha & Hp).
      eexists _, _, _. split; [reflexivity|]. simpl.
      repeat split; [now rewrite Ha | now rewrite Hp].
Qed.

Lemma fold_left_AddEnv (order : list (string * string)) (c : Command) :
  fold_left (fun c kv => AddEnv c (kv.1 +:+ "=" +:+ kv.2)) order c =
  mkCommand (Architecture c) (Dir c) (Chroot c) (ChrootMethod c) (bindMounts c)
    (extraEnv c ++ map assignment order).
Proof.
  revert c. induction order as [|kv order IH]; intros c; simpl.
  - rewrite app_nil_r. now destruct c.
  - rewrite IH. simpl. now rewrite <- app_assoc.
Qed.

(** [NewChrootCommandForContext], once and for all. *)
Lemma NewChrootCommandForContext_spec (order : list (string * string))
    (context : DebosContext.t) (w : W) :
  exists w' t,
    NewChrootCommandForContext order context w =
    (inl (mkCommand (DebosContext.Architecture context) "" (DebosContext.Rootdir context)
            CHROOT_METHOD_NSPAWN
            (if bool_decide (DebosContext.Image context <> "")
             then resolved t ++ ["/dev/disk"] else [])
            (match DebosContext.EnvironVars context with
             | Some _ => map assignment order
             | None => []
             end)),
     w', t) /\
    asked t = (if bool_decide (DebosContext.Image context <> "")
               then DebosContext.Image context
                    :: map DevicePath (DebosContext.ImagePartitions context)
               else []) /\
    printed t = failures t /\
    (DebosContext.Image context = "" -> w' = w /\ t = []).
Proof.
  unfold NewChrootCommandForContext.
  set (c0 := match DebosContext.EnvironVars context with
             | Some _ => fold_left _ order _
             | None => _
             end).
  assert (Hc0 : c0 = mkCommand (DebosContext.Architecture context) ""
                       (DebosContext.Rootdir context) CHROOT_METHOD_NSPAWN []
                       (match DebosContext.EnvironVars context with
                        | Some _ => map assignment order
                        | None => []
                        end)).
  { subst c0. destruct (DebosContext.EnvironVars context); [|reflexivity].
    now rewrite fold_left_AddEnv. }
  clearbody c0. subst c0.
  case_bool_decide as Himg.
  2:{ exists w, []. repeat split. }
  unfold abind at 1, acall.
  destruct (RealPath (DebosContext.Image context) w) as [[path|err] w1]; simpl.
  - unfold abind at 1, aret at 1. unfold abind at 1.
    match goal with
    | |- context [bind_partitions ?c ?ps ?w0] =>
        destruct (bind_partitions_spec ps c w0) as (c' & w' & t & -> & -> & Ha & Hp)
    end.
    simpl. rewrite app_nil_r.
    exists w', (CallRealPath (DebosContext.Image context) (inl path) :: t).
    split; [reflexivity|]. simpl.
    repeat split; [now rewrite Ha | exact Hp | contradiction | contradiction].
  - unfold abind at 1. unfold abind at 1, alog, aret at 1. unfold abind at 1.
    match goal with
    | |- context [bind_partitions ?c ?ps ?w0] =>
        destruct (bind_partitions_spec ps c w0) as (c' & w' & t & -> & -> & Ha & Hp)
    end.
    simpl. rewrite app_nil_r.
    exists w', (CallRealPath (DebosContext.Image context) (inr err)
                :: LogPrintf (log_line (realpath_failure (DebosContext.Image context) err))
                :: t).
    split; [reflexivity|]. simpl.
    repeat split; [now rewrite Ha | now rewrite Hp | contradiction | contradiction].
Qed.

(** X16.  The command made for a context always enters the chroot as a
    namespace container at the context's root directory, and carries
    every variable of the context exactly once, as [key=value], in the
    order in which Go happened to range over the map.  A run of that
    command hands them to the container tool as [--setenv] flags, after
    the fixed flags and before the bind mounts. *)
Theorem context_command_carries_every_variable (order : list (string * string))
    (context : DebosContext.t) (vars : gmap string string) (w : W)
    (cmdline : list string) :
  DebosContext.EnvironVars context = Some vars ->
  order ≡ₚ map_to_list vars ->
  exists c w' t,
    NewChrootCommandForContext order context w = (inl c, w', t) /\
    ChrootMethod c = CHROOT_METHOD_NSPAWN /\
    Chroot c = DebosContext.Rootdir context /\
    Architecture c = DebosContext.Architecture context /\
    extraEnv c ≡ₚ map assignment (map_to_list vars) /\
    length (extraEnv c) = size vars /\
    Run_options c cmdline =
      "systemd-nspawn" :: nspawn_flags
        ++ flat_map (fun e => ["--setenv"; e]) (extraEnv c)
        ++ flat_map (fun b => ["--bind"; b]) (bindMounts c)
        ++ ["-D"; DebosContext.Rootdir context] ++ cmdline.
Proof.
  intros Hvars Hperm.
  destruct (NewChrootCommandForContext_spec order context w) as (w' & t & E & _).
  rewrite Hvars in E. eexists _, w', t. split; [exact E|]. simpl.
  split; [reflexivity|]. split; [reflexivity|]. split; [reflexivity|].
  split; [now apply Permutation_map|].
  split.
  - rewrite length_map, Hperm. apply length_map_to_list.
  - unfold Run_options. simpl. rewrite !fold_left_flags. simpl.
    rewrite <- !app_assoc. reflexivity.
Qed.

(** X17.  The mounts of the command made for a context.  Without an
    image there is none, and nothing is resolved or logged.  With an image
    [RealPath] is asked for the image and then for the device path of
    every partition, once each and in order; the mounts are the answers in
    that order followed by [/dev/disk] as the last mount; every failure is
    logged and skipped, and none of them makes the function fail. *)
Theorem context_command_mounts (order : list (string * string))
    (context : DebosContext.t) (w : W) :
  exists c w' t,
    NewChrootCommandForContext order context w = (inl c, w', t) /\
    printed t = failures t /\
    if bool_decide (DebosContext.Image context <> "") then
      asked t = DebosContext.Image context
                :: map DevicePath (DebosContext.ImagePartitions context) /\
      bindMounts c = resolved t ++ ["/dev/disk"]
    else t = [] /\ w' = w /\ bindMounts c = [].
Proof.
  destruct (NewChrootCommandForContext_spec order context w)
    as (w' & t & E & Ha & Hp & Hno).
  eexists _, w', t. split; [exact E|]. split; [exact Hp|]. simpl.
  case_bool_decide as Himg.
  - split; [exact Ha | reflexivity].
  - destruct Hno as [-> ->]; [|repeat split].
    destruct (decide (DebosContext.Image context = "")); [assumption|contradiction].
Qed.

End ContextProofs.

(** * The theorems at work *)

(** X1, for the armhf container when the command succeeds: both lines of
    the output, the unterminated one included, are in the log. *)
Lemma Run_logs_whole_output_witness :
  let w := Scenario.world_of Scenario.files None in
  let r := Scenario.run Scenario.armhf_container ["true"] w in
  Scenario.run Scenario.armhf_container ["true"] w = (r.1, r.2) /\
  trace r.2 =
    trace (Mem.boot w) ++ take 6 (trace r.2)
      ++ CallExec (Run_options Scenario.armhf_container ["true"]) None Scenario.output None
      :: drop 7 (trace r.2) /\
  logged (take 6 (trace r.2)) = [] /\
  logged (drop 7 (trace r.2)) = ["build | a" +:+ nl; "build | b" +:+ nl].
Proof.
  intros w r.
  assert (H2 : Scenario.run Scenario.armhf_container ["true"] w = (r.1, r.2))
    by (vm_compute; reflexivity).
  assert (H3 : trace r.2 =
    trace (Mem.boot w) ++ take 6 (trace r.2)
      ++ CallExec (Run_options Scenario.armhf_container ["true"]) None Scenario.output None
      :: drop 7 (trace r.2)) by (vm_compute; reflexivity).
  do 2 (split; [assumption|]).
  destruct (Run_logs_whole_output (H := Mem.host "amd64")
              Scenario.armhf_container "build" ["true"] (Mem.boot w) r.2 r.1
              (take 6 (trace r.2)) (drop 7 (trace r.2))
              (Run_options Scenario.armhf_container ["true"]) None Scenario.output
              None H2 H3) as (Hpre & _).
  split; [exact Hpre|]. vm_compute. reflexivity.
Defined.

(** X2, for a command without chroot. *)
Lemma Run_mode_none_runs_bare_command_witness :
  let w := Scenario.world_of Scenario.files None in
  ChrootMethod Cases.bare = CHROOT_METHOD_NONE /\
  ["true"] <> [] /\
  newQemuHelper (H := Mem.host "amd64") Cases.bare (Mem.boot w)
    = (Done (mkQemuHelper "" ""), Mem.boot w) /\
  exists m',
    Scenario.run Cases.bare ["true"] w = (Done None, m') /\
    trace m' = [CallExec ["true"] None Scenario.output None;
                Log ("build | a" +:+ nl); Log ("build | b" +:+ nl)].
Proof.
  intros w.
  assert (H1 : ChrootMethod Cases.bare = CHROOT_METHOD_NONE) by reflexivity.
  assert (H2 : ["true"] <> ([] : list string)) by discriminate.
  assert (H3 : newQemuHelper (H := Mem.host "amd64") Cases.bare (Mem.boot w)
               = (Done (mkQemuHelper "" ""), Mem.boot w)) by reflexivity.
  do 3 (split; [assumption|]).
  destruct (Run_mode_none_runs_bare_command (H := Mem.host "amd64")
              Cases.bare "build" ["true"] (Mem.boot w) (mkQemuHelper "" "") H1 H2 H3)
    as (m' & removed & HR & Ht & _).
  exists m'. split; [exact HR|]. rewrite Ht. vm_compute. reflexivity.
Defined.

(** X3, for the armhf container: the target's resolv.conf is back. *)
Lemma Run_restores_resolv_conf_witness :
  let w := Scenario.world_of Scenario.files None in
  let r := Scenario.run Scenario.armhf_container ["true"] w in
  ChrootMethod Scenario.armhf_container <> CHROOT_METHOD_NONE /\
  Scenario.run Scenario.armhf_container ["true"] w = (r.1, r.2) /\
  trace r.2 =
    trace (Mem.boot w) ++ take 6 (trace r.2)
      ++ CallExec (Run_options Scenario.armhf_container ["true"]) None Scenario.output None
      :: drop 7 (trace r.2) /\
  r.1 = Done None /\
  Mem.files (world r.2) !! "/build/root/etc/resolv.conf" = Some Scenario.target_resolv /\
  Mem.files (world r.2) !! "/build/root/etc/resolv.conf.debos" = None.
Proof.
  intros w r.
  assert (H1 : ChrootMethod Scenario.armhf_container <> CHROOT_METHOD_NONE) by discriminate.
  assert (H2 : Scenario.run Scenario.armhf_container ["true"] w = (r.1, r.2))
    by (vm_compute; reflexivity).
  assert (H3 : trace r.2 =
    trace (Mem.boot w) ++ take 6 (trace r.2)
      ++ CallExec (Run_options Scenario.armhf_container ["true"]) None Scenario.output None
      :: drop 7 (trace r.2)) by (vm_compute; reflexivity).
  do 3 (split; [assumption|]).
  exact (Run_restores_resolv_conf "amd64"
           Scenario.armhf_container "build" ["true"] (Mem.boot w) r.2 r.1
           (take 6 (trace r.2)) (drop 7 (trace r.2))
           (Run_options Scenario.armhf_container ["true"]) None Scenario.output
           H1 H2 H3
           (fun fs res fs' E =>
              match E in _ = p return p.2 !! _ = fs !! _ /\ p.2 !! _ = fs !! _ with
              | eq_refl => conj eq_refl eq_refl
              end)).
Defined.

(** X4, for a command that writes its own resolv.conf into the target:
    its file stays, the side-car with the original is removed. *)
Lemma Run_keeps_changed_resolv_conf_witness :
  let w := Cases.world_rewriting in
  let r := Scenario.run Scenario.armhf_container ["true"] w in
  ChrootMethod Scenario.armhf_container <> CHROOT_METHOD_NONE /\
  Scenario.run Scenario.armhf_container ["true"] w = (r.1, r.2) /\
  trace r.2 =
    trace (Mem.boot w) ++ take 6 (trace r.2)
      ++ CallExec (Run_options Scenario.armhf_container ["true"]) None [] None
      :: drop 7 (trace r.2) /\
  Mem.files (world (Mem.boot w)) !! hostconf = Some Scenario.host_resolv /\
  is_overlay (generated_marker +:+ Mem.data Scenario.host_resolv) (Some Cases.own_resolv)
    = false /\
  r.1 = Done None /\
  Mem.files (world r.2) !! "/build/root/etc/resolv.conf" = Some Cases.own_resolv /\
  Mem.files (world r.2) !! "/build/root/etc/resolv.conf.debos" = None.
Proof.
  intros w r.
  assert (H1 : ChrootMethod Scenario.armhf_container <> CHROOT_METHOD_NONE) by discriminate.
  assert (H2 : Scenario.run Scenario.armhf_container ["true"] w = (r.1, r.2))
    by (vm_compute; reflexivity).
  assert (H3 : trace r.2 =
    trace (Mem.boot w) ++ take 6 (trace r.2)
      ++ CallExec (Run_options Scenario.armhf_container ["true"]) None [] None
      :: drop 7 (trace r.2)) by (vm_compute; reflexivity).
  assert (H4 : Mem.files (world (Mem.boot w)) !! hostconf = Some Scenario.host_resolv)
    by (vm_compute; reflexivity).
  assert (H5 : is_overlay (generated_marker +:+ Mem.data Scenario.host_resolv)
                 (Some Cases.own_resolv) = false) by (vm_compute; reflexivity).
  do 5 (split; [assumption|]).
  exact (Run_keeps_changed_resolv_conf "amd64"
           Scenario.armhf_container "build" ["true"] (Mem.boot w) r.2 r.1
           (take 6 (trace r.2)) (drop 7 (trace r.2))
           (Run_options Scenario.armhf_container ["true"]) None []
           Scenario.host_resolv (Some Cases.own_resolv)
           H1 H2 H3 H4
           (fun fs res fs' E =>
              match E in _ = p return p.2 !! _ = Some Cases.own_resolv with
              | eq_refl => lookup_insert_eq fs "/build/root/etc/resolv.conf" Cases.own_resolv
              end)
           H5).
Defined.

(** X5, for the armhf container on a host that has the interpreter. *)
Lemma Run_leaves_no_interpreter_witness :
  let w := Scenario.world_of Scenario.files_with_qemu None in
  let q := mkQemuHelper "/usr/bin/qemu-arm-static" "/build/root/usr/bin/qemu-arm-static" in
  newQemuHelper (H := Mem.host "amd64") Scenario.armhf_container (Mem.boot w)
    = (Done q, Mem.boot w) /\
  qemusrc q <> "" /\
  Mem.files (world (Scenario.run Scenario.armhf_container ["true"] w).2)
    !! "/build/root/usr/bin/qemu-arm-static" = None.
Proof.
  intros w q.
  assert (H1 : newQemuHelper (H := Mem.host "amd64") Scenario.armhf_container (Mem.boot w)
               = (Done q, Mem.boot w)) by (vm_compute; reflexivity).
  assert (H2 : qemusrc q <> "") by discriminate.
  do 2 (split; [assumption|]).
  exact (Run_leaves_no_interpreter "amd64" Scenario.armhf_container "build" ["true"]
           (Mem.boot w) q H1 H2).
Defined.

(** X6, for the same run: what the process found when it started. *)
Lemma process_starts_with_interpreter_and_overlay_witness :
  let w := Scenario.world_of Scenario.files_with_qemu None in
  let r := Scenario.run Scenario.armhf_container ["true"] w in
  let q := mkQemuHelper "/usr/bin/qemu-arm-static" "/build/root/usr/bin/qemu-arm-static" in
  ChrootMethod Scenario.armhf_container <> CHROOT_METHOD_NONE /\
  Scenario.run Scenario.armhf_container ["true"] w = (r.1, r.2) /\
  trace r.2 =
    trace (Mem.boot w) ++ take 6 (trace r.2)
      ++ CallExec (Run_options Scenario.armhf_container ["true"]) None Scenario.output None
      :: drop 7 (trace r.2) /\
  newQemuHelper (H := Mem.host "amd64") Scenario.armhf_container (Mem.boot w)
    = (Done q, Mem.boot w) /\
  qemusrc q <> "" /\
  Mem.files (world (Mem.boot w)) !! qemusrc q = Some (Mem.mkNode 493 "ELF") /\
  IsRegular 493 = true /\
  exists started left hn,
    Mem.program w (Run_options Scenario.armhf_container ["true"]) None started
      = ((Scenario.output, None), left) /\
    started !! "/build/root/usr/bin/qemu-arm-static" = Some (Mem.mkNode 493 "ELF") /\
    Mem.files w !! hostconf = Some hn /\
    started !! "/build/root/etc/resolv.conf"
      = Some (Mem.mkNode 420 (generated_marker +:+ Mem.data hn)).
Proof.
  intros w r q.
  assert (H1 : ChrootMethod Scenario.armhf_container <> CHROOT_METHOD_NONE) by discriminate.
  assert (H2 : Scenario.run Scenario.armhf_container ["true"] w = (r.1, r.2))
    by (vm_compute; reflexivity).
  assert (H3 : trace r.2 =
    trace (Mem.boot w) ++ take 6 (trace r.2)
      ++ CallExec (Run_options Scenario.armhf_container ["true"]) None Scenario.output None
      :: drop 7 (trace r.2)) by (vm_compute; reflexivity).
  assert (H4 : newQemuHelper (H := Mem.host "amd64") Scenario.armhf_container (Mem.boot w)
               = (Done q, Mem.boot w)) by (vm_compute; reflexivity).
  assert (H5 : qemusrc q <> "") by discriminate.
  assert (H6 : Mem.files (world (Mem.boot w)) !! qemusrc q = Some (Mem.mkNode 493 "ELF"))
    by (vm_compute; reflexivity).
  assert (H7 : IsRegular 493 = true) by reflexivity.
  do 7 (split; [assumption|]).
  exact (process_starts_with_interpreter_and_overlay "amd64"
           Scenario.armhf_container "build" ["true"] (Mem.boot w) r.2 r.1
           (take 6 (trace r.2)) (drop 7 (trace r.2))
           (Run_options Scenario.armhf_container ["true"]) None Scenario.output None
           q (Mem.mkNode 493 "ELF") H1 H2 H3 H4 H5 H6 H7).
Defined.

(** X7, for a classic chroot at [/]: the host loses its resolv.conf. *)
Lemma Run_on_host_root_misplaces_resolv_conf_witness :
  let w := Scenario.world_of Scenario.files None in
  (ChrootMethod Cases.host_root = CHROOT_METHOD_NSPAWN \/
   ChrootMethod Cases.host_root = CHROOT_METHOD_CHROOT) /\
  chrootedconf Cases.host_root = hostconf /\
  newQemuHelper (H := Mem.host "amd64") Cases.host_root (Mem.boot w)
    = (Done (mkQemuHelper "" ""), Mem.boot w) /\
  Mem.files (world (Mem.boot w)) !! hostconf = Some Scenario.host_resolv /\
  exists m',
    Scenario.run Cases.host_root ["true"] w = (Done (Some (Mem.ENOENT hostconf)), m') /\
    spawned (trace m') = [] /\
    Mem.files (world m') !! "/etc/resolv.conf" = None /\
    Mem.files (world m') !! "/etc/resolv.conf.debos" = Some Scenario.host_resolv.
Proof.
  intros w.
  assert (H1 : ChrootMethod Cases.host_root = CHROOT_METHOD_NSPAWN \/
               ChrootMethod Cases.host_root = CHROOT_METHOD_CHROOT) by (right; reflexivity).
  assert (H2 : chrootedconf Cases.host_root = hostconf) by reflexivity.
  assert (H3 : newQemuHelper (H := Mem.host "amd64") Cases.host_root (Mem.boot w)
               = (Done (mkQemuHelper "" ""), Mem.boot w)) by reflexivity.
  assert (H4 : Mem.files (world (Mem.boot w)) !! hostconf = Some Scenario.host_resolv)
    by (vm_compute; reflexivity).
  do 4 (split; [assumption|]).
  exact (Run_on_host_root_misplaces_resolv_conf "amd64" Cases.host_root "build" ["true"]
           (Mem.boot w) (mkQemuHelper "" "") Scenario.host_resolv H1 H2 H3 H4).
Defined.

(** X8, for three calls on the armhf container. *)
Lemma builder_calls_reach_argument_vector_witness :
  ChrootMethod Scenario.armhf_container = CHROOT_METHOD_NSPAWN /\
  Run_options
    (build Scenario.armhf_container
       [DoAddEnv "A=1"; DoAddBindMount "/src" "/dst"; DoAddEnvKey "B" "2"])
    ["true"] =
  ["systemd-nspawn"; "-q"; "--resolv-conf=off"; "--timezone=off"; "--register=no";
   "--keep-unit"; "--console=pipe"; "--setenv"; "A=1"; "--setenv"; "B=2";
   "--bind"; "/pkg/app.deb"; "--bind"; "/src:/dst"; "-D"; "/build/root"; "true"].
Proof.
  assert (H1 : ChrootMethod Scenario.armhf_container = CHROOT_METHOD_NSPAWN) by reflexivity.
  split; [assumption|].
  exact (builder_calls_reach_argument_vector Scenario.armhf_container
           [DoAddEnv "A=1"; DoAddBindMount "/src" "/dst"; DoAddEnvKey "B" "2"] ["true"] H1).
Defined.

(** X9, for a recipe directory with two packages and one pattern. *)
Lemma collected_packages_are_the_matches_witness :
  let run := Cases.collect ["pkgs/*.deb"] in
  Cases.collect ["pkgs/*.deb"] = (inl [Cases.a_deb; Cases.b_deb], run.1.2, run.2) /\
  [Cases.a_deb; Cases.b_deb] <> [] /\
  run.2 = [CallStat "/recipe" (inl (Z.lor ModeDir 493));
           CallGlob "/recipe/pkgs/*.deb" (inl [Cases.a_deb; Cases.b_deb])].
Proof.
  intros run.
  assert (H1 : Cases.collect ["pkgs/*.deb"]
               = (inl [Cases.a_deb; Cases.b_deb], run.1.2, run.2))
    by (vm_compute; reflexivity).
  split; [assumption|].
  destruct (collected_packages_are_the_matches (H := Cases.shelf_host)
              (Cases.action ["pkgs/*.deb"]) "/recipe" Cases.recipe run.1.2
              [Cases.a_deb; Cases.b_deb] run.2 H1) as (Hne & _).
  split; [exact Hne|]. vm_compute. reflexivity.
Defined.

(** X10, when the second of three patterns matches nothing: the third is
    not globbed. *)
Lemma collecting_stops_at_first_failure_witness :
  let patterns := ["pkgs/*.deb"; "missing/*.deb"; "pkgs/a.deb"] in
  let run := Cases.collect patterns in
  let e := fmt_Errorf "file(s) not found after globbing: missing/*.deb" in
  Cases.collect patterns = (inr e, run.1.2, run.2) /\
  run.2 = [CallStat "/recipe" (inl (Z.lor ModeDir 493));
           CallGlob "/recipe/pkgs/*.deb" (inl [Cases.a_deb; Cases.b_deb]);
           CallGlob "/recipe/missing/*.deb" (inl [])] /\
  ((run.2 = [CallStat "/recipe" (inr e)] /\
    (os_Stat (ActionHost := Cases.shelf_host) "/recipe" Cases.recipe).1 = inr e) \/
   exists file,
     (os_Stat (ActionHost := Cases.shelf_host) "/recipe" Cases.recipe).1 = inl file /\
     IsDir file = true /\
     ((Actions.Packages (Cases.action patterns) = [] /\
       e = fmt_Errorf "no packages defined" /\
       run.2 = [CallStat "/recipe" (inl file)]) \/
      exists before pkg after answers r,
        Actions.Packages (Cases.action patterns) = before ++ pkg :: after /\
        length answers = length before /\
        Forall (fun matches => matches <> []) answers /\
        run.2 = CallStat "/recipe" (inl file)
                :: zip_with
                     (fun pkg matches => CallGlob (path_Join "/recipe" pkg) (inl matches))
                     before answers
                ++ [CallGlob (path_Join "/recipe" pkg) r] /\
        (r = inr e \/
         (r = inl [] /\
          e = fmt_Errorf ("file(s) not found after globbing: " +:+ pkg))))).
Proof.
  intros patterns run e.
  assert (H1 : Cases.collect patterns = (inr e, run.1.2, run.2))
    by (vm_compute; reflexivity).
  split; [assumption|]. split; [vm_compute; reflexivity|].
  exact (collecting_stops_at_first_failure (H := Cases.shelf_host)
           (Cases.action patterns) "/recipe" Cases.recipe run.1.2 e run.2 H1).
Defined.

(** X11, for two packages outside the root directory: both are mounted
    and handed to apt as they are. *)
Lemma Run_installs_paths_relative_to_root_witness :
  let context := Cases.context "/scratch/root" in
  let apt := Cases.action ["pkgs/*.deb"] in
  let collected := Cases.collect ["pkgs/*.deb"] in
  let c := mkAptCommand context "install-dpkg" [(Cases.a_deb, ""); (Cases.b_deb, "")] in
  Actions.Run_origin (W := Cases.shelf) apt context Cases.recipe
    = (inl "/recipe", Cases.recipe, []) /\
  Actions.Run_packages (H := Cases.shelf_host) apt "/recipe" Cases.recipe
    = (inl [Cases.a_deb; Cases.b_deb], Cases.recipe, collected.2) /\
  NoDup [Cases.a_deb; Cases.b_deb] /\
  Cases.install "/scratch/root" ["pkgs/*.deb"] =
  (inl tt, Cases.recipe,
   CallNewAptCommand context "install-dpkg"
     :: collected.2
     ++ [installing Cases.a_deb; installing Cases.b_deb]
     ++ [CallUpdate c None; CallInstall c [Cases.a_deb; Cases.b_deb] false false None;
         CallClean c None]).
Proof.
  intros context apt collected c.
  assert (H1 : Actions.Run_origin (W := Cases.shelf) apt context Cases.recipe
               = (inl "/recipe", Cases.recipe, [])) by reflexivity.
  assert (H2 : Actions.Run_packages (H := Cases.shelf_host) apt "/recipe" Cases.recipe
               = (inl [Cases.a_deb; Cases.b_deb], Cases.recipe, collected.2))
    by (vm_compute; reflexivity).
  assert (H3 : NoDup [Cases.a_deb; Cases.b_deb])
    by (apply (bool_decide_unpack _); vm_compute; exact I).
  do 3 (split; [assumption|]).
  refine (eq_trans
            (Run_installs_paths_relative_to_root (H := Cases.shelf_host)
               apt context Cases.recipe Cases.recipe "/recipe" [Cases.a_deb; Cases.b_deb]
               collected.2 H1 H2 H3) _).
  vm_compute. reflexivity.
Defined.

(** X12, when a second pattern matches a package again. *)
Lemma Run_rejects_duplicates_witness :
  let context := Cases.context "/scratch/root" in
  let patterns := ["pkgs/*.deb"; "pkgs/a.deb"] in
  let apt := Cases.action patterns in
  let collected := Cases.collect patterns in
  Actions.Run_origin (W := Cases.shelf) apt context Cases.recipe
    = (inl "/recipe", Cases.recipe, []) /\
  Actions.Run_packages (H := Cases.shelf_host) apt "/recipe" Cases.recipe
    = (inl ([] ++ Cases.a_deb :: [Cases.b_deb; Cases.a_deb]), Cases.recipe, collected.2) /\
  NoDup ([] : list string) /\
  (forall p, p ∈ ([] : list string) ->
             p <> Cases.a_deb /\ p ∉ [Cases.b_deb; Cases.a_deb]) /\
  Cases.a_deb ∈ [Cases.b_deb; Cases.a_deb] /\
  Cases.install "/scratch/root" patterns =
  (inr (duplicate_error Cases.a_deb), Cases.recipe,
   CallNewAptCommand context "install-dpkg" :: collected.2 ++ map installing []).
Proof.
  intros context patterns apt collected.
  assert (H1 : Actions.Run_origin (W := Cases.shelf) apt context Cases.recipe
               = (inl "/recipe", Cases.recipe, [])) by reflexivity.
  assert (H2 : Actions.Run_packages (H := Cases.shelf_host) apt "/recipe" Cases.recipe
               = (inl ([] ++ Cases.a_deb :: [Cases.b_deb; Cases.a_deb]), Cases.recipe,
                  collected.2))
    by (vm_compute; reflexivity).
  assert (H3 : NoDup ([] : list string)) by constructor.
  assert (H4 : forall p, p ∈ ([] : list string) ->
                         p <> Cases.a_deb /\ p ∉ [Cases.b_deb; Cases.a_deb])
    by (intros p Hp; inversion Hp).
  assert (H5 : Cases.a_deb ∈ [Cases.b_deb; Cases.a_deb])
    by (apply (bool_decide_unpack _); vm_compute; exact I).
  do 5 (split; [assumption|]).
  exact (Run_rejects_duplicates (H := Cases.shelf_host) apt context Cases.recipe
           Cases.recipe "/recipe" [] [Cases.b_deb; Cases.a_deb] Cases.a_deb collected.2
           H1 H2 H3 H4 H5).
Defined.

(** X14, for a root directory [/rec] and packages under [/recipe]: the
    text [/rec] is cut off and nothing is mounted. *)
Lemma packages_under_root_are_cut_not_mounted_witness :
  let context := Cases.context "/rec" in
  let apt := Cases.action ["pkgs/*.deb"] in
  let collected := Cases.collect ["pkgs/*.deb"] in
  let suffixes := ["ipe/pkgs/a.deb"; "ipe/pkgs/b.deb"] in
  let c := mkAptCommand context "install-dpkg" [] in
  Actions.Run_origin (W := Cases.shelf) apt context Cases.recipe
    = (inl "/recipe", Cases.recipe, []) /\
  Actions.Run_packages (H := Cases.shelf_host) apt "/recipe" Cases.recipe
    = (inl (map (String.append (DebosContext.Rootdir context)) suffixes), Cases.recipe,
       collected.2) /\
  NoDup suffixes /\
  Cases.install "/rec" ["pkgs/*.deb"] =
  (inl tt, Cases.recipe,
   CallNewAptCommand context "install-dpkg"
     :: collected.2
     ++ [installing Cases.a_deb; installing Cases.b_deb]
     ++ [CallUpdate c None; CallInstall c suffixes false false None; CallClean c None]).
Proof.
  intros context apt collected suffixes c.
  assert (H1 : Actions.Run_origin (W := Cases.shelf) apt context Cases.recipe
               = (inl "/recipe", Cases.recipe, [])) by reflexivity.
  assert (H2 : Actions.Run_packages (H := Cases.shelf_host) apt "/recipe" Cases.recipe
               = (inl (map (String.append (DebosContext.Rootdir context)) suffixes),
                  Cases.recipe, collected.2))
    by (vm_compute; reflexivity).
  assert (H3 : NoDup suffixes) by (apply (bool_decide_unpack _); vm_compute; exact I).
  do 3 (split; [assumption|]).
  refine (eq_trans
            (packages_under_root_are_cut_not_mounted (H := Cases.shelf_host)
               apt context Cases.recipe Cases.recipe "/recipe" suffixes collected.2
               H1 H2 H3) _).
  vm_compute. reflexivity.
Defined.

(** X16, for a context with one variable. *)
Lemma context_command_carries_every_variable_witness :
  let context := Cases.context "/scratch/root" in
  let vars : gmap string string := <["LANG" := "C"]> ∅ in
  DebosContext.EnvironVars context = Some vars /\
  [("LANG", "C")] ≡ₚ map_to_list vars /\
  exists c w' t,
    NewChrootCommandForContext (H := Cases.shelf_host) [("LANG", "C")] context Cases.recipe
      = (inl c, w', t) /\
    ChrootMethod c = CHROOT_METHOD_NSPAWN /\
    Chroot c = "/scratch/root" /\
    Run_options c ["true"] =
      "systemd-nspawn" :: nspawn_flags
        ++ flat_map (fun e => ["--setenv"; e]) (extraEnv c)
        ++ flat_map (fun b => ["--bind"; b]) (bindMounts c)
        ++ ["-D"; "/scratch/root"; "true"].
Proof.
  intros context vars.
  assert (H1 : DebosContext.EnvironVars context = Some vars) by reflexivity.
  assert (H2 : [("LANG", "C")] ≡ₚ map_to_list vars)
    by (unfold vars; now rewrite insert_empty, map_to_list_singleton).
  do 2 (split; [assumption|]).
  destruct (context_command_carries_every_variable (H := Cases.shelf_host)
              [("LANG", "C")] context vars Cases.recipe ["true"] H1 H2)
    as (c & w' & t & E & Hm & Hc & _ & _ & _ & Ho).
  exists c, w', t. repeat split; assumption.
Defined.

(** X18, for the armhf container: the gate and the overlay around the
    process. *)
Lemma process_runs_behind_gate_and_overlay_witness :
  let w := Scenario.world_of Scenario.files None in
  let r := Scenario.run Scenario.armhf_container ["true"] w in
  ChrootMethod Scenario.armhf_container <> CHROOT_METHOD_NONE /\
  Scenario.run Scenario.armhf_container ["true"] w = (r.1, r.2) /\
  trace r.2 =
    trace (Mem.boot w) ++ take 6 (trace r.2)
      ++ CallExec (Run_options Scenario.armhf_container ["true"]) None Scenario.output None
      :: drop 7 (trace r.2) /\
  drop 1 (take 6 (trace r.2)) =
    [CallDeny "/build/root";
     CallLstat "/build/root/etc/resolv.conf" (inl 420);
     CallRename "/build/root/etc/resolv.conf" "/build/root/etc/resolv.conf.debos" None;
     CallReadFile "/etc/resolv.conf" (inl (Mem.data Scenario.host_resolv));
     CallWriteFile "/build/root/etc/resolv.conf" Scenario.overlay 420 None] /\
  CallAllow (Chroot Scenario.armhf_container) ∈ drop 7 (trace r.2).
Proof.
  intros w r.
  assert (H1 : ChrootMethod Scenario.armhf_container <> CHROOT_METHOD_NONE) by discriminate.
  assert (H2 : Scenario.run Scenario.armhf_container ["true"] w = (r.1, r.2))
    by (vm_compute; reflexivity).
  assert (H3 : trace r.2 =
    trace (Mem.boot w) ++ take 6 (trace r.2)
      ++ CallExec (Run_options Scenario.armhf_container ["true"]) None Scenario.output None
      :: drop 7 (trace r.2)) by (vm_compute; reflexivity).
  do 3 (split; [assumption|]).
  destruct (process_runs_behind_gate_and_overlay (H := Mem.host "amd64")
              Scenario.armhf_container "build" ["true"] (Mem.boot w) r.2 r.1
              (take 6 (trace r.2)) (drop 7 (trace r.2))
              (Run_options Scenario.armhf_container ["true"]) None Scenario.output None
              H1 H2 H3) as (_ & Hallow).
  split; [vm_compute; reflexivity | exact Hallow].
Defined.

(** X19, for the two runs above: distinct packages reach apt, a repeated
    one does not. *)
Lemma apt_is_reached_iff_packages_are_distinct_witness :
  let context := Cases.context "/scratch/root" in
  let patterns := ["pkgs/*.deb"; "pkgs/a.deb"] in
  let apt := Cases.action patterns in
  let collected := Cases.collect patterns in
  Actions.Run_origin (W := Cases.shelf) apt context Cases.recipe
    = (inl "/recipe", Cases.recipe, []) /\
  Actions.Run_packages (H := Cases.shelf_host) apt "/recipe" Cases.recipe
    = (inl [Cases.a_deb; Cases.b_deb; Cases.a_deb], Cases.recipe, collected.2) /\
  existsb is_apt_call (Cases.install "/scratch/root" patterns).2 = false /\
  ~ NoDup [Cases.a_deb; Cases.b_deb; Cases.a_deb].
Proof.
  intros context patterns apt collected.
  assert (H1 : Actions.Run_origin (W := Cases.shelf) apt context Cases.recipe
               = (inl "/recipe", Cases.recipe, [])) by reflexivity.
  assert (H2 : Actions.Run_packages (H := Cases.shelf_host) apt "/recipe" Cases.recipe
               = (inl [Cases.a_deb; Cases.b_deb; Cases.a_deb], Cases.recipe, collected.2))
    by (vm_compute; reflexivity).
  assert (H3 : existsb is_apt_call (Cases.install "/scratch/root" patterns).2 = false)
    by (vm_compute; reflexivity).
  do 3 (split; [assumption|]).
  intros Hnd.
  apply (apt_is_reached_iff_packages_are_distinct (H := Cases.shelf_host)
           apt context Cases.recipe Cases.recipe "/recipe"
           [Cases.a_deb; Cases.b_deb; Cases.a_deb] collected.2 H1 H2) in Hnd.
  unfold Cases.install in H3. unfold apt, context in Hnd. rewrite H3 in Hnd.
  discriminate Hnd.
Defined.
